(** * elevenlabslib: the streaming audio pipeline of [_AudioChunkStreamer]

  A shallow embedding of [src/elevenlabslib/ElevenLabsVoice.py], lines
  436-661: the shared [io.BytesIO] buffer, the six [threading.Event]
  latches, the download thread, the header loop and the feed loop of
  [begin_streaming], the reader [_get_data_from_download_thread] with
  [_soundFile_read_and_fix], and the real-time playback callback.

  The file has three layers:
  - [BytesIO], [Events], [Streamer]: the data of one streamer object;
  - the methods as sequential state transformers (what a method does
    when nothing interleaves with it);
  - the session ([World], [step], [run]): a small-step interleaving of
    the download thread, the thread that runs [begin_streaming] and the
    audio device, one statement per step, with the lock made explicit. *)

From Stdlib Require Import List Arith ZArith Bool Lia.
From Stdlib.Strings Require Import Byte.
From Stdlib Require String Ascii QArith.
Import ListNotations.

Set Implicit Arguments.

Definition bytes := list byte.

(** The module-level tunables (lines 24-25).  The chunk size only
    shapes what [iter_content] yields; the block size is the parameter
    [_playbackBlockSize] of the model. *)
Definition default_playbackBlockSize : nat := 2048.
Definition default_downloadChunkSize : nat := 4096.

(** ** [io.BytesIO] *)

Module BytesIO.

Record t := mk { buf : bytes; cur : nat }.

Definition empty : t := mk [] 0.

Definition tell (f : t) : nat := cur f.

(** [f.seek(off)], whence 0. *)
Definition seek (off : nat) (f : t) : t := mk (buf f) off.

(** [f.seek(0, os.SEEK_END)]; the call returns the new position. *)
Definition seek_end (f : t) : t := mk (buf f) (length (buf f)).

(** [f.write(b)]: overwrite from the cursor on, growing the buffer;
    a cursor past the end is first reached by zero filling. *)
Definition write (b : bytes) (f : t) : t :=
  let padded := buf f ++ repeat x00 (cur f - length (buf f)) in
  mk (firstn (cur f) padded ++ b ++ skipn (cur f + length b) padded)
     (cur f + length b).

(** [f.read(n)] for [n >= 0]: at most [n] bytes from the cursor on. *)
Definition read (n : nat) (f : t) : bytes * t :=
  let out := firstn n (skipn (cur f) (buf f)) in
  (out, mk (buf f) (cur f + length out)).

(** [f.read()]: everything from the cursor on. *)
Definition read_all (f : t) : bytes * t :=
  let out := skipn (cur f) (buf f) in
  (out, mk (buf f) (cur f + length out)).

(** Bytes between the cursor and the logical end. *)
Definition remaining (f : t) : Z :=
  Z.of_nat (length (buf f)) - Z.of_nat (cur f).

End BytesIO.

(** ** The six [threading.Event] latches of [self._events] *)

Record Events := mkEvents {
  playbackFinishedEvent : bool;
  headerReadyEvent : bool;
  soundFileReadyEvent : bool;
  downloadDoneEvent : bool;
  blockDataAvailable : bool;
  playbackStartFired : bool
}.

Definition all_clear : Events := mkEvents false false false false false false.

Definition put_playbackFinishedEvent (b : bool) (e : Events) : Events :=
  mkEvents b (headerReadyEvent e) (soundFileReadyEvent e)
           (downloadDoneEvent e) (blockDataAvailable e) (playbackStartFired e).
Definition put_headerReadyEvent (b : bool) (e : Events) : Events :=
  mkEvents (playbackFinishedEvent e) b (soundFileReadyEvent e)
           (downloadDoneEvent e) (blockDataAvailable e) (playbackStartFired e).
Definition put_soundFileReadyEvent (b : bool) (e : Events) : Events :=
  mkEvents (playbackFinishedEvent e) (headerReadyEvent e) b
           (downloadDoneEvent e) (blockDataAvailable e) (playbackStartFired e).
Definition put_downloadDoneEvent (b : bool) (e : Events) : Events :=
  mkEvents (playbackFinishedEvent e) (headerReadyEvent e)
           (soundFileReadyEvent e) b (blockDataAvailable e)
           (playbackStartFired e).
Definition put_blockDataAvailable (b : bool) (e : Events) : Events :=
  mkEvents (playbackFinishedEvent e) (headerReadyEvent e)
           (soundFileReadyEvent e) (downloadDoneEvent e) b
           (playbackStartFired e).
Definition put_playbackStartFired (b : bool) (e : Events) : Events :=
  mkEvents (playbackFinishedEvent e) (headerReadyEvent e)
           (soundFileReadyEvent e) (downloadDoneEvent e)
           (blockDataAvailable e) b.

(** ** Exceptions and user callbacks *)

Inductive exn :=
| AssertionError
| LibsndfileError
| AttributeError
| ValueError
| HTTPError
| CallbackStop
| CallbackAbort.

Inductive outcome (A : Type) :=
| Ret (a : A)
| Raise (e : exn).
Arguments Ret {A} a.
Arguments Raise {A} e.

(** The two user callbacks, [self._onPlaybackStart] and
    [self._onPlaybackEnd], and what a session can be seen to do: call
    one of them, or take a block off the queue in the playback callback. *)
Inductive user_callback := OnPlaybackStart | OnPlaybackEnd.

Inductive obs :=
| Fired (c : user_callback)
| Popped (block : bytes).

(** ** The codec

    The [soundfile] package (over libsndfile) is outside the repository.
    It enters as an interface: a handle type and the operations the
    streamer calls on it.  Every operation that touches the byte source
    takes and returns the shared [BytesIO.t], since the handle reads
    through the file object it was opened on.  [None] stands for the
    exception the operation can raise: [LibsndfileError] for [sf_open]
    and [sf_seek], the [AssertionError] of [buffer_read] when libsndfile
    delivers fewer frames than the handle believed were left. *)

Record Codec := mkCodec {
  SoundFile : Type;
  sf_open : BytesIO.t -> option SoundFile * BytesIO.t;
  channels : SoundFile -> nat;
  samplerate : SoundFile -> nat;
  frames : SoundFile -> nat;
  sf_tell : SoundFile -> nat;
  sf_seek : Z -> SoundFile -> BytesIO.t -> option SoundFile * BytesIO.t;
  buffer_read :
    nat -> SoundFile -> BytesIO.t -> option bytes * SoundFile * BytesIO.t
}.

(** [sf._ffi.sizeof] of the C type behind [_defaultDType = "float32"]. *)
Definition sizeof_defaultDType : nat := 4.

(** A codec to run the model on: four header bytes, the first being the
    channel count, then raw frames.  A handle is the channel count, the
    frame count seen when it was opened and the frames consumed. *)
Module Raw.

Record handle := mkHandle { h_channels : nat; h_frames : nat; h_pos : nat }.

Definition header_len : nat := 4.

Definition frame_bytes (h : handle) : nat := h_channels h * sizeof_defaultDType.

Definition nat_of_byte (b : byte) : nat := N.to_nat (Byte.to_N b).

Definition open (f : BytesIO.t) : option handle * BytesIO.t :=
  let '(hd, f1) := BytesIO.read header_len f in
  match hd with
  | c :: _ :: _ :: _ :: [] =>
      if nat_of_byte c =? 0 then (None, f1)
      else
        let body := length (BytesIO.buf f) - BytesIO.cur f1 in
        (Some (mkHandle (nat_of_byte c)
                        (body / (nat_of_byte c * sizeof_defaultDType)) 0),
         f1)
  | _ => (None, f1)
  end.

Definition seek (k : Z) (h : handle) (f : BytesIO.t)
  : option handle * BytesIO.t :=
  if (k <? 0)%Z || (Z.of_nat (h_frames h) <? k)%Z then (None, f)
  else
    (Some (mkHandle (h_channels h) (h_frames h) (Z.to_nat k)),
     BytesIO.seek (header_len + Z.to_nat k * frame_bytes h) f).

(** [_check_frames] clamps the request to the frames the handle believes
    are left; the assertion compares that with what was delivered. *)
Definition read (n : nat) (h : handle) (f : BytesIO.t)
  : option bytes * handle * BytesIO.t :=
  let want := Nat.min n (h_frames h - h_pos h) in
  let '(d, f1) := BytesIO.read (want * frame_bytes h) f in
  let got := length d / frame_bytes h in
  let h1 := mkHandle (h_channels h) (h_frames h) (h_pos h + got) in
  if got =? want then (Some d, h1, f1) else (None, h1, f1).

Definition codec : Codec :=
  mkCodec open h_channels (fun _ => 441 * 100) h_frames h_pos seek read.

End Raw.

(** ** Responses and schedules

    A streamed response is its status and the chunks [iter_content]
    yields; a schedule names the thread that takes each step. *)

Record Response := mkResponse {
  status_ok : bool;           (* what [raise_for_status] looks at *)
  content : list bytes        (* what [iter_content] yields *)
}.

Inductive thread := TDownload | TMain | TDevice.

(** A session to run the model on, with the default tunables: 8196
    bytes in chunks of 4096, 4096 and 4, one channel, hence a header
    and exactly one playback block of 2048 frames. *)
Module Demo.

Definition block_size : nat := default_playbackBlockSize.

Definition chunk1 : bytes := x01 :: repeat x00 4095.
Definition chunk2 : bytes := repeat x00 4096.
Definition chunk3 : bytes := repeat x00 4.

Definition response : Response := mkResponse true [chunk1; chunk2; chunk3].

Definition failing_response : Response := mkResponse false [].

(** [begin_streaming] resets and starts the download thread; the first
    chunk is written; the parser is constructed on it. *)
Definition header_phase : list thread :=
  repeat TMain 2 ++ repeat TDownload 10 ++ repeat TMain 6.

(** The two other chunks arrive. *)
Definition download_rest : list thread :=
  repeat TDownload 14 ++ repeat TDownload 14.

(** The stream is opened and the reader runs up to line 656, having
    evaluated the condition of line 654. *)
Definition read_to_656 : list thread := repeat TMain 6.

(** The iteration ends and the download thread runs lines 562-563. *)
Definition finish_download : list thread := repeat TDownload 3.

(** Lines 656, 660, 498, 500: back at the wait of line 637. *)
Definition clear_and_loop : list thread := repeat TMain 4.

Definition race : list thread :=
  header_phase ++ download_rest ++ read_to_656 ++ finish_download.

(** The same session with the download finishing first: the feed loop
    ends, the device plays the block and stops, [begin_streaming]
    returns. *)
Definition calm : list thread :=
  header_phase ++ download_rest ++ finish_download
  ++ repeat TMain 9                       (* 490, 637-660, 498, 500 *)
  ++ repeat TMain 12                      (* 637-660, 498, 503-515 *)
  ++ repeat TDevice 3                     (* block, stop, finished *)
  ++ repeat TMain 3.                      (* 519, 520, 523 *)

(** The reader drains what two chunks brought before the third has
    come: the block is one frame short of a playback block. *)
Definition pacing : list thread :=
  header_phase ++ repeat TDownload 14
  ++ repeat TMain 8                       (* 490, 637-660 *)
  ++ repeat TMain 5.                      (* 498, 503-508, 517 *)

(** A response whose header is complete only with the third chunk,
    and a schedule on it: two construction attempts fail; the download
    thread, which reached line 531 for the second chunk after
    [headerReadyEvent] had been cleared, never cleared
    [soundFileReadyEvent], so for the third chunk it passes the wait of
    line 533 at once and has run line 552 when [begin_streaming], in
    the [except] branch of its second attempt, is about to run line
    483. *)
Definition slow_header : Response :=
  mkResponse true [[x01]; [x00]; [x00; x00; x05; x06; x07; x08]].

Definition up_to_552 : list thread :=
  repeat TMain 2                          (* 462, 469 *)
  ++ repeat TDownload 10                  (* 527-549, first chunk *)
  ++ repeat TMain 8                       (* 473-477 fails, 483-488 *)
  ++ repeat TDownload 9                   (* 530-549, second chunk *)
  ++ repeat TMain 3                       (* 473-477 fails again *)
  ++ repeat TDownload 8.                  (* 530-552, third chunk *)

(** Line 483, then lines 553-557 and the release of the lock. *)
Definition seek_then_write : list thread := TMain :: repeat TDownload 5.

(** [begin_streaming] is about to construct the parser. *)
Definition to_477 : list thread :=
  repeat TMain 2 ++ repeat TDownload 10 ++ repeat TMain 2.

(** One chunk with a parsed header of one channel; no block announced. *)
Definition parsed : Events := mkEvents false true true false false false.

End Demo.

(** A codec that recognises no format: what libsndfile is to a stream
    in a format it was built without.  Opening fails whatever the
    buffer holds, so no handle ever exists. *)
Module Unsupported.

Definition open (f : BytesIO.t) : option unit * BytesIO.t := (None, f).

Definition codec : Codec :=
  mkCodec open (fun _ => 0) (fun _ => 0) (fun _ => 0) (fun _ => 0)
          (fun _ _ f => (None, f)) (fun _ h f => (None, h, f)).

End Unsupported.

(** * The REST layer: [ElevenLabsVoice] and its subclasses (lines 26-430)

    The methods of the three voice classes talk to the API through the
    helpers [_api_get], [_api_json], [_api_del] and [_api_multipart],
    through [requests] and through [open]; none of these is in the
    repository.  Each such call is an entry in a log of requests, and a
    server, a function of the log so far and of the request, says
    what the call returns or that it raised.  No method of these
    classes catches an exception, so whatever a call raises leaves the
    method.

    The values the methods pass around come out of [response.json()]
    and are not typed: they are modelled as Python values, with the
    [TypeError] and [KeyError] a subscript, a comparison or a [+]
    raises on the wrong kind of value. *)

Module Voice.

Import Ascii String.
Local Open Scope string_scope.

(** The module-level tunables (lines 24-25) and the only function that
    assigns them. *)
Record Tunables := mkTunables {
  _playbackBlockSize : nat;
  _downloadChunkSize : nat
}.

Definition edit_stream_settings (playbackBlockSize downloadChunkSize : option nat)
  (t : Tunables) : Tunables :=
  let t1 :=
    match playbackBlockSize with
    | Some b => mkTunables b (_downloadChunkSize t)
    | None => t
    end in
  match downloadChunkSize with
  | Some c => mkTunables (_playbackBlockSize t1) c
  | None => t1
  end.

Section Rest.

(** Numbers, with Python's [<=] on them; a [bool] is the number it
    equals.  Nothing is assumed of the comparison. *)
Variable num : Type.
Variables zero one : num.
Variable leb : num -> num -> bool.

#[warnings="-register-all"] Inductive pyval :=
| PNone
| PNum (x : num)
| PStr (s : string)
| PBytes (b : bytes)
| PList (l : list pyval)
| PDict (d : list (string * pyval)).    (* items, in insertion order *)

Inductive error :=
| ValueError
| RuntimeError
| TypeError
| KeyError
| Raised.            (* whatever a helper, [requests] or [open] raised *)

Inductive result (A : Type) :=
| Ok (a : A)
| Err (e : error).
Arguments Ok {A} a.
Arguments Err {A} e.

(** ** Python on these values *)

Fixpoint lookup {A : Type} (key : string) (d : list (string * A)) : option A :=
  match d with
  | [] => None
  | (k, v) :: d' => if String.eqb k key then Some v else lookup key d'
  end.

(** [d[key] = v] on a dict: an existing key keeps its place. *)
Fixpoint setitem {A : Type} (key : string) (v : A) (d : list (string * A))
  : list (string * A) :=
  match d with
  | [] => [(key, v)]
  | (k, x) :: d' =>
      if String.eqb k key then (k, v) :: d' else (k, x) :: setitem key v d'
  end.

(** [v[key]]. *)
Definition subscript (v : pyval) (key : string) : result pyval :=
  match v with
  | PDict d =>
      match lookup key d with
      | Some x => Ok x
      | None => Err KeyError
      end
  | _ => Err TypeError
  end.

Definition is_None (v : pyval) : bool :=
  match v with PNone => true | _ => false end.

(** [0 <= x <= 1] on a number. *)
Definition in_range (x : num) : bool := leb zero x && leb x one.

(** [0 <= v <= 1]. *)
Definition in_unit (v : pyval) : result bool :=
  match v with
  | PNum x => Ok (in_range x)
  | _ => Err TypeError
  end.

(** [s + v] for a [str] [s]. *)
Definition str_add (s : string) (v : pyval) : result string :=
  match v with
  | PStr s' => Ok (s ++ s')
  | _ => Err TypeError
  end.

(** [v == s] for a [str] [s]. *)
Definition eq_str (v : pyval) (s : string) : bool :=
  match v with
  | PStr s' => String.eqb s' s
  | _ => false
  end.

(** A keyword argument of type [Optional[float]]. *)
Definition of_arg (a : option num) : pyval :=
  match a with
  | Some x => PNum x
  | None => PNone
  end.

(** [list(s)] for a [str]: its characters. *)
Fixpoint chars (s : string) : list string :=
  match s with
  | EmptyString => []
  | String c s' => String c EmptyString :: chars s'
  end.

Definition backslash : ascii := "092"%char.

(** [c in s]. *)
Fixpoint contains (c : ascii) (s : string) : bool :=
  match s with
  | EmptyString => false
  | String a s' => Ascii.eqb a c || contains c s'
  end.

(** [s.rindex(c)] when [c in s]. *)
Fixpoint rindex (c : ascii) (s : string) : option nat :=
  match s with
  | EmptyString => None
  | String a s' =>
      match rindex c s' with
      | Some i => Some (S i)
      | None => if Ascii.eqb a c then Some 0 else None
      end
  end.

(** [s[n:]]. *)
Fixpoint drop (n : nat) (s : string) : string :=
  match n, s with
  | 0, _ => s
  | S n', String _ s' => drop n' s'
  | S _, EmptyString => EmptyString
  end.

(** Lines 401-404 of [add_samples_by_path]. *)
Definition fileName_of (samplePath : string) : result string :=
  if contains backslash samplePath then
    match rindex backslash samplePath with
    | Some i => Ok (drop (i + 1) samplePath)
    | None => Err ValueError          (* what [rindex] raises *)
    end
  else Ok samplePath.

(** ** Calls that leave the process *)

Inductive request :=
| api_get (path : string) (headers : pyval)
| api_json (path : string) (headers : pyval) (jsonData : pyval)
| api_del (path : string) (headers : pyval)
| api_multipart (path : string) (headers : pyval) (data : pyval)
                (filesData : option (list (string * (string * bytes))))
| requests_get (url : pyval)
| open_rb (path : string).

(** What the code reads off what a call returns: [response.json()]
    ([None]: the body is no JSON document), [response.content], or the
    bytes [read()] from a file. *)
Record Reply := mkReply {
  json : option pyval;
  content : bytes
}.

(** [None]: the call raised. *)
Definition Server := list request -> request -> option Reply.

Definition M (A : Type) : Type :=
  Server -> list request -> result A * list request.

Definition ret {A : Type} (a : A) : M A := fun _ log => (Ok a, log).

Definition raise {A : Type} (e : error) : M A := fun _ log => (Err e, log).

Definition bind {A B : Type} (m : M A) (k : A -> M B) : M B :=
  fun srv log =>
    match m srv log with
    | (Ok a, log') => k a srv log'
    | (Err e, log') => (Err e, log')
    end.

Definition lift {A : Type} (r : result A) : M A := fun _ log => (r, log).

Definition call (rq : request) : M Reply :=
  fun srv log =>
    match srv log rq with
    | Some r => (Ok r, (log ++ [rq])%list)
    | None => (Err Raised, (log ++ [rq])%list)
    end.

(** [response.json()]. *)
Definition json_of (r : Reply) : M pyval :=
  match json r with
  | Some v => ret v
  | None => raise Raised
  end.

Notation "x <- m ;; k" := (bind m (fun x => k))
  (at level 61, m at next level, right associativity).

(** ** The voice objects *)

Inductive class :=
| ElevenLabsVoice
| ElevenLabsDesignedVoice
| ElevenLabsClonedVoice.

(** [ElevenLabsUser] is outside the repository; the voices only read
    its [headers]. *)
Record User := mkUser { headers : pyval }.

Record voice := mkVoice {
  class_of : class;
  _linkedUser : User;
  initialName : pyval;
  _voiceID : pyval;
  _category : pyval
}.

(** [__init__] (lines 73-87); the subclasses only call it. *)
Definition init (c : class) (voiceData : pyval) (linkedUser : User)
  : result voice :=
  match subscript voiceData "name" with
  | Err e => Err e
  | Ok name =>
    match subscript voiceData "voice_id" with
    | Err e => Err e
    | Ok voice_id =>
      match subscript voiceData "category" with
      | Err e => Err e
      | Ok category => Ok (mkVoice c linkedUser name voice_id category)
      end
    end
  end.

(** [voiceFactory] (lines 53-71). *)
Definition voiceFactory (voiceData : pyval) (linkedUser : User)
  : result voice :=
  match subscript voiceData "category" with
  | Err e => Err e
  | Ok category =>
    if eq_str category "premade" then
      init ElevenLabsVoice voiceData linkedUser
    else if eq_str category "cloned" then
      init ElevenLabsClonedVoice voiceData linkedUser
    else if eq_str category "generated" then
      init ElevenLabsDesignedVoice voiceData linkedUser
    else
      match category with
      | PStr _ => Err ValueError
      | _ => Err TypeError       (* [+] of a non-[str] and a [str] *)
      end
  end.

(** [delete_voice] and [edit_voice] are methods of
    [ElevenLabsDesignedVoice], the sample methods of
    [ElevenLabsClonedVoice]. *)
Definition is_designed (c : class) : bool :=
  match c with ElevenLabsVoice => false | _ => true end.

Definition is_cloned (c : class) : bool :=
  match c with ElevenLabsClonedVoice => true | _ => false end.

(** ["/voices/" + self._voiceID + suffix]. *)
Definition voice_path (prefix : string) (v : voice) (suffix : string)
  : M string :=
  p <- lift (str_add prefix (_voiceID v)) ;;
  ret (p ++ suffix).

(** [get_settings] (lines 89-95). *)
Definition get_settings (v : voice) : M pyval :=
  path <- voice_path "/voices/" v "/settings" ;;
  response <- call (api_get path (headers (_linkedUser v))) ;;
  json_of response.

(** [get_info] (lines 96-107). *)
Definition get_info (v : voice) : M pyval :=
  path <- lift (str_add "/voices/" (_voiceID v)) ;;
  response <- call (api_get path (headers (_linkedUser v))) ;;
  json_of response.

Definition get_name (v : voice) : M pyval :=
  info <- get_info v ;; lift (subscript info "name").

Definition get_description (v : voice) : M pyval :=
  info <- get_info v ;; lift (subscript info "description").

Definition get_preview_url (v : voice) : M pyval :=
  info <- get_info v ;; lift (subscript info "preview_url").

(** [not (0 <= a <= 1 and 0 <= b <= 1)]: [and] does not evaluate its
    second operand when the first is false. *)
Definition out_of_range (a b : pyval) : M bool :=
  ca <- lift (in_unit a) ;;
  if ca then cb <- lift (in_unit b) ;; ret (negb cb)
  else ret true.

(** The payloads [_generate_payload] can return: without
    ["voice_settings"] when neither value is given, with two numbers
    between 0 and 1 otherwise. *)
Definition payload_ok (prompt model_id : string)
  (stability similarity_boost : option num) (p : pyval) : Prop :=
  (stability = None /\ similarity_boost = None
   /\ p = PDict [("text", PStr prompt); ("model_id", PStr model_id)])
  \/ exists s b,
       (stability <> None \/ similarity_boost <> None)
       /\ p = PDict [("text", PStr prompt); ("model_id", PStr model_id);
                     ("voice_settings",
                      PDict [("stability", PNum s);
                             ("similarity_boost", PNum b)])]
       /\ in_range s = true
       /\ in_range b = true
       /\ (forall x, stability = Some x -> s = x)
       /\ (forall x, similarity_boost = Some x -> b = x).

(** [edit_settings] (lines 123-145).  Line 140 assigns [stability]. *)
Definition edit_settings (v : voice) (stability similarity_boost : option num)
  : M unit :=
  let stability := of_arg stability in
  let similarity_boost := of_arg similarity_boost in
  stability <-
    (if is_None stability || is_None similarity_boost then
       oldSettings <- get_settings v ;;
       stability <-
         (if is_None stability then lift (subscript oldSettings "stability")
          else ret stability) ;;
       if is_None similarity_boost
       then lift (subscript oldSettings "similarity_boost")
       else ret stability
     else ret stability) ;;
  bad <- out_of_range stability similarity_boost ;;
  if bad then raise ValueError
  else
    let payload :=
      PDict [("stability", stability); ("similarity_boost", similarity_boost)]
    in
    path <- voice_path "/voices/" v "/settings/edit" ;;
    _ <- call (api_json path (headers (_linkedUser v)) payload) ;;
    ret tt.

(** [_generate_payload] (lines 147-169). *)
Definition _generate_payload (v : voice) (prompt : string)
  (stability similarity_boost : option num) (model_id : string) : M pyval :=
  let payload := [("text", PStr prompt); ("model_id", PStr model_id)] in
  let stability := of_arg stability in
  let similarity_boost := of_arg similarity_boost in
  if negb (is_None stability) || negb (is_None similarity_boost) then
    currentSettings <- get_settings v ;;
    stability <-
      (if is_None stability then lift (subscript currentSettings "stability")
       else ret stability) ;;
    similarity_boost <-
      (if is_None similarity_boost
       then lift (subscript currentSettings "similarity_boost")
       else ret similarity_boost) ;;
    bad <- out_of_range stability similarity_boost ;;
    if bad then raise ValueError
    else
      ret (PDict (payload ++
                  [("voice_settings",
                    PDict [("stability", stability);
                           ("similarity_boost", similarity_boost)])])%list)
  else ret (PDict payload).

(** [generate_audio_bytes] (lines 171-191). *)
Definition generate_audio_bytes (v : voice) (prompt : string)
  (stability similarity_boost : option num) (model_id : string) : M bytes :=
  payload <- _generate_payload v prompt stability similarity_boost model_id ;;
  path <- voice_path "/text-to-speech/" v "/stream" ;;
  response <- call (api_json path (headers (_linkedUser v)) payload) ;;
  ret (content response).

(** [get_preview_bytes] (lines 266-279). *)
Definition get_preview_bytes (v : voice) : M bytes :=
  previewURL <- get_preview_url v ;;
  if is_None previewURL then raise RuntimeError
  else
    response <- call (requests_get previewURL) ;;
    ret (content response).

(** [edit_voice] (lines 341-364); [newLabels] is a [dict[str, str]]. *)
Definition edit_voice (v : voice) (newName : option string)
  (newLabels : option (list (string * string))) (description : option string)
  : M unit :=
  currentInfo <- get_info v ;;
  name <- lift (subscript currentInfo "name") ;;
  labels <- lift (subscript currentInfo "labels") ;;
  descr <- lift (subscript currentInfo "description") ;;
  let name := match newName with Some n => PStr n | None => name end in
  labels <-
    match newLabels with
    | Some l =>
        if (5 <? List.length l)%nat then raise ValueError
        else ret (PDict (map (fun kv => (fst kv, PStr (snd kv))) l))
    | None => ret labels
    end ;;
  let descr := match description with Some d => PStr d | None => descr end in
  let payload :=
    PDict [("name", name); ("labels", labels); ("description", descr)] in
  path <- voice_path "/voices/" v "/edit" ;;
  _ <- call (api_multipart path (headers (_linkedUser v)) payload None) ;;
  ret tt.

(** [delete_voice] (lines 365-372): the object as the call leaves it. *)
Definition delete_voice (v : voice) : M voice :=
  if eq_str (_category v) "premade" then raise RuntimeError
  else
    path <- lift (str_add "/voices/" (_voiceID v)) ;;
    _ <- call (api_del path (headers (_linkedUser v))) ;;
    ret (mkVoice (class_of v) (_linkedUser v) (initialName v)
                 (PStr EmptyString) (_category v)).

(** The files named by [sampleBytes]: distinct names, each derived
    from one of the paths. *)
Definition names_ok (paths : list string) (d : list (string * bytes)) : Prop :=
  NoDup (map fst d)
  /\ forall k, In k (map fst d) ->
               contains backslash k = false
               /\ exists p, In p paths /\ fileName_of p = Ok k.

(** [add_samples_bytes] (lines 411-430); [samples] is a
    [dict[str, bytes]]. *)
Definition add_samples_bytes (v : voice) (samples : list (string * bytes))
  : M unit :=
  if (List.length samples =? 0)%nat then raise ValueError
  else
    name <- get_name v ;;
    let payload := PDict [("name", name)] in
    let files := map (fun kv => ("files", (fst kv, snd kv))) samples in
    path <- voice_path "/voices/" v "/edit" ;;
    _ <- call (api_multipart path (headers (_linkedUser v)) payload
                             (Some files)) ;;
    ret tt.

(** The loop of lines 399-405. *)
Fixpoint read_samples (samples : list string)
  (sampleBytes : list (string * bytes)) : M (list (string * bytes)) :=
  match samples with
  | [] => ret sampleBytes
  | samplePath :: rest =>
      fileName <- lift (fileName_of samplePath) ;;
      file <- call (open_rb samplePath) ;;
      read_samples rest (setitem fileName (content file) sampleBytes)
  end.

(** [add_samples_by_path] (lines 387-408): the argument is a list of
    paths or one [str]. *)
Definition add_samples_by_path (v : voice) (samples : list string + string)
  : M unit :=
  let samples :=
    match samples with
    | inl l => l
    | inr s => chars s
    end in
  sampleBytes <- read_samples samples [] ;;
  add_samples_bytes v sampleBytes.

(** ** What a run of a method did *)

Definition is_api_json (rq : request) : bool :=
  match rq with api_json _ _ _ => true | _ => false end.

Definition is_api_multipart (rq : request) : bool :=
  match rq with api_multipart _ _ _ _ => true | _ => false end.

Definition is_api_del (rq : request) : bool :=
  match rq with api_del _ _ => true | _ => false end.

Definition is_api_get (rq : request) : bool :=
  match rq with api_get _ _ => true | _ => false end.

Definition is_open (rq : request) : bool :=
  match rq with open_rb _ => true | _ => false end.

Definition is_Err {A : Type} (r : result A) : bool :=
  match r with Err _ => true | Ok _ => false end.

End Rest.

Arguments Ok {A} a.
Arguments Err {A} e.
Arguments PNone {num}.
Arguments PStr {num} s.
Arguments PBytes {num} b.
Arguments open_rb {num} path.

End Voice.

(** A voice and a server to run the methods on; numbers are the
    rationals. *)
Module VoiceDemo.

Import Ascii String Voice QArith_base.
Local Open Scope string_scope.

Definition rachel : voice Q :=
  mkVoice ElevenLabsDesignedVoice (mkUser (PDict [("xi-api-key", PStr "k")]))
          (PStr "Rachel") (PStr "v1") (PStr "generated").

(** A server that answers every request for settings and every request
    for a voice's metadata, and accepts everything else. *)
Definition server : Server Q :=
  fun _ rq =>
    match rq with
    | api_get path _ =>
        if String.eqb path "/voices/v1/settings" then
          Some (mkReply
                  (Some (PDict [("stability", PNum (1 # 4));
                                ("similarity_boost", PNum (3 # 4))]))
                  [])
        else
          Some (mkReply
                  (Some (PDict [("name", PStr "Rachel");
                                ("labels", PDict []);
                                ("description", PNone);
                                ("preview_url", PNone)]))
                  [])
    | _ => Some (mkReply None [x01; x02])
    end.

End VoiceDemo.

(** ** The streamer object and its methods *)

Section Pipeline.

Variable C : Codec.

(** [_playbackBlockSize]: a module global, changed only through
    [edit_stream_settings], fixed for the length of a session. *)
Variable _playbackBlockSize : nat.

Record Streamer := mkStreamer {
  _q : list bytes;                      (* queue.Queue, head = next get *)
  _bytesFile : BytesIO.t;
  _bytesSoundFile : option (SoundFile C);
  _frameSize : nat;
  _events : Events;
  trace : list obs                      (* history, oldest first *)
}.

Definition put_q (q : list bytes) (s : Streamer) : Streamer :=
  mkStreamer q (_bytesFile s) (_bytesSoundFile s) (_frameSize s)
             (_events s) (trace s).
Definition put_bytesFile (f : BytesIO.t) (s : Streamer) : Streamer :=
  mkStreamer (_q s) f (_bytesSoundFile s) (_frameSize s)
             (_events s) (trace s).
Definition put_bytesSoundFile (h : option (SoundFile C)) (s : Streamer)
  : Streamer :=
  mkStreamer (_q s) (_bytesFile s) h (_frameSize s) (_events s) (trace s).
Definition put_frameSize (n : nat) (s : Streamer) : Streamer :=
  mkStreamer (_q s) (_bytesFile s) (_bytesSoundFile s) n
             (_events s) (trace s).
Definition put_events (e : Events) (s : Streamer) : Streamer :=
  mkStreamer (_q s) (_bytesFile s) (_bytesSoundFile s) (_frameSize s)
             e (trace s).
Definition note (o : obs) (s : Streamer) : Streamer :=
  mkStreamer (_q s) (_bytesFile s) (_bytesSoundFile s) (_frameSize s)
             (_events s) (trace s ++ [o]).
Definition fire (c : user_callback) (s : Streamer) : Streamer :=
  note (Fired c) s.

(** [__init__] (lines 437-458). *)
Definition init : Streamer :=
  mkStreamer [] BytesIO.empty None 0 all_clear [].

(** The reset at the head of [begin_streaming] (lines 462-466). *)
Definition reset (s : Streamer) : Streamer :=
  mkStreamer [] BytesIO.empty None (_frameSize s) all_clear (trace s).

(** *** The download thread: the critical section of one chunk
    (lines 543-559). *)
Definition downloader_write (chunk : bytes) (s : Streamer) : Streamer :=
  let f := _bytesFile s in
  if negb (headerReadyEvent (_events s)) then
    let f1 := BytesIO.seek_end f in
    let f2 := BytesIO.write chunk f1 in
    let f3 := BytesIO.seek 0 f2 in
    put_events (put_headerReadyEvent true (_events s)) (put_bytesFile f3 s)
  else
    let lastReadPos := BytesIO.tell f in
    let f1 := BytesIO.seek_end f in
    let f2 := BytesIO.write chunk f1 in
    let endPos := BytesIO.tell f2 in
    let f3 := BytesIO.seek lastReadPos f2 in
    let s1 := put_bytesFile f3 s in
    if (Z.of_nat _playbackBlockSize <? Z.of_nat endPos - Z.of_nat lastReadPos)%Z
    then put_events (put_blockDataAvailable true (_events s1)) s1
    else s1.

(** The end of the download (lines 562-563). *)
Definition downloader_finish (s : Streamer) : Streamer :=
  put_events
    (put_blockDataAvailable true (put_downloadDoneEvent true (_events s))) s.

(** *** One turn of the header loop once [headerReadyEvent.wait()] has
    returned (lines 475-488): [true] is the [break]. *)
Definition construct_attempt (s : Streamer) : bool * Streamer :=
  match sf_open C (_bytesFile s) with
  | (Some h, f1) =>
      let s1 := put_bytesSoundFile (Some h) (put_bytesFile f1 s) in
      let s2 := put_frameSize (channels C h * sizeof_defaultDType) s1 in
      (true, put_events (put_soundFileReadyEvent true (_events s2)) s2)
  | (None, f1) =>
      let f2 := BytesIO.seek 0 f1 in
      let '(dataBytes, f3) := BytesIO.read_all f2 in
      let f4 := BytesIO.seek 0 f3 in
      let s1 := put_bytesFile f4 s in
      let s2 := put_events (put_headerReadyEvent false (_events s1)) s1 in
      (false, put_events (put_soundFileReadyEvent true (_events s2)) s2)
  end.

(** *** [_soundFile_read_and_fix] (lines 615-634), called with the lock
    held.  The division of line 627 is only reached when
    [len(readData) < dataToRead * self._frameSize], hence with a
    non-zero frame size. *)
Definition _soundFile_read_and_fix (dataToRead : nat) (s : Streamer)
  : outcome bytes * Streamer :=
  match _bytesSoundFile s with
  | None => (Raise AttributeError, s)
  | Some old =>
    match buffer_read C dataToRead old (_bytesFile s) with
    | (None, old1, f1) =>
        (Raise AssertionError,
         put_bytesSoundFile (Some old1) (put_bytesFile f1 s))
    | (Some readData, old1, f1) =>
        let s1 := put_bytesSoundFile (Some old1) (put_bytesFile f1 s) in
        if length readData <? dataToRead * _frameSize s then
          let curPos := BytesIO.tell f1 in
          let f2 := BytesIO.seek_end f1 in
          let endPos := BytesIO.tell f2 in
          if negb (curPos =? endPos) then
            let f3 := BytesIO.seek 0 f2 in
            match sf_open C f3 with
            | (None, f4) => (Raise LibsndfileError, put_bytesFile f4 s1)
            | (Some newSF, f4) =>
              let target :=
                (Z.of_nat (sf_tell C old1)
                 - Z.of_nat (length readData / _frameSize s))%Z in
              match sf_seek C target newSF f4 with
              | (None, f5) => (Raise LibsndfileError, put_bytesFile f5 s1)
              | (Some newSF1, f5) =>
                if frames C old1 <? frames C newSF1 then
                  match buffer_read C dataToRead newSF1 f5 with
                  | (None, newSF2, f6) =>
                      (Raise AssertionError,
                       put_bytesSoundFile (Some newSF2) (put_bytesFile f6 s1))
                  | (Some readData2, newSF2, f6) =>
                      (Ret readData2,
                       put_bytesSoundFile (Some newSF2) (put_bytesFile f6 s1))
                  end
                else (Ret readData, put_bytesFile f5 s1)
              end
            end
          else (Ret readData, put_bytesFile f2 s1)
        else (Ret readData, s1)
    end
  end.

(** Lines 647-656 of [_get_data_from_download_thread]: measure what is
    left past the cursor, put the cursor back, and clear
    [blockDataAvailable] when less than [_playbackBlockSize] is left and
    the download is not over. *)
Definition mark_available (s : Streamer) : Streamer :=
  let f := _bytesFile s in
  let currentPos := BytesIO.tell f in
  let f1 := BytesIO.seek_end f in
  let endPos := BytesIO.tell f1 in
  let f2 := BytesIO.seek currentPos f1 in
  let remainingBytes := (Z.of_nat endPos - Z.of_nat currentPos)%Z in
  let s1 := put_bytesFile f2 s in
  if (remainingBytes <? Z.of_nat _playbackBlockSize)%Z
     && negb (downloadDoneEvent (_events s1))
  then put_events (put_blockDataAvailable false (_events s1)) s1
  else s1.

(** *** [_get_data_from_download_thread] (lines 636-661) once
    [blockDataAvailable.wait()] has returned.  Only [AssertionError] is
    caught; any other exception leaves the method. *)
Definition _get_data_from_download_thread (s : Streamer)
  : outcome bytes * Streamer :=
  match _soundFile_read_and_fix _playbackBlockSize s with
  | (Ret readData, s1) => (Ret readData, mark_available s1)
  | (Raise AssertionError, s1) => (Ret [], mark_available s1)
  | (Raise e, s1) => (Raise e, s1)
  end.

(** *** One turn of the feed loop on the block [data] (lines 498-517). *)
Inductive feed_outcome :=
| Enqueued          (* line 500, the loop goes on *)
| EndOfStream       (* line 515, [break] *)
| LoggedCritical.   (* line 517, the loop goes on *)

Definition loop_goes_on (o : feed_outcome) : bool :=
  match o with
  | EndOfStream => false
  | Enqueued | LoggedCritical => true
  end.

Definition feed_iteration (data : bytes) (s : Streamer)
  : feed_outcome * Streamer :=
  if length data =? _playbackBlockSize * _frameSize s then
    (Enqueued, put_q (_q s ++ [data]) s)
  else
    let f := _bytesFile s in
    let curPos := BytesIO.tell f in
    let f1 := BytesIO.seek_end f in
    let endPos := BytesIO.tell f1 in
    let s1 := put_bytesFile (BytesIO.seek curPos f1) s in
    if (endPos =? curPos) && downloadDoneEvent (_events s1) then
      (EndOfStream,
       match data with
       | [] => s1
       | _ :: _ => put_q (_q s1 ++ [data]) s1
       end)
    else (LoggedCritical, s1).

(** The feed loop (lines 496-517): read, handle, repeat.  [fuel] bounds
    the number of turns; [None] is fuel exhausted. *)
Fixpoint feed_loop (fuel : nat) (s : Streamer)
  : option (outcome unit * Streamer) :=
  match fuel with
  | 0 => None
  | S fuel' =>
    match _get_data_from_download_thread s with
    | (Raise e, s1) => Some (Raise e, s1)
    | (Ret data, s1) =>
      match feed_iteration data s1 with
      | (EndOfStream, s2) => Some (Ret tt, s2)
      | (_, s2) => feed_loop fuel' s2
      end
    end
  end.

(** *** The playback callback (lines 566-613). *)

(** The [get_nowait] loop of lines 569-583: empty items are skipped
    while the download is not over.  [None] is [queue.Empty]. *)
Fixpoint pop_block (done : bool) (q : list bytes)
  : option bytes * list bytes :=
  match q with
  | [] => (None, [])
  | readData :: q' =>
      if (length readData =? 0) && negb done then pop_block done q'
      else (Some readData, q')
  end.

(** [outdata[i:j] = src] on a buffer: the sizes must agree. *)
Definition slice_assign (i j : nat) (src outdata : bytes) : option bytes :=
  if length src =? Nat.min j (length outdata) - i
  then Some (firstn i outdata ++ src ++ skipn (Nat.max i j) outdata)
  else None.

Definition _stream_playback_callback (outdata : bytes) (frames : nat)
  (s : Streamer) : outcome bytes * Streamer :=
  if negb (frames =? _playbackBlockSize) then (Raise AssertionError, s)
  else
    let done := downloadDoneEvent (_events s) in
    match pop_block done (_q s) with
    | (None, q') =>
        (Raise (if done then CallbackStop else CallbackAbort), put_q q' s)
    | (Some readData, q') =>
        let s1 := note (Popped readData) (put_q q' s) in
        let s2 :=
          if negb (playbackStartFired (_events s1)) then
            fire OnPlaybackStart
                 (put_events (put_playbackStartFired true (_events s1)) s1)
          else s1 in
        let L := length readData in
        let B := length outdata in
        if (0 <? L) && (L <? B) then
          match slice_assign 0 L readData outdata with
          | None => (Raise ValueError, s2)
          | Some o1 =>
            match slice_assign L B (repeat x00 (B - L)) o1 with
            | None => (Raise ValueError, s2)
            | Some o2 => (Ret o2, s2)
            end
          end
        else if L =? 0 then
          let f := _bytesFile s2 in
          let oldPos := BytesIO.tell f in
          let f1 := BytesIO.seek_end f in
          let endPos := BytesIO.tell f1 in
          let s3 := put_bytesFile f1 s2 in
          if (oldPos =? endPos) && downloadDoneEvent (_events s3) then
            (Raise CallbackStop, s3)
          else
            match slice_assign L B (repeat x00 (B - L)) outdata with
            | None => (Raise ValueError, s3)
            | Some o1 => (Ret o1, s3)
            end
        else
          match slice_assign 0 B readData outdata with
          | None => (Raise ValueError, s2)
          | Some o1 => (Ret o1, s2)
          end
    end.

(** ** The session as interleaved threads

    Three actors share one streamer object: the download thread running
    [_stream_downloader_function], the thread running [begin_streaming],
    and the audio device, which calls [_stream_playback_callback] and,
    once the stream has stopped, the finished callback.  A program
    point is named after the source line it is about to execute.  One
    step is one statement, with these groupings: a run of statements
    made under [_bytesLock] that touches only the file and the codec
    handle is one step when no code outside the lock can touch the file
    at that point (lines 477, 640, 647-652, 505-507); leaving a [with]
    block by an exception is part of the raising step; one call of the
    playback callback is one step.  The download thread's critical
    section is kept statement by statement, because the [except] branch
    of the header loop (lines 483-488) runs without the lock. *)

Inductive dpc :=
| D_idle
| D527 | D530 | D531 | D533 | D534 | D536 | D543 | D544
| D546 | D547 | D548 | D549
| D551 | D552 | D553 | D554 | D555 | D557 | D559
| D_release
| D562 | D563
| D_done
| D_raised (e : exn).

Inductive mpc :=
| M462 | M469 | M473 | M476 | M477 | M479 | M480 | M481
| M483 | M484 | M485 | M487 | M488
| M490
| M637 | M638 | M640 | M647 | M654 | M656 | M660
| M498 | M500 | M503 | M505 | M508 | M510 | M515 | M517
| M519 | M520 | M523
| M_done
| M_raised (e : exn).

Inductive dev_state :=
| Dev_closed        (* no stream yet, or the stream was closed *)
| Dev_active        (* the device keeps calling the playback callback *)
| Dev_stopping      (* the callback raised; the finished callback is due *)
| Dev_finished.

Record DThread := mkD {
  d_pc : dpc;
  d_ok : bool;                (* the status of the response *)
  d_rest : list bytes;        (* chunks still to come *)
  d_chunk : bytes;
  d_lastReadPos : nat;
  d_endPos : nat
}.

Record MThread := mkM {
  m_pc : mpc;
  m_data : bytes;             (* [readData] in the reader, [data] in the loop *)
  m_remainingBytes : Z;
  m_curPos : nat;
  m_endPos : nat;
  m_criticals : nat           (* calls of [logging.critical] *)
}.

Record World := mkWorld {
  obj : Streamer;
  lock : option thread;       (* who holds [_bytesLock] *)
  dl : DThread;
  mn : MThread;
  dev : dev_state
}.

Definition on_obj (g : Streamer -> Streamer) (w : World) : World :=
  mkWorld (g (obj w)) (lock w) (dl w) (mn w) (dev w).
Definition on_file (g : BytesIO.t -> BytesIO.t) (w : World) : World :=
  on_obj (fun s => put_bytesFile (g (_bytesFile s)) s) w.
Definition on_events (g : Events -> Events) (w : World) : World :=
  on_obj (fun s => put_events (g (_events s)) s) w.
Definition put_lock (l : option thread) (w : World) : World :=
  mkWorld (obj w) l (dl w) (mn w) (dev w).
Definition put_dev (d : dev_state) (w : World) : World :=
  mkWorld (obj w) (lock w) (dl w) (mn w) d.
Definition on_dl (g : DThread -> DThread) (w : World) : World :=
  mkWorld (obj w) (lock w) (g (dl w)) (mn w) (dev w).
Definition on_mn (g : MThread -> MThread) (w : World) : World :=
  mkWorld (obj w) (lock w) (dl w) (g (mn w)) (dev w).

Definition d_at (pc : dpc) (w : World) : World :=
  on_dl (fun d => mkD pc (d_ok d) (d_rest d) (d_chunk d)
                      (d_lastReadPos d) (d_endPos d)) w.
Definition m_at (pc : mpc) (w : World) : World :=
  on_mn (fun m => mkM pc (m_data m) (m_remainingBytes m) (m_curPos m)
                      (m_endPos m) (m_criticals m)) w.
Definition m_put_data (b : bytes) (w : World) : World :=
  on_mn (fun m => mkM (m_pc m) b (m_remainingBytes m) (m_curPos m)
                      (m_endPos m) (m_criticals m)) w.

Definition ev (w : World) : Events := _events (obj w).
Definition file (w : World) : BytesIO.t := _bytesFile (obj w).

(** The world in which [begin_streaming] is entered on a new streamer. *)
Definition start (r : Response) : World :=
  mkWorld init None
          (mkD D_idle (status_ok r) (content r) [] 0 0)
          (mkM M462 [] 0%Z 0 0 0)
          Dev_closed.

(** *** [_stream_downloader_function], statement by statement *)
Definition d_step (w : World) : option World :=
  let d := dl w in
  match d_pc d with
  | D_idle => None
  | D527 =>
      Some (d_at (if d_ok d then D530 else D_raised HTTPError) w)
  | D530 =>
      match d_rest d with
      | [] => Some (d_at D562 w)
      | chunk :: rest =>
          Some (on_dl (fun d => mkD D531 (d_ok d) rest chunk
                                    (d_lastReadPos d) (d_endPos d)) w)
      end
  | D531 =>
      Some (d_at (if headerReadyEvent (ev w) then D533 else D543) w)
  | D533 =>
      if soundFileReadyEvent (ev w) then Some (d_at D534 w) else None
  | D534 =>
      Some (d_at (if negb (headerReadyEvent (ev w)) then D536 else D543) w)
  | D536 =>
      Some (d_at D543 (on_events (put_soundFileReadyEvent false) w))
  | D543 =>
      match lock w with
      | None => Some (d_at D544 (put_lock (Some TDownload) w))
      | Some _ => None
      end
  | D544 =>
      Some (d_at (if negb (headerReadyEvent (ev w)) then D546 else D551) w)
  | D546 => Some (d_at D547 (on_file BytesIO.seek_end w))
  | D547 => Some (d_at D548 (on_file (BytesIO.write (d_chunk d)) w))
  | D548 => Some (d_at D549 (on_file (BytesIO.seek 0) w))
  | D549 => Some (d_at D_release (on_events (put_headerReadyEvent true) w))
  | D551 =>
      Some (on_dl (fun d => mkD D552 (d_ok d) (d_rest d) (d_chunk d)
                                (BytesIO.tell (file w)) (d_endPos d)) w)
  | D552 => Some (d_at D553 (on_file BytesIO.seek_end w))
  | D553 => Some (d_at D554 (on_file (BytesIO.write (d_chunk d)) w))
  | D554 =>
      Some (on_dl (fun d => mkD D555 (d_ok d) (d_rest d) (d_chunk d)
                                (d_lastReadPos d) (BytesIO.tell (file w))) w)
  | D555 => Some (d_at D557 (on_file (BytesIO.seek (d_lastReadPos d)) w))
  | D557 =>
      Some (d_at (if (Z.of_nat _playbackBlockSize
                      <? Z.of_nat (d_endPos d) - Z.of_nat (d_lastReadPos d))%Z
                  then D559 else D_release) w)
  | D559 =>
      Some (d_at D_release (on_events (put_blockDataAvailable true) w))
  | D_release => Some (d_at D530 (put_lock None w))
  | D562 => Some (d_at D563 (on_events (put_downloadDoneEvent true) w))
  | D563 => Some (d_at D_done (on_events (put_blockDataAvailable true) w))
  | D_done => None
  | D_raised _ => None
  end.

(** *** [begin_streaming] with [_get_data_from_download_thread] inlined
    at its call site *)
Definition m_step (w : World) : option World :=
  let m := mn w in
  let s := obj w in
  match m_pc m with
  | M462 => Some (m_at M469 (on_obj reset w))
  | M469 => Some (m_at M473 (d_at D527 w))
  | M473 => if headerReadyEvent (ev w) then Some (m_at M476 w) else None
  | M476 =>
      match lock w with
      | None => Some (m_at M477 (put_lock (Some TMain) w))
      | Some _ => None
      end
  | M477 =>
      match sf_open C (file w) with
      | (Some h, f1) =>
          Some (m_at M479
                  (on_obj (fun s => put_bytesSoundFile (Some h)
                                      (put_bytesFile f1 s)) w))
      | (None, f1) =>
          Some (m_at M483 (put_lock None (on_file (fun _ => f1) w)))
      end
  | M479 =>
      match _bytesSoundFile s with
      | Some h =>
          Some (m_at M480
                  (on_obj (put_frameSize (channels C h * sizeof_defaultDType))
                          w))
      | None => Some (m_at (M_raised AttributeError) (put_lock None w))
      end
  | M480 => Some (m_at M481 (on_events (put_soundFileReadyEvent true) w))
  | M481 => Some (m_at M490 (put_lock None w))
  | M483 => Some (m_at M484 (on_file (BytesIO.seek 0) w))
  | M484 => Some (m_at M485 (on_file (fun f => snd (BytesIO.read_all f)) w))
  | M485 => Some (m_at M487 (on_file (BytesIO.seek 0) w))
  | M487 => Some (m_at M488 (on_events (put_headerReadyEvent false) w))
  | M488 => Some (m_at M473 (on_events (put_soundFileReadyEvent true) w))
  | M490 => Some (m_at M637 (put_dev Dev_active w))
  | M637 => if blockDataAvailable (ev w) then Some (m_at M638 w) else None
  | M638 =>
      match lock w with
      | None => Some (m_at M640 (put_lock (Some TMain) w))
      | Some _ => None
      end
  | M640 =>
      match _soundFile_read_and_fix _playbackBlockSize s with
      | (Ret readData, s1) =>
          Some (m_at M647 (m_put_data readData (on_obj (fun _ => s1) w)))
      | (Raise AssertionError, s1) =>
          Some (m_at M647 (m_put_data [] (on_obj (fun _ => s1) w)))
      | (Raise e, s1) =>
          Some (m_at (M_raised e) (on_obj (fun _ => s1) w))
      end
  | M647 =>
      let f := file w in
      let currentPos := BytesIO.tell f in
      let f1 := BytesIO.seek_end f in
      let endPos := BytesIO.tell f1 in
      let f2 := BytesIO.seek currentPos f1 in
      Some (on_mn (fun m => mkM M654 (m_data m)
                                (Z.of_nat endPos - Z.of_nat currentPos)%Z
                                (m_curPos m) (m_endPos m) (m_criticals m))
                  (on_file (fun _ => f2) w))
  | M654 =>
      Some (m_at (if (m_remainingBytes m <? Z.of_nat _playbackBlockSize)%Z
                     && negb (downloadDoneEvent (ev w))
                  then M656 else M660) w)
  | M656 => Some (m_at M660 (on_events (put_blockDataAvailable false) w))
  | M660 => Some (m_at M498 (put_lock None w))
  | M498 =>
      Some (m_at (if length (m_data m) =? _playbackBlockSize * _frameSize s
                  then M500 else M503) w)
  | M500 => Some (m_at M637 (on_obj (fun s => put_q (_q s ++ [m_data m]) s) w))
  | M503 =>
      match lock w with
      | None => Some (m_at M505 (put_lock (Some TMain) w))
      | Some _ => None
      end
  | M505 =>
      let f := file w in
      let curPos := BytesIO.tell f in
      let f1 := BytesIO.seek_end f in
      let endPos := BytesIO.tell f1 in
      Some (on_mn (fun m => mkM M508 (m_data m) (m_remainingBytes m)
                                curPos endPos (m_criticals m))
                  (on_file (fun _ => BytesIO.seek curPos f1) w))
  | M508 =>
      Some (m_at (if (m_endPos m =? m_curPos m)
                     && downloadDoneEvent (ev w)
                  then M510 else M517) w)
  | M510 =>
      Some (m_at M515
              (match m_data m with
               | [] => w
               | _ :: _ => on_obj (fun s => put_q (_q s ++ [m_data m]) s) w
               end))
  | M515 => Some (m_at M519 (put_lock None w))
  | M517 =>
      Some (on_mn (fun m => mkM M637 (m_data m) (m_remainingBytes m)
                                (m_curPos m) (m_endPos m)
                                (S (m_criticals m)))
                  (put_lock None w))
  | M519 =>
      if playbackFinishedEvent (ev w) then Some (m_at M520 w) else None
  | M520 => Some (m_at M523 (on_obj (fire OnPlaybackEnd) w))
  | M523 => Some (m_at M_done (put_dev Dev_closed w))
  | M_done => None
  | M_raised _ => None
  end.

(** *** The audio device

    While the stream is active the device calls the playback callback
    with a buffer of one block; once the callback has raised, it calls
    the finished callback, [playbackFinishedEvent.set].  The callback
    takes the lock only for an empty block (line 603); it cannot run
    then while another thread holds the lock. *)
Definition dev_step (w : World) : option World :=
  match dev w with
  | Dev_closed => None
  | Dev_active =>
      let s := obj w in
      let needs_lock :=
        match fst (pop_block (downloadDoneEvent (_events s)) (_q s)) with
        | Some [] => true
        | _ => false
        end in
      match needs_lock, lock w with
      | true, Some _ => None
      | _, _ =>
        match _stream_playback_callback
                (repeat x00 (_playbackBlockSize * _frameSize s))
                _playbackBlockSize s with
        | (Ret _, s1) => Some (on_obj (fun _ => s1) w)
        | (Raise _, s1) => Some (put_dev Dev_stopping (on_obj (fun _ => s1) w))
        end
      end
  | Dev_stopping =>
      Some (put_dev Dev_finished (on_events (put_playbackFinishedEvent true) w))
  | Dev_finished => None
  end.

Definition step (t : thread) (w : World) : option World :=
  match t with
  | TDownload => d_step w
  | TMain => m_step w
  | TDevice => dev_step w
  end.

(** A schedule is the list of threads in the order they take a step;
    a thread that cannot move makes the schedule fail. *)
Fixpoint run (sched : list thread) (w : World) : option World :=
  match sched with
  | [] => Some w
  | t :: sched' =>
      match step t w with
      | Some w' => run sched' w'
      | None => None
      end
  end.

Inductive reachable_from (w0 : World) : World -> Prop :=
| reach_here : reachable_from w0 w0
| reach_step : forall w t w',
    reachable_from w0 w -> step t w = Some w' -> reachable_from w0 w'.

Definition reachable (r : Response) : World -> Prop :=
  reachable_from (start r).

(** ** The buffer as its two users see it

    What reaches the shared file between the reset of [begin_streaming]
    and the end of a session, in the order the lock serialises it: the
    download thread's critical section, a read of [n] bytes made by the
    codec through the file object, and the end-of-data probe of the
    reader (lines 647-656).  [run_ops] also collects the bytes the reads
    returned. *)
Inductive buffer_op :=
| Append (chunk : bytes)
| Read (n : nat)
| Probe.

Definition buffer_step (acc : Streamer * bytes) (op : buffer_op)
  : Streamer * bytes :=
  let '(s, got) := acc in
  match op with
  | Append chunk => (downloader_write chunk s, got)
  | Read n =>
      let '(out, f) := BytesIO.read n (_bytesFile s) in
      (put_bytesFile f s, got ++ out)
  | Probe => (mark_available s, got)
  end.

Definition run_ops (ops : list buffer_op) (s : Streamer) : Streamer * bytes :=
  fold_left buffer_step ops (s, []).

Fixpoint appended (ops : list buffer_op) : bytes :=
  match ops with
  | [] => []
  | Append chunk :: ops' => chunk ++ appended ops'
  | _ :: ops' => appended ops'
  end.

(** What [run_ops] keeps true: the file holds the chunks appended so
    far, the reads have returned its first [cur] bytes, the cursor is
    inside the data, and nothing was written while [headerReadyEvent]
    is clear. *)
Definition buffer_inv (app : bytes) (acc : Streamer * bytes) : Prop :=
  let f := _bytesFile (fst acc) in
  BytesIO.buf f = app
  /\ snd acc = firstn (BytesIO.cur f) app
  /\ BytesIO.cur f <= length app
  /\ (headerReadyEvent (_events (fst acc)) = false
      -> app = [] /\ BytesIO.cur f = 0).

(** What stays true of a session whose response has a failure status. *)
Definition failed_start_inv (w : World) : Prop :=
  d_ok (dl w) = false
  /\ (m_pc (mn w) = M462 \/ m_pc (mn w) = M469 \/ m_pc (mn w) = M473)
  /\ (d_pc (dl w) = D_idle \/ d_pc (dl w) = D527
      \/ d_pc (dl w) = D_raised HTTPError)
  /\ headerReadyEvent (ev w) = false
  /\ trace (obj w) = []
  /\ dev w = Dev_closed
  /\ BytesIO.buf (file w) = []
  /\ _q (obj w) = [].

(** The download thread is inside the critical section of a chunk. *)
Definition d_in_append (pc : dpc) : bool :=
  match pc with
  | D543 | D544 | D546 | D547 | D548 | D549
  | D551 | D552 | D553 | D554 | D555 | D557 | D559 => true
  | _ => false
  end.

(** [begin_streaming] has not started the download thread yet. *)
Definition m_before_thread (pc : mpc) : bool :=
  match pc with M462 | M469 => true | _ => false end.

(** [begin_streaming] is about to construct the parser (lines 476-477). *)
Definition m_constructing (pc : mpc) : bool :=
  match pc with M476 | M477 => true | _ => false end.

(** The handshake between the header loop and the download thread. *)
Definition handshake_inv (w : World) : Prop :=
  (m_before_thread (m_pc (mn w)) = true -> d_pc (dl w) = D_idle)
  /\ (m_constructing (m_pc (mn w)) = true ->
      headerReadyEvent (ev w) = true)
  /\ (d_pc (dl w) = D534 -> soundFileReadyEvent (ev w) = true)
  /\ (d_pc (dl w) = D536 -> headerReadyEvent (ev w) = false)
  /\ (d_in_append (d_pc (dl w)) = true ->
      headerReadyEvent (ev w) = true -> soundFileReadyEvent (ev w) = true).

(** Reading a history: how often [onPlaybackStart] was called, and the
    blocks the playback callback took off the queue, in order. *)
Fixpoint starts (tr : list obs) : nat :=
  match tr with
  | [] => 0
  | Fired OnPlaybackStart :: tr' => S (starts tr')
  | _ :: tr' => starts tr'
  end.

Fixpoint pops (tr : list obs) : list bytes :=
  match tr with
  | [] => []
  | Popped b :: tr' => b :: pops tr'
  | _ :: tr' => pops tr'
  end.

(** The history agrees with the latch [playbackStartFired]. *)
Definition trace_ok (fired : bool) (tr : list obs) : Prop :=
  if fired then
    exists pre b post,
      tr = pre ++ Popped b :: Fired OnPlaybackStart :: post
      /\ pops pre = [] /\ starts pre = 0 /\ starts post = 0
  else pops tr = [] /\ starts tr = 0.

(** [begin_streaming] is between the parser construction and the end
    of the feed loop. *)
Definition m_streaming (pc : mpc) : bool :=
  match pc with
  | M480 | M481 | M490
  | M637 | M638 | M640 | M647 | M654 | M656 | M660
  | M498 | M500 | M503 | M505 | M508 | M510 | M515 | M517 => true
  | _ => false
  end.

Definition playback_inv (w : World) : Prop :=
  (m_pc (mn w) = M462 -> trace (obj w) = [] /\ dev w = Dev_closed)
  /\ (forall b, In b (_q (obj w)) -> b <> [])
  /\ (forall b, In b (pops (trace (obj w))) -> b <> [])
  /\ (m_streaming (m_pc (mn w)) = true -> 0 < _frameSize (obj w))
  /\ (m_pc (mn w) = M479 ->
      exists h, _bytesSoundFile (obj w) = Some h /\ 0 < channels C h)
  /\ (m_pc (mn w) = M500 -> m_data (mn w) <> [])
  /\ trace_ok (playbackStartFired (ev w)) (trace (obj w)).

(** The feed loop waits for a block that nobody is left to announce. *)
Definition starved (w : World) : Prop :=
  m_pc (mn w) = M637
  /\ blockDataAvailable (ev w) = false
  /\ d_pc (dl w) = D_done.

(** How often [onPlaybackEnd] was called. *)
Fixpoint ends (tr : list obs) : nat :=
  match tr with
  | [] => 0
  | Fired OnPlaybackEnd :: tr' => S (ends tr')
  | _ :: tr' => ends tr'
  end.

(** [begin_streaming] has run line 520. *)
Definition m_after_end (pc : mpc) : bool :=
  match pc with M523 | M_done => true | _ => false end.

(** [begin_streaming] is past the wait of line 519. *)
Definition m_past_wait (pc : mpc) : bool :=
  match pc with M520 | M523 | M_done => true | _ => false end.

(** [begin_streaming] has not opened the output stream yet. *)
Definition m_before_stream (pc : mpc) : bool :=
  match pc with
  | M462 | M469 | M473 | M476 | M477 | M479 | M480 | M481
  | M483 | M484 | M485 | M487 | M488 | M490 => true
  | _ => false
  end.

Definition end_inv (w : World) : Prop :=
  (m_pc (mn w) = M462 -> trace (obj w) = [])
  /\ (m_before_stream (m_pc (mn w)) = true -> dev w = Dev_closed)
  /\ (m_after_end (m_pc (mn w)) = false -> ends (trace (obj w)) = 0)
  /\ (m_after_end (m_pc (mn w)) = true ->
      exists pre,
        trace (obj w) = pre ++ [Fired OnPlaybackEnd] /\ ends pre = 0)
  /\ (m_past_wait (m_pc (mn w)) = true ->
      playbackFinishedEvent (ev w) = true)
  /\ (playbackFinishedEvent (ev w) = true ->
      dev w = Dev_finished \/ m_pc (mn w) = M_done)
  /\ (m_pc (mn w) = M_done -> dev w = Dev_closed).

(** The download thread is between the acquisition and the release of
    [_bytesLock] (lines 544-559). *)
Definition d_holds_lock (pc : dpc) : bool :=
  match pc with
  | D544 | D546 | D547 | D548 | D549
  | D551 | D552 | D553 | D554 | D555 | D557 | D559 | D_release => true
  | _ => false
  end.

(** [begin_streaming] is inside one of its locked regions (lines
    477-481, 640-660, 505-517). *)
Definition m_holds_lock (pc : mpc) : bool :=
  match pc with
  | M477 | M479 | M480 | M481
  | M640 | M647 | M654 | M656 | M660
  | M505 | M508 | M510 | M515 | M517 => true
  | _ => false
  end.

Definition m_has_raised (pc : mpc) : bool :=
  match pc with M_raised _ => true | _ => false end.

Definition mutex_inv (w : World) : Prop :=
  (m_before_thread (m_pc (mn w)) = true -> d_pc (dl w) = D_idle)
  /\ (d_holds_lock (d_pc (dl w)) = true -> lock w = Some TDownload)
  /\ (m_holds_lock (m_pc (mn w)) = true -> lock w = Some TMain)
  /\ (lock w = Some TDownload -> d_holds_lock (d_pc (dl w)) = true)
  /\ (lock w = Some TMain ->
      m_holds_lock (m_pc (mn w)) = true
      \/ m_has_raised (m_pc (mn w)) = true)
  /\ lock w <> Some TDevice.

(** The reader has left by an exception with the lock in its hands. *)
Definition lock_leaked (e : exn) (w : World) : Prop :=
  m_pc (mn w) = M_raised e
  /\ lock w = Some TMain
  /\ d_holds_lock (d_pc (dl w)) = false.


(** [begin_streaming] is in its header loop (lines 462-488). *)
Definition m_in_header_loop (pc : mpc) : bool :=
  match pc with
  | M462 | M469 | M473 | M476 | M477
  | M483 | M484 | M485 | M487 | M488 => true
  | _ => false
  end.

(** What stays true of a session on which no parser can be
    constructed. *)
Definition unparsable_inv (w : World) : Prop :=
  m_in_header_loop (m_pc (mn w)) = true
  /\ trace (obj w) = []
  /\ dev w = Dev_closed
  /\ _q (obj w) = []
  /\ _bytesSoundFile (obj w) = None
  /\ playbackFinishedEvent (ev w) = false.

(** The download thread has run line 562. *)
Definition d_past_loop (pc : dpc) : bool :=
  match pc with D563 | D_done => true | _ => false end.

(** The download thread has left the loop over the chunks. *)
Definition d_loop_left (pc : dpc) : bool :=
  match pc with D562 | D563 | D_done => true | _ => false end.

(** The download thread is past [raise_for_status]. *)
Definition d_status_checked (pc : dpc) : bool :=
  match pc with D_idle | D527 | D_raised _ => false | _ => true end.

Definition done_inv (w : World) : Prop :=
  (m_before_thread (m_pc (mn w)) = true -> d_pc (dl w) = D_idle)
  /\ downloadDoneEvent (ev w) = d_past_loop (d_pc (dl w))
  /\ (d_loop_left (d_pc (dl w)) = true -> d_rest (dl w) = [])
  /\ (d_status_checked (d_pc (dl w)) = true -> d_ok (dl w) = true).

(** [begin_streaming] has left the feed loop by its [break]. *)
Definition m_after_feed (pc : mpc) : bool :=
  match pc with
  | M515 | M519 | M520 | M523 | M_done => true
  | _ => false
  end.

Definition at_end (f : BytesIO.t) : Prop :=
  BytesIO.cur f = length (BytesIO.buf f).

Definition fed_inv (w : World) : Prop :=
  (m_pc (mn w) = M508 ->
   m_curPos (mn w) = BytesIO.cur (file w)
   /\ m_endPos (mn w) = length (BytesIO.buf (file w)))
  /\ (m_pc (mn w) = M510 \/ m_after_feed (m_pc (mn w)) = true ->
      downloadDoneEvent (ev w) = true /\ at_end (file w)).

(** A block of [_playbackBlockSize] frames. *)
Definition full_block (s : Streamer) (b : bytes) : Prop :=
  length b = _playbackBlockSize * _frameSize s.

(** Every block ever put on the queue, in the order of the [put]s: those
    the callback has taken, then those still waiting. *)
Definition enqueued (w : World) : list bytes :=
  pops (trace (obj w)) ++ _q (obj w).

(** [begin_streaming] has not yet computed [_frameSize] (line 479). *)
Definition m_sizing (pc : mpc) : bool :=
  match pc with
  | M462 | M469 | M473 | M476 | M477 | M479
  | M483 | M484 | M485 | M487 | M488 => true
  | _ => false
  end.

(** [begin_streaming] is in the [else] branch of line 501. *)
Definition m_short_block (pc : mpc) : bool :=
  match pc with M503 | M505 | M508 | M510 => true | _ => false end.

Definition shape_inv (w : World) : Prop :=
  (m_sizing (m_pc (mn w)) = true -> enqueued w = [])
  /\ (m_pc (mn w) = M500 -> full_block (obj w) (m_data (mn w)))
  /\ (m_short_block (m_pc (mn w)) = true ->
      ~ full_block (obj w) (m_data (mn w)))
  /\ (m_after_feed (m_pc (mn w)) = false ->
      Forall (full_block (obj w)) (enqueued w))
  /\ (m_after_feed (m_pc (mn w)) = true ->
      exists full last,
        enqueued w = full ++ last
        /\ Forall (full_block (obj w)) full
        /\ (last = []
            \/ exists b, last = [b] /\ b <> [] /\ ~ full_block (obj w) b)).

(** The stream was opened and is no longer active: the callback has
    raised. *)
Definition dev_stopped (d : dev_state) : bool :=
  match d with Dev_stopping | Dev_finished => true | _ => false end.

(** * Properties *)

(** ** The file object *)

Lemma write_at_end : forall b f,
  BytesIO.write b (BytesIO.seek_end f)
  = BytesIO.mk (BytesIO.buf f ++ b) (length (BytesIO.buf f) + length b).
Proof.
  intros b f. unfold BytesIO.write, BytesIO.seek_end. simpl.
  rewrite Nat.sub_diag. simpl. rewrite app_nil_r.
  rewrite firstn_all.
  rewrite skipn_all2 by lia.
  now rewrite app_nil_r.
Qed.

Lemma read_spec : forall n f,
  fst (BytesIO.read n f) = firstn n (skipn (BytesIO.cur f) (BytesIO.buf f))
  /\ BytesIO.buf (snd (BytesIO.read n f)) = BytesIO.buf f
  /\ BytesIO.cur (snd (BytesIO.read n f))
     = BytesIO.cur f + length (fst (BytesIO.read n f)).
Proof. intros; unfold BytesIO.read; simpl; auto. Qed.

Lemma firstn_length_firstn : forall (A : Type) n (l : list A),
  firstn (length (firstn n l)) l = firstn n l.
Proof.
  induction n as [|n IH]; intros [|a l]; simpl; auto.
  now rewrite IH.
Qed.

Lemma firstn_extend : forall (A : Type) c n (l : list A),
  firstn c l ++ firstn n (skipn c l)
  = firstn (c + length (firstn n (skipn c l))) l.
Proof.
  induction c as [|c IH]; intros n l.
  - simpl. now rewrite firstn_length_firstn.
  - destruct l as [|a l]; simpl.
    + now rewrite firstn_nil.
    + now rewrite IH.
Qed.

Lemma seek_back : forall f,
  BytesIO.seek (BytesIO.tell f) (BytesIO.seek_end f) = f.
Proof. now destruct f. Qed.

(** ** The download thread's critical section *)

Lemma downloader_write_file : forall chunk s,
  _bytesFile (downloader_write chunk s)
  = BytesIO.mk (BytesIO.buf (_bytesFile s) ++ chunk)
               (if headerReadyEvent (_events s)
                then BytesIO.cur (_bytesFile s) else 0).
Proof.
  intros chunk s. unfold downloader_write.
  destruct (headerReadyEvent (_events s)); simpl.
  - rewrite write_at_end.
    destruct (_ <? _)%Z; reflexivity.
  - rewrite write_at_end. reflexivity.
Qed.

Lemma downloader_write_header : forall chunk s,
  headerReadyEvent (_events (downloader_write chunk s)) = true.
Proof.
  intros chunk s. unfold downloader_write.
  destruct (headerReadyEvent (_events s)) eqn:H; simpl; auto.
  destruct (_ <? _)%Z; simpl; auto.
Qed.

Lemma mark_available_file : forall s,
  _bytesFile (mark_available s) = _bytesFile s.
Proof.
  intros s. unfold mark_available.
  rewrite seek_back.
  destruct (_ && _); simpl; now destruct s.
Qed.

Lemma mark_available_header : forall s,
  headerReadyEvent (_events (mark_available s))
  = headerReadyEvent (_events s).
Proof.
  intros s. unfold mark_available.
  destruct (_ && _); reflexivity.
Qed.

Lemma buffer_inv_start : forall s0, buffer_inv [] (reset s0, []).
Proof. intros s0. repeat split; simpl; auto. Qed.

Lemma buffer_step_inv : forall app acc op,
  buffer_inv app acc ->
  buffer_inv (app ++ appended [op]) (buffer_step acc op).
Proof.
  intros app [s got] op (Hbuf & Hgot & Hcur & Hhdr); simpl in *.
  destruct op as [chunk | n | ]; simpl.
  - (* Append *)
    rewrite app_nil_r.
    unfold buffer_inv; simpl.
    rewrite downloader_write_file, downloader_write_header; simpl.
    destruct (headerReadyEvent (_events s)) eqn:Hh.
    + subst app. repeat split; try discriminate.
      * rewrite firstn_app.
        replace (BytesIO.cur (_bytesFile s)
                 - length (BytesIO.buf (_bytesFile s)))
          with 0 by lia.
        simpl. now rewrite app_nil_r.
      * rewrite length_app. lia.
    + destruct (Hhdr eq_refl) as [Happ Hc].
      rewrite Happ in *. rewrite Hbuf, Hgot, Hc.
      repeat split; try discriminate; simpl; auto. lia.
  - (* Read *)
    rewrite app_nil_r.
    unfold buffer_inv; simpl. subst app.
    repeat split.
    + rewrite Hgot. apply firstn_extend.
    + destruct (Nat.le_gt_cases (length (BytesIO.buf (_bytesFile s)))
                                (BytesIO.cur (_bytesFile s))).
      * rewrite skipn_all2, firstn_nil by assumption. simpl. lia.
      * rewrite length_firstn, length_skipn. lia.
    + apply Hhdr; assumption.
    + destruct (Hhdr H) as [Hnil Hc]. rewrite Hnil, Hc. simpl.
      now rewrite firstn_nil.
  - (* Probe *)
    rewrite app_nil_r.
    unfold buffer_inv; simpl.
    rewrite mark_available_file, mark_available_header.
    repeat split; auto; apply Hhdr; assumption.
Qed.

Lemma appended_app : forall ops1 ops2,
  appended (ops1 ++ ops2) = appended ops1 ++ appended ops2.
Proof.
  induction ops1 as [|[chunk|n|] ops1 IH]; intros ops2; simpl; auto.
  now rewrite IH, app_assoc.
Qed.

Lemma run_ops_inv : forall ops app acc,
  buffer_inv app acc ->
  buffer_inv (app ++ appended ops) (fold_left buffer_step ops acc).
Proof.
  induction ops as [|op ops IH]; intros app acc Hinv.
  - simpl. now rewrite app_nil_r.
  - change (appended (op :: ops)) with (appended ([op] ++ ops)).
    rewrite appended_app, app_assoc. simpl fold_left.
    apply IH. now apply buffer_step_inv.
Qed.

(** In lock order the buffer is sound.  After the reset of
    [begin_streaming], whatever the order of appended chunks, codec
    reads and end-of-data probes, each made as a whole: the file holds
    exactly the concatenation of the chunks; the bytes the reads have
    returned are its first [cur] bytes, so reading on to the end
    delivers the whole concatenation, nothing twice and nothing
    skipped; one more append puts its chunk at the end of the data and
    leaves the read cursor where it was; one more read returns the
    bytes that follow the cursor and moves it by their number. *)
Lemma buffer_delivery_in_lock_order : forall s0 ops,
  let s := fst (run_ops ops (reset s0)) in
  let got := snd (run_ops ops (reset s0)) in
  let f := _bytesFile s in
  BytesIO.buf f = appended ops
  /\ got = firstn (BytesIO.cur f) (appended ops)
  /\ got ++ fst (BytesIO.read_all f) = appended ops
  /\ (forall chunk,
        let f' := _bytesFile (downloader_write chunk s) in
        BytesIO.buf f' = BytesIO.buf f ++ chunk
        /\ BytesIO.cur f' = BytesIO.cur f)
  /\ (forall n,
        let r := BytesIO.read n f in
        got ++ fst r = firstn (BytesIO.cur (snd r)) (appended ops)
        /\ BytesIO.cur (snd r) = BytesIO.cur f + length (fst r)).
Proof.
  intros s0 ops s got f.
  pose proof (run_ops_inv ops (buffer_inv_start s0)) as Hinv.
  simpl in Hinv. fold (run_ops ops (reset s0)) in Hinv.
  destruct Hinv as (Hbuf & Hgot & Hcur & Hhdr).
  fold s in Hbuf, Hgot, Hcur, Hhdr. fold f in Hbuf, Hgot, Hcur, Hhdr.
  fold got in Hgot.
  split; [exact Hbuf|]. split; [exact Hgot|]. split.
  - simpl. rewrite Hgot, Hbuf. apply firstn_skipn.
  - split.
    + intros chunk f'. subst f'. rewrite downloader_write_file. simpl.
      split; [reflexivity|].
      destruct (headerReadyEvent (_events s)) eqn:Hh; [reflexivity|].
      symmetry. now apply Hhdr.
    + intros n r. subst r. simpl. split; [|reflexivity].
      rewrite Hgot, <- Hbuf. apply firstn_extend.
Qed.

(** C5 (as the code has it). For a chunk appended while
    [headerReadyEvent] is set, the download thread sets
    [blockDataAvailable] exactly when the bytes between the read cursor
    and the new end of the data exceed [_playbackBlockSize], the frame
    count of a playback block taken as a number of bytes; the frame size
    plays no part, and a flag that is already set stays set. *)
Theorem C5_block_available_threshold : forall chunk s,
  headerReadyEvent (_events s) = true ->
  let s' := downloader_write chunk s in
  blockDataAvailable (_events s')
  = blockDataAvailable (_events s)
    || (Z.of_nat _playbackBlockSize <? BytesIO.remaining (_bytesFile s'))%Z.
Proof.
  intros chunk s Hh s'. subst s'.
  rewrite downloader_write_file, Hh.
  unfold downloader_write. rewrite Hh. simpl.
  rewrite write_at_end. unfold BytesIO.remaining, BytesIO.tell. simpl.
  rewrite length_app, Nat2Z.inj_add.
  destruct (_ <? _)%Z; simpl.
  - now rewrite orb_true_r.
  - now rewrite orb_false_r.
Qed.

(** ** The feed loop *)

Lemma feed_iteration_file : forall data s,
  _bytesFile (snd (feed_iteration data s)) = _bytesFile s.
Proof.
  intros data s. unfold feed_iteration.
  destruct (_ =? _); simpl; [reflexivity|].
  rewrite seek_back.
  destruct (_ && _); simpl; [|reflexivity].
  destruct data; reflexivity.
Qed.

Lemma feed_iteration_events : forall data s,
  _events (snd (feed_iteration data s)) = _events s.
Proof.
  intros data s. unfold feed_iteration.
  destruct (_ =? _); simpl; [reflexivity|].
  destruct (_ && _); simpl; [|reflexivity].
  destruct data; reflexivity.
Qed.

(** C2. One turn of the feed loop ends the loop if and only if the
    block is not of the expected size, the read cursor is at the end of
    the data and [downloadDoneEvent] is set; the turn then puts the
    block on the queue when it is not empty, and nothing else.  The
    loop as a whole can only return with the cursor at the end of the
    data and the download over. *)
Theorem C2_feed_loop_stops_iff : forall data s,
  let r := feed_iteration data s in
  (loop_goes_on (fst r) = false
   <-> length data <> _playbackBlockSize * _frameSize s
       /\ BytesIO.cur (_bytesFile s) = length (BytesIO.buf (_bytesFile s))
       /\ downloadDoneEvent (_events s) = true)
  /\ (loop_goes_on (fst r) = false ->
      _q (snd r) = _q s ++ match data with [] => [] | _ :: _ => [data] end)
  /\ (forall fuel s',
        feed_loop fuel s = Some (Ret tt, s') ->
        BytesIO.cur (_bytesFile s') = length (BytesIO.buf (_bytesFile s'))
        /\ downloadDoneEvent (_events s') = true).
Proof.
  intros data s r. subst r. split; [|split].
  - unfold feed_iteration.
    destruct (Nat.eqb_spec (length data) (_playbackBlockSize * _frameSize s))
      as [Heq | Hne]; simpl.
    + split; [discriminate | intros [H _]; contradiction].
    + unfold BytesIO.tell. simpl.
      destruct (Nat.eqb_spec (length (BytesIO.buf (_bytesFile s)))
                             (BytesIO.cur (_bytesFile s))) as [He | He];
        destruct (downloadDoneEvent (_events s)); simpl;
        split; try discriminate; auto;
        intros (_ & H1 & H2); try discriminate; congruence.
  - unfold feed_iteration.
    destruct (_ =? _); simpl; [discriminate|].
    destruct (_ && _); simpl; [|discriminate].
    intros _. destruct data; simpl; [now rewrite app_nil_r | reflexivity].
  - intros fuel. revert s.
    induction fuel as [|fuel IH]; intros s s' Hloop; simpl in Hloop.
    + discriminate.
    + destruct (_get_data_from_download_thread s) as [[d | e] s1];
        [|discriminate].
      destruct (feed_iteration d s1) as [o s2] eqn:Hit.
      destruct o; try (now apply IH in Hloop).
      injection Hloop as <-.
      pose proof (feed_iteration_file d s1) as Hf.
      pose proof (feed_iteration_events d s1) as He.
      rewrite Hit in Hf, He. simpl in Hf, He. rewrite Hf, He.
      unfold feed_iteration in Hit.
      destruct (_ =? _); [discriminate|].
      unfold BytesIO.tell in Hit. simpl in Hit.
      destruct (Nat.eqb_spec (length (BytesIO.buf (_bytesFile s1)))
                             (BytesIO.cur (_bytesFile s1)));
        destruct (downloadDoneEvent (_events s1)); simpl in Hit;
        try discriminate.
      split; congruence.
Qed.

(** C3 (as the code has it). A block of the wrong size met while the
    read cursor is not at the end of the data, or while
    [downloadDoneEvent] is clear, makes the feed loop log one critical
    message and go round again: the block is not put on the queue, the
    file and the events are left as they were, nothing is raised and
    the loop is not left. *)
Theorem C3_pacing_violation_logged : forall data s,
  length data <> _playbackBlockSize * _frameSize s ->
  BytesIO.cur (_bytesFile s) <> length (BytesIO.buf (_bytesFile s))
  \/ downloadDoneEvent (_events s) = false ->
  let r := feed_iteration data s in
  fst r = LoggedCritical
  /\ loop_goes_on (fst r) = true
  /\ _q (snd r) = _q s
  /\ _bytesFile (snd r) = _bytesFile s
  /\ _events (snd r) = _events s.
Proof.
  intros data s Hlen Hviol r. subst r.
  rewrite feed_iteration_file, feed_iteration_events.
  unfold feed_iteration.
  destruct (Nat.eqb_spec (length data) (_playbackBlockSize * _frameSize s));
    [contradiction|].
  unfold BytesIO.tell. simpl.
  destruct (Nat.eqb_spec (length (BytesIO.buf (_bytesFile s)))
                         (BytesIO.cur (_bytesFile s))) as [He | He];
    destruct (downloadDoneEvent (_events s)); simpl; auto.
  destruct Hviol; [congruence | discriminate].
Qed.

(** ** The playback callback *)

Lemma slice_assign_prefix : forall src outdata,
  length src <= length outdata ->
  slice_assign 0 (length src) src outdata
  = Some (src ++ skipn (length src) outdata).
Proof.
  intros src outdata Hle. unfold slice_assign.
  rewrite Nat.min_l, Nat.sub_0_r, Nat.eqb_refl by exact Hle.
  reflexivity.
Qed.

Lemma slice_assign_suffix : forall i src outdata,
  i <= length outdata ->
  length src = length outdata - i ->
  slice_assign i (length outdata) src outdata = Some (firstn i outdata ++ src).
Proof.
  intros i src outdata Hi Hlen. unfold slice_assign.
  rewrite Nat.min_id, Hlen, Nat.eqb_refl.
  rewrite Nat.max_r by exact Hi.
  rewrite skipn_all. now rewrite app_nil_r.
Qed.

(** C9. When the callback takes from the queue a block of length [L]
    with [0 < L < B], [B] the size of the output buffer, it returns
    normally, and the buffer then holds the block in its first [L] bytes
    and zeros in the [B - L] bytes after them. *)
Theorem C9_short_block_padding : forall outdata s readData q',
  pop_block (downloadDoneEvent (_events s)) (_q s) = (Some readData, q') ->
  0 < length readData < length outdata ->
  let L := length readData in
  let B := length outdata in
  exists out,
    fst (_stream_playback_callback outdata _playbackBlockSize s) = Ret out
    /\ length out = B
    /\ firstn L out = readData
    /\ skipn L out = repeat x00 (B - L).
Proof.
  intros outdata s readData q' Hpop [HL HB]. cbv zeta.
  exists (readData ++ repeat x00 (length outdata - length readData)).
  assert (Hfirst : forall tl : bytes,
             firstn (length readData) (readData ++ tl) = readData).
  { intros tl. rewrite firstn_app, Nat.sub_diag, firstn_all. simpl.
    apply app_nil_r. }
  split; [|split; [|split]].
  - unfold _stream_playback_callback.
    rewrite Nat.eqb_refl. simpl. rewrite Hpop.
    replace (0 <? length readData) with true
      by (symmetry; apply Nat.ltb_lt; exact HL).
    replace (length readData <? length outdata) with true
      by (symmetry; apply Nat.ltb_lt; exact HB).
    simpl.
    rewrite slice_assign_prefix by lia.
    assert (Hlen1 : length (readData ++ skipn (length readData) outdata)
                    = length outdata).
    { rewrite length_app, length_skipn. lia. }
    rewrite <- Hlen1 at 1.
    rewrite slice_assign_suffix.
    + now rewrite Hfirst.
    + rewrite Hlen1. lia.
    + rewrite repeat_length, Hlen1. reflexivity.
  - rewrite length_app, repeat_length. lia.
  - apply Hfirst.
  - rewrite skipn_app, Nat.sub_diag, skipn_all. reflexivity.
Qed.

(** ** The reader *)

Lemma mark_available_soundFile : forall s,
  _bytesSoundFile (mark_available s) = _bytesSoundFile s.
Proof.
  intros s. unfold mark_available. destruct (_ && _); reflexivity.
Qed.

Lemma get_data_never_asserts : forall s,
  fst (_get_data_from_download_thread s) <> Raise AssertionError.
Proof.
  intros s. unfold _get_data_from_download_thread.
  destruct (_soundFile_read_and_fix _playbackBlockSize s) as [[d | e] s1];
    simpl; [discriminate|].
  destruct e; simpl; discriminate.
Qed.

(** C8. Let a block read come back shorter than asked while the read
    cursor is not at the end of the data, and let a new parser be
    opened on the file from its start and moved to the frame offset
    the old one had before the read.  If the new parser reports
    strictly more frames than the old one, it replaces the old handle
    and the read is made once more, its result being the result of the
    reader, and an empty block when that second read fails its
    frame-count assertion; otherwise the old handle stays and the short
    block is returned.  Whatever the state, a failed frame-count
    assertion never leaves the reader: the reader returns the empty
    block in its place. *)
Theorem C8_stale_parser_recovery :
  (forall s old readData old1 f1 newSF f4 newSF1 f5,
     _bytesSoundFile s = Some old ->
     buffer_read C _playbackBlockSize old (_bytesFile s)
     = (Some readData, old1, f1) ->
     length readData < _playbackBlockSize * _frameSize s ->
     BytesIO.cur f1 <> length (BytesIO.buf f1) ->
     sf_open C (BytesIO.seek 0 (BytesIO.seek_end f1)) = (Some newSF, f4) ->
     sf_seek C (Z.of_nat (sf_tell C old1)
                - Z.of_nat (length readData / _frameSize s))%Z newSF f4
     = (Some newSF1, f5) ->
     let r := _get_data_from_download_thread s in
     let retry := buffer_read C _playbackBlockSize newSF1 f5 in
     (frames C old1 < frames C newSF1 ->
        _bytesSoundFile (snd r) = Some (snd (fst retry))
        /\ fst r = Ret (match fst (fst retry) with
                        | Some readData2 => readData2
                        | None => []
                        end))
     /\ (frames C newSF1 <= frames C old1 ->
         _bytesSoundFile (snd r) = Some old1 /\ fst r = Ret readData))
  /\ (forall s, fst (_get_data_from_download_thread s) <> Raise AssertionError)
  /\ (forall s s1,
        _soundFile_read_and_fix _playbackBlockSize s
        = (Raise AssertionError, s1) ->
        fst (_get_data_from_download_thread s) = Ret []).
Proof.
  split; [|split].
  - intros s old readData old1 f1 newSF f4 newSF1 f5
           Hsf Hread Hshort Hpos Hopen Hseek r retry.
    subst r retry.
    unfold _get_data_from_download_thread, _soundFile_read_and_fix.
    rewrite Hsf, Hread.
    replace (length readData <? _playbackBlockSize * _frameSize s) with true
      by (symmetry; apply Nat.ltb_lt; exact Hshort).
    unfold BytesIO.tell. simpl BytesIO.cur.
    replace (BytesIO.cur f1 =? length (BytesIO.buf f1)) with false
      by (symmetry; apply Nat.eqb_neq; exact Hpos).
    simpl negb. cbv iota. rewrite Hopen.
    simpl _frameSize. rewrite Hseek.
    split.
    + intros Hmore.
      replace (frames C old1 <? frames C newSF1) with true
        by (symmetry; apply Nat.ltb_lt; exact Hmore).
      destruct (buffer_read C _playbackBlockSize newSF1 f5)
        as [[[d2|] h2] f6]; simpl;
        rewrite mark_available_soundFile; simpl; auto.
    + intros Hle.
      replace (frames C old1 <? frames C newSF1) with false
        by (symmetry; apply Nat.ltb_ge; exact Hle).
      simpl. rewrite mark_available_soundFile. simpl. auto.
  - exact get_data_never_asserts.
  - intros s s1 Hfix. unfold _get_data_from_download_thread.
    now rewrite Hfix.
Qed.

(** ** Sessions *)

Arguments _soundFile_read_and_fix : simpl never.
Arguments _stream_playback_callback : simpl never.

Lemma reachable_ind_inv : forall (P : World -> Prop) w0,
  P w0 ->
  (forall w t w', P w -> step t w = Some w' -> P w') ->
  forall w, reachable_from w0 w -> P w.
Proof.
  intros P w0 H0 Hstep w Hreach.
  induction Hreach as [|w t w' _ IH Hs]; [exact H0|].
  exact (Hstep w t w' IH Hs).
Qed.

Lemma reachable_trans : forall w0 w1 w2,
  reachable_from w0 w1 -> reachable_from w1 w2 -> reachable_from w0 w2.
Proof.
  intros w0 w1 w2 H01 H12.
  induction H12 as [|w t w' _ IH Hs]; [exact H01|].
  eapply reach_step; eassumption.
Qed.

Lemma run_reachable : forall sched w w',
  run sched w = Some w' -> reachable_from w w'.
Proof.
  induction sched as [|t sched IH]; intros w w' Hrun; simpl in Hrun.
  - injection Hrun as <-. constructor.
  - destruct (step t w) as [w1|] eqn:Hs; [|discriminate].
    apply reachable_trans with w1.
    + eapply reach_step; [apply reach_here | exact Hs].
    + now apply IH.
Qed.

(** [_soundFile_read_and_fix] touches the file and the handle only. *)
Lemma read_and_fix_frame : forall n s,
  let s' := snd (_soundFile_read_and_fix n s) in
  _events s' = _events s
  /\ _q s' = _q s
  /\ trace s' = trace s
  /\ _frameSize s' = _frameSize s.
Proof.
  intros n s. unfold _soundFile_read_and_fix.
  repeat match goal with
         | |- context [match ?x with _ => _ end] => destruct x eqn:?
         end; simpl; repeat split; auto.
Qed.

(** To look at the world a schedule leads to, it is enough to compute
    what is looked at. *)
Lemma run_observe : forall (A : Type) (f : World -> A) sched w0 a,
  option_map f (run sched w0) = Some a ->
  exists w, run sched w0 = Some w /\ f w = a.
Proof.
  intros A f sched w0 a Hobs.
  destruct (run sched w0) as [w|]; [|discriminate].
  exists w. split; [reflexivity|]. simpl in Hobs. congruence.
Qed.

Lemma run_app : forall sched1 sched2 w,
  run (sched1 ++ sched2) w
  = match run sched1 w with
    | Some w1 => run sched2 w1
    | None => None
    end.
Proof.
  induction sched1 as [|t sched1 IH]; intros sched2 w; simpl; auto.
  destruct (step t w); auto.
Qed.

(** Splitting a step into the statement that made it. *)
Ltac world_simpl :=
  unfold d_at, m_at, m_put_data, on_dl, on_mn, on_events, on_file, on_obj,
         put_lock, put_dev, ev, file in *;
  simpl in *.

Ltac break_step H :=
  repeat match type of H with
         | Some _ = Some _ => injection H as <-
         | None = Some _ => discriminate H
         | context [match ?x with _ => _ end] => destruct x eqn:?
         end.

Ltac finish :=
  repeat match goal with
         | H : ?a = ?a -> _ |- _ => specialize (H eq_refl)
         | H : ?A -> _, H' : ?A |- _ =>
             match type of A with Prop => specialize (H H') end
         | H : context [if ?c then _ else _] |- _ => destruct c eqn:?
         | |- context [if ?c then _ else _] => destruct c eqn:?
         | H : _ /\ _ |- _ => destruct H
         | H : negb _ = true |- _ => apply negb_true_iff in H
         | H : negb _ = false |- _ => apply negb_false_iff in H
         end;
  simpl in *; try discriminate; try congruence; auto.

Ltac d_cases H :=
  unfold d_step in H;
  match type of H with
  | context [d_pc ?d] => destruct (d_pc d) eqn:?Hdpc
  end;
  break_step H; world_simpl.

Ltac m_cases H :=
  unfold m_step in H;
  match type of H with
  | context [m_pc ?m] => destruct (m_pc m) eqn:?Hmpc
  end;
  try match type of H with
      | context [_soundFile_read_and_fix ?n ?s] =>
          let Hfix := fresh "Hfix" in
          pose proof (read_and_fix_frame n s) as Hfix;
          destruct (_soundFile_read_and_fix n s) as [? ?];
          simpl in Hfix;
          destruct Hfix as (?Hfev & ?Hfq & ?Hftr & ?Hffs)
      end;
  break_step H; world_simpl.

Lemma failed_start_inv_step : forall w t w',
  failed_start_inv w -> step t w = Some w' -> failed_start_inv w'.
Proof.
  intros w t w' (Hok & Hm & Hd & Hh & Htr & Hdev & Hbuf & Hq) Hs.
  unfold failed_start_inv.
  destruct t; simpl in Hs.
  - d_cases Hs; destruct Hm as [Hm | [Hm | Hm]];
      destruct Hd as [Hd | [Hd | Hd]]; try congruence;
      repeat split; auto; rewrite Hok; auto.
  - m_cases Hs; destruct Hm as [Hm | [Hm | Hm]]; try congruence;
      destruct Hd as [Hd | [Hd | Hd]];
      repeat split; auto; congruence.
  - unfold dev_step in Hs. world_simpl. rewrite Hdev in Hs. discriminate.
Qed.

(** C6 (what the code does). With a failure status the download thread
    raises [HTTPError] at line 527 and ends; the exception stays in that
    thread.  [begin_streaming] neither returns nor raises: it stays at
    or before [headerReadyEvent.wait()] of line 473, where, once the
    download thread is gone, no thread can move any more.  No user
    callback is called and the buffer stays empty. *)
Theorem C6_failed_status_hangs : forall r,
  status_ok r = false ->
  (forall w, reachable r w ->
     m_pc (mn w) <> M_done
     /\ (forall e, m_pc (mn w) <> M_raised e)
     /\ trace (obj w) = []
     /\ BytesIO.buf (file w) = [])
  /\ (exists w,
        run [TMain; TMain; TDownload] (start r) = Some w
        /\ d_pc (dl w) = D_raised HTTPError
        /\ m_pc (mn w) = M473
        /\ forall t, step t w = None).
Proof.
  intros r Hbad. split.
  - intros w Hreach.
    assert (Hinv : failed_start_inv w).
    { revert w Hreach. apply reachable_ind_inv.
      - unfold failed_start_inv, start. simpl. rewrite Hbad.
        repeat split; auto.
      - exact failed_start_inv_step. }
    destruct Hinv as (_ & Hm & _ & _ & Htr & _ & Hbuf & _).
    repeat split; auto;
      destruct Hm as [Hm | [Hm | Hm]]; rewrite Hm; discriminate.
  - unfold start. simpl. rewrite Hbad. simpl.
    eexists. split; [reflexivity|]. simpl.
    repeat split. intros [ | | ]; reflexivity.
Qed.

(** What a call of the playback callback leaves alone. *)
Lemma callback_frame : forall outdata frames s,
  let s' := snd (_stream_playback_callback outdata frames s) in
  _frameSize s' = _frameSize s
  /\ _bytesSoundFile s' = _bytesSoundFile s
  /\ BytesIO.buf (_bytesFile s') = BytesIO.buf (_bytesFile s)
  /\ _events s'
     = put_playbackStartFired (playbackStartFired (_events s')) (_events s).
Proof.
  intros outdata frames s. unfold _stream_playback_callback.
  assert (He : _events s
               = put_playbackStartFired (playbackStartFired (_events s))
                                        (_events s))
    by now destruct (_events s).
  repeat match goal with
         | |- context [match ?x with _ => _ end] => destruct x eqn:?
         end; simpl; repeat split; auto.
Qed.

Lemma dev_step_frame : forall w w',
  dev_step w = Some w' ->
  lock w' = lock w /\ dl w' = dl w /\ mn w' = mn w
  /\ headerReadyEvent (ev w') = headerReadyEvent (ev w)
  /\ soundFileReadyEvent (ev w') = soundFileReadyEvent (ev w)
  /\ downloadDoneEvent (ev w') = downloadDoneEvent (ev w)
  /\ blockDataAvailable (ev w') = blockDataAvailable (ev w)
  /\ _frameSize (obj w') = _frameSize (obj w).
Proof.
  intros w w' Hs. unfold dev_step in Hs.
  destruct (dev w); try discriminate.
  - match type of Hs with
    | context [_stream_playback_callback ?o ?n ?s] =>
        pose proof (callback_frame o n s) as Hf;
        destruct (_stream_playback_callback o n s) as [[out | e] s1]
    end;
    simpl in Hf; destruct Hf as (Hfs & _ & _ & Hev);
    break_step Hs; world_simpl; rewrite Hev; simpl; repeat split; auto.
  - injection Hs as <-. world_simpl. repeat split; auto.
Qed.

Lemma handshake_inv_step : forall w t w',
  handshake_inv w -> step t w = Some w' -> handshake_inv w'.
Proof.
  intros w t w' (H1 & H2 & H3 & H4 & H5) Hs.
  unfold handshake_inv.
  destruct t; simpl in Hs.
  - d_cases Hs; try rewrite Hdpc in *; simpl in *;
      repeat split; intros; finish.
  - m_cases Hs; try rewrite Hmpc in *; simpl in *;
      try rewrite Hfev in *;
      repeat split; intros; finish.
  - destruct (dev_step_frame _ Hs) as (_ & Hd & Hm & Hh & Hsf & _).
    unfold ev in *. rewrite Hd, Hm, Hh, Hsf. repeat split; auto.
Qed.

Lemma handshake_inv_reachable : forall r w,
  reachable r w -> handshake_inv w.
Proof.
  intros r. apply reachable_ind_inv.
  - unfold handshake_inv, start; simpl.
    repeat split; intros; try discriminate; auto.
  - exact handshake_inv_step.
Qed.

(** C7. In every world a session can reach, whatever the interleaving:
    [begin_streaming] is at the parser construction of lines 476-477
    only while [headerReadyEvent] is set; when the construction fails
    there, its next six steps, taken in a row, put the read cursor back
    to 0, clear [headerReadyEvent], set [soundFileReadyEvent] and
    return to the wait of line 473; taken one by one with other threads
    in between, line 485 still leaves the cursor at 0, line 487 still
    leaves [headerReadyEvent] clear and line 488 still leaves
    [soundFileReadyEvent] set, and none of them can block; the download
    thread, finding [headerReadyEvent] set at line 531, goes to the
    wait of line 533 and cannot leave it while [soundFileReadyEvent] is
    clear; and it is never inside the critical section of a chunk with
    [headerReadyEvent] set and [soundFileReadyEvent] clear. *)
Theorem C7_header_handshake : forall r w,
  reachable r w ->
  (m_constructing (m_pc (mn w)) = true -> headerReadyEvent (ev w) = true)
  /\ (m_pc (mn w) = M477 -> fst (sf_open C (file w)) = None ->
      exists w',
        run (repeat TMain 6) w = Some w'
        /\ m_pc (mn w') = M473
        /\ BytesIO.cur (file w') = 0
        /\ headerReadyEvent (ev w') = false
        /\ soundFileReadyEvent (ev w') = true)
  /\ (m_pc (mn w) = M485 ->
      exists w', m_step w = Some w' /\ BytesIO.cur (file w') = 0)
  /\ (m_pc (mn w) = M487 ->
      exists w', m_step w = Some w' /\ headerReadyEvent (ev w') = false)
  /\ (m_pc (mn w) = M488 ->
      exists w',
        m_step w = Some w'
        /\ soundFileReadyEvent (ev w') = true /\ m_pc (mn w') = M473)
  /\ (d_pc (dl w) = D531 -> headerReadyEvent (ev w) = true ->
      exists w', d_step w = Some w' /\ d_pc (dl w') = D533)
  /\ (d_pc (dl w) = D533 -> soundFileReadyEvent (ev w) = false ->
      d_step w = None)
  /\ (d_in_append (d_pc (dl w)) = true ->
      headerReadyEvent (ev w) = true -> soundFileReadyEvent (ev w) = true).
Proof.
  intros r w Hreach.
  destruct (handshake_inv_reachable Hreach) as (_ & H2 & _ & _ & H5).
  split; [exact H2|].
  split; [|split; [|split; [|split; [|split; [|split; [|exact H5]]]]]].
  - intros Hpc Hfail. simpl. unfold m_step at 1. rewrite Hpc.
    unfold file in Hfail.
    destruct (sf_open C (file w)) as [[h|] f1] eqn:Hopen;
      unfold file in Hopen; rewrite Hopen in *; [discriminate|].
    simpl. eexists. split; [reflexivity|]. simpl. auto.
  - intros Hpc. unfold m_step. rewrite Hpc.
    eexists. split; reflexivity.
  - intros Hpc. unfold m_step. rewrite Hpc.
    eexists. split; reflexivity.
  - intros Hpc. unfold m_step. rewrite Hpc.
    eexists. split; [reflexivity|]. split; reflexivity.
  - intros Hpc Hh. unfold d_step. rewrite Hpc, Hh.
    eexists. split; [reflexivity|]. reflexivity.
  - intros Hpc Hsf. unfold d_step. now rewrite Hpc, Hsf.
Qed.

(** ** The playback-start latch *)

Lemma starts_app : forall tr1 tr2,
  starts (tr1 ++ tr2) = starts tr1 + starts tr2.
Proof.
  induction tr1 as [|[[|]|b] tr1 IH]; intros tr2; simpl; auto.
Qed.

Lemma pops_app : forall tr1 tr2, pops (tr1 ++ tr2) = pops tr1 ++ pops tr2.
Proof.
  induction tr1 as [|[c|b] tr1 IH]; intros tr2; simpl; auto.
  now rewrite IH.
Qed.

Lemma pop_block_nonempty : forall done q,
  (forall b, In b q -> b <> []) ->
  pop_block done q
  = match q with [] => (None, []) | b :: q' => (Some b, q') end.
Proof.
  intros done [|b q] Hq; simpl; [reflexivity|].
  destruct b as [|x b]; [|reflexivity].
  exfalso. apply (Hq []); simpl; auto.
Qed.

(** What a call of the playback callback does to the queue, the
    history and the latch. *)
Lemma callback_history : forall outdata frames s,
  let s' := snd (_stream_playback_callback outdata frames s) in
  (frames <> _playbackBlockSize -> s' = s)
  /\ (frames = _playbackBlockSize ->
      match pop_block (downloadDoneEvent (_events s)) (_q s) with
      | (None, q') =>
          _q s' = q' /\ trace s' = trace s /\ _events s' = _events s
      | (Some b, q') =>
          _q s' = q'
          /\ trace s'
             = trace s ++ Popped b ::
                 (if playbackStartFired (_events s) then []
                  else [Fired OnPlaybackStart])
          /\ playbackStartFired (_events s') = true
      end).
Proof.
  intros outdata frames s. unfold _stream_playback_callback. split.
  - intros Hne.
    replace (frames =? _playbackBlockSize) with false
      by (symmetry; now apply Nat.eqb_neq).
    reflexivity.
  - intros ->. rewrite Nat.eqb_refl. simpl negb. cbv iota.
    destruct (pop_block (downloadDoneEvent (_events s)) (_q s))
      as [[b|] q']; [|simpl; auto].
    destruct (playbackStartFired (_events s)) eqn:Hf; simpl;
      repeat match goal with
             | |- context [match ?x with _ => _ end] => destruct x eqn:?
             end; simpl; rewrite ?Hf; repeat split; auto;
      now rewrite <- app_assoc.
Qed.

Lemma trace_ok_end : forall fired tr,
  trace_ok fired tr -> trace_ok fired (tr ++ [Fired OnPlaybackEnd]).
Proof.
  intros [|] tr; unfold trace_ok.
  - intros (pre & b & post & -> & Hp & Hs & Hpost).
    exists pre, b, (post ++ [Fired OnPlaybackEnd]).
    repeat split; auto.
    + now rewrite <- app_assoc.
    + rewrite starts_app, Hpost. reflexivity.
  - intros [Hp Hs]. rewrite pops_app, starts_app, Hp, Hs. auto.
Qed.

Lemma trace_ok_popped : forall fired tr b,
  trace_ok fired tr ->
  trace_ok true
           (tr ++ Popped b ::
              (if fired then [] else [Fired OnPlaybackStart])).
Proof.
  intros [|] tr b; unfold trace_ok.
  - intros (pre & b0 & post & -> & Hp & Hs & Hpost).
    exists pre, b0, (post ++ [Popped b]).
    repeat split; auto.
    + now rewrite <- app_assoc.
    + rewrite starts_app, Hpost. reflexivity.
  - intros [Hp Hs]. exists tr, b, []. auto.
Qed.

Section NonEmptyBlocks.

Hypothesis block_size_pos : 0 < _playbackBlockSize.
Hypothesis channels_pos :
  forall f h f', sf_open C f = (Some h, f') -> 0 < channels C h.

Lemma playback_inv_step : forall w t w',
  playback_inv w -> step t w = Some w' -> playback_inv w'.
Proof.
  intros w t w' (H1 & H2 & H3 & H4 & H5 & H6 & H7) Hs.
  unfold playback_inv.
  destruct t; simpl in Hs.
  - d_cases Hs; repeat split; intros; finish.
  - m_cases Hs; try rewrite Hmpc in *; simpl in *;
      try rewrite Hfev in *; try rewrite Hfq in *;
      try rewrite Hftr in *; try rewrite Hffs in *;
      repeat split; intros; finish;
      try (match goal with
           | Hnil : trace _ = [] |- _ => rewrite Hnil; reflexivity
           end);
      try (apply trace_ok_end; assumption).
    + (* 477: the parser was constructed *)
      subst. eexists. split; [reflexivity|].
      eapply channels_pos. eassumption.
    + (* 479 *)
      destruct H5 as (h & Hh & Hpos).
      assert (h = s) by congruence. subst h.
      unfold sizeof_defaultDType. lia.
    + (* 498: a block of the expected size is not empty *)
      apply Nat.eqb_eq in Heqb. intros Hnil. rewrite Hnil in Heqb.
      simpl in Heqb. symmetry in Heqb.
      apply Nat.eq_mul_0 in Heqb. lia.
    + (* 500 *)
      apply in_app_or in H. destruct H as [H | [<- | []]]; auto.
    + (* 510 *)
      apply in_app_or in H. destruct H as [H | [<- | []]];
        [auto | discriminate].
    + (* 520 *)
      rewrite pops_app in H. simpl in H. rewrite app_nil_r in H. auto.
  - (* the device *)
    unfold dev_step in Hs.
    destruct (dev w) eqn:Hdev; try discriminate.
    + assert (Hpc : m_pc (mn w) <> M462).
      { intros Hpc. destruct (H1 Hpc). discriminate. }
      pose proof (@pop_block_nonempty
                    (downloadDoneEvent (_events (obj w))) _ H2) as Hpop.
      match type of Hs with
      | context [_stream_playback_callback ?o ?n ?s] =>
          pose proof (callback_history o n s) as [_ Hh];
          pose proof (callback_frame o n s) as (Hfs & Hsf & _ & _);
          specialize (Hh eq_refl);
          destruct (_stream_playback_callback o n s) as [res s1]
      end.
      simpl in Hh, Hfs, Hsf. rewrite Hpop in Hh, Hs.
      assert (Hw' : obj w' = s1 /\ mn w' = mn w /\ dev w' <> Dev_closed).
      { destruct (_q (obj w)) as [|[|x b] q']; destruct res;
          simpl in Hs; try (injection Hs as <-; simpl; rewrite ?Hdev;
                            repeat split; auto; discriminate).
        - exfalso. apply (H2 []); simpl; auto.
        - exfalso. apply (H2 []); simpl; auto. }
      destruct Hw' as (Hobj & Hmn & Hdev'). unfold ev.
      rewrite Hobj, Hmn, Hfs, Hsf.
      destruct (_q (obj w)) as [|b q'] eqn:Hq.
      * destruct Hh as (Hq' & Htr & Hev). rewrite Hq', Htr, Hev.
        repeat split; auto; try (intros; contradiction).
      * destruct Hh as (Hq' & Htr & Hfired). rewrite Hq', Htr, Hfired.
        assert (Hb : b <> []) by (apply H2; simpl; auto).
        repeat split; auto; try (intros; contradiction).
        -- intros b' Hin. apply H2. simpl. auto.
        -- intros b' Hin. rewrite pops_app in Hin.
           apply in_app_or in Hin. destruct Hin as [Hin | Hin]; auto.
           simpl in Hin. destruct Hin as [<- | Hin]; auto.
           destruct (playbackStartFired (_events (obj w)));
             simpl in Hin; contradiction.
        -- apply trace_ok_popped. exact H7.
    + assert (Hpc : m_pc (mn w) <> M462).
      { intros Hpc. destruct (H1 Hpc). discriminate. }
      injection Hs as <-. world_simpl.
      repeat split; auto; try (intros; contradiction).
Qed.

Lemma playback_inv_reachable : forall r w,
  reachable r w -> playback_inv w.
Proof.
  intros r. apply reachable_ind_inv.
  - unfold playback_inv, start, trace_ok; simpl.
    repeat split; intros; try discriminate; auto; contradiction.
  - exact playback_inv_step.
Qed.

(** C4. In every world a session can reach, provided a playback block
    has at least one frame and the codec reports at least one channel:
    as long as the playback callback has taken no block off the queue,
    [onPlaybackStart] has not been called; once it has taken one,
    [onPlaybackStart] has been called exactly once, and that call comes
    right after the first block was taken; and no block the callback
    takes is empty. *)
Theorem C4_playback_start_once : forall r w,
  reachable r w ->
  let tr := trace (obj w) in
  (pops tr = [] -> starts tr = 0)
  /\ (pops tr <> [] ->
      starts tr = 1
      /\ exists pre b post,
           tr = pre ++ Popped b :: Fired OnPlaybackStart :: post
           /\ pops pre = [] /\ starts pre = 0 /\ starts post = 0
           /\ b <> [])
  /\ (forall b, In b (pops tr) -> b <> []).
Proof.
  intros r w Hreach tr. subst tr.
  destruct (playback_inv_reachable Hreach) as (_ & _ & H3 & _ & _ & _ & H7).
  split; [|split; [|exact H3]].
  - unfold trace_ok in H7.
    destruct (playbackStartFired (ev w)).
    + destruct H7 as (pre & b & post & Htr & _). rewrite Htr.
      rewrite pops_app. simpl. intros Hnil.
      apply app_eq_nil in Hnil. destruct Hnil; discriminate.
    + destruct H7 as [_ Hs]. auto.
  - unfold trace_ok in H7.
    destruct (playbackStartFired (ev w)).
    + destruct H7 as (pre & b & post & Htr & Hp & Hs & Hpost).
      intros _. split.
      * rewrite Htr, starts_app. simpl. rewrite Hs, Hpost. reflexivity.
      * exists pre, b, post. repeat split; auto.
        apply H3. rewrite Htr, pops_app. simpl.
        apply in_or_app. right. simpl. auto.
    + destruct H7 as [Hp _]. intros Hne. contradiction.
Qed.

End NonEmptyBlocks.

(** ** The methods inside a session

    Run without another thread in between, the statements of a thread
    add up to the method of the sequential layer. *)

Ltac link_done := eexists; split; [reflexivity | repeat split; reflexivity].

Lemma d_critical_section : forall w,
  d_pc (dl w) = D544 ->
  exists n w',
    run (repeat TDownload n) w = Some w'
    /\ d_pc (dl w') = D_release
    /\ obj w' = downloader_write (d_chunk (dl w)) (obj w).
Proof.
  intros [[q [buf cur] sf fs e tr] l [dpc ok rest chunk lrp ep] m dv] Hpc.
  simpl in Hpc. subst dpc. unfold downloader_write. cbn.
  destruct (headerReadyEvent e) eqn:Hh; cbn.
  - match goal with
    | |- context [if ?c then _ else _] => destruct c eqn:Hthr
    end.
    + exists 8. cbn. rewrite Hh. cbn. rewrite Hthr. cbn. link_done.
    + exists 7. cbn. rewrite Hh. cbn. rewrite Hthr. cbn. link_done.
  - exists 5. cbn. rewrite Hh. cbn. link_done.
Qed.

Lemma d_finish : forall w,
  d_pc (dl w) = D562 ->
  exists w',
    run (repeat TDownload 2) w = Some w'
    /\ d_pc (dl w') = D_done
    /\ obj w' = downloader_finish (obj w).
Proof.
  intros [[q f sf fs e tr] l [dpc ok rest chunk lrp ep] m dv] Hpc.
  simpl in Hpc. subst dpc. cbn. link_done.
Qed.

Lemma m_attempt : forall w,
  m_pc (mn w) = M477 ->
  exists n w',
    run (repeat TMain n) w = Some w'
    /\ obj w' = snd (construct_attempt (obj w))
    /\ m_pc (mn w')
       = if fst (construct_attempt (obj w)) then M490 else M473.
Proof.
  intros [[q f sf fs e tr] l d [mpc data rem cp endp crit] dv] Hpc.
  simpl in Hpc. subst mpc. unfold construct_attempt. cbn.
  destruct (sf_open C f) as [[h|] f1] eqn:Hopen.
  - exists 4. cbn. rewrite Hopen. cbn. link_done.
  - exists 6. cbn. rewrite Hopen. cbn. link_done.
Qed.

Lemma m_reader : forall w,
  m_pc (mn w) = M640 ->
  match _get_data_from_download_thread (obj w) with
  | (Ret readData, s1) =>
      exists n w',
        run (repeat TMain n) w = Some w'
        /\ m_pc (mn w') = M660
        /\ obj w' = s1
        /\ m_data (mn w') = readData
  | (Raise e, s1) =>
      exists w',
        m_step w = Some w' /\ m_pc (mn w') = M_raised e /\ obj w' = s1
  end.
Proof.
  intros [s l d [mpc data rem cp endp crit] dv] Hpc.
  simpl in Hpc. subst mpc.
  unfold _get_data_from_download_thread. cbn.
  destruct (_soundFile_read_and_fix _playbackBlockSize s)
    as [[rd | e] [q1 [buf1 cur1] sf1 fs1 e1 tr1]] eqn:Hfix.
  - unfold mark_available. cbn.
    match goal with
    | |- context [if ?c then _ else _] => destruct c eqn:Hc
    end.
    + exists 4. cbn. unfold m_step at 1. cbn. rewrite ?Hfix. cbn.
      rewrite Hc. cbn. link_done.
    + exists 3. cbn. unfold m_step at 1. cbn. rewrite ?Hfix. cbn.
      rewrite Hc. cbn. link_done.
  - destruct e;
      try (unfold m_step; cbn; rewrite ?Hfix; cbn; link_done).
    unfold mark_available. cbn.
    match goal with
    | |- context [if ?c then _ else _] => destruct c eqn:Hc
    end.
    + exists 4. cbn. unfold m_step at 1. cbn. rewrite ?Hfix. cbn.
      rewrite Hc. cbn. link_done.
    + exists 3. cbn. unfold m_step at 1. cbn. rewrite ?Hfix. cbn.
      rewrite Hc. cbn. link_done.
Qed.

Lemma m_feed_turn : forall w,
  m_pc (mn w) = M498 ->
  lock w = None ->
  exists n w',
    run (repeat TMain n) w = Some w'
    /\ obj w' = snd (feed_iteration (m_data (mn w)) (obj w))
    /\ m_pc (mn w')
       = (if loop_goes_on (fst (feed_iteration (m_data (mn w)) (obj w)))
          then M637 else M519)
    /\ lock w' = None.
Proof.
  intros [[q [buf cur] sf fs e tr] l d [mpc data rem cp endp crit] dv]
         Hpc Hlock.
  simpl in Hpc, Hlock. subst mpc l. unfold feed_iteration. cbn.
  destruct (length data =? _playbackBlockSize * fs) eqn:Hlen; cbn.
  - exists 2. cbn. rewrite Hlen. cbn. link_done.
  - destruct ((length buf =? cur) && downloadDoneEvent e) eqn:Hend; cbn.
    + exists 6. cbn. rewrite Hlen. cbn. rewrite Hend. cbn.
      destruct data; link_done.
    + exists 5. cbn. rewrite Hlen. cbn. rewrite Hend. cbn. link_done.
Qed.

(** ** [blockDataAvailable] *)

(** The flag is cleared by the reset and at line 656 only. *)
Lemma block_cleared_only_by_reader : forall w t w',
  step t w = Some w' ->
  blockDataAvailable (ev w) = true ->
  blockDataAvailable (ev w') = false ->
  t = TMain /\ (m_pc (mn w) = M462 \/ m_pc (mn w) = M656).
Proof.
  intros w t w' Hs Hset Hclear.
  destruct t; simpl in Hs.
  - d_cases Hs; congruence.
  - split; [reflexivity|].
    m_cases Hs; try rewrite Hfev in *; auto;
      try (destruct (m_data (mn w)); simpl in *); congruence.
  - destruct (dev_step_frame _ Hs) as (_ & _ & _ & _ & _ & _ & Hb & _).
    congruence.
Qed.

Lemma starved_step : forall w t w',
  starved w -> step t w = Some w' -> starved w'.
Proof.
  intros w t w' (Hm & Hb & Hd) Hs. unfold starved.
  destruct t; simpl in Hs.
  - unfold d_step in Hs. rewrite Hd in Hs. discriminate.
  - unfold m_step in Hs. rewrite Hm, Hb in Hs. discriminate.
  - destruct (dev_step_frame _ Hs) as (_ & Hdl & Hmn & _ & _ & _ & Hblk & _).
    rewrite Hdl, Hmn, Hblk. auto.
Qed.

Lemma starved_forever : forall w w',
  starved w -> reachable_from w w' -> starved w'.
Proof.
  intros w w' Hst. revert w'. apply reachable_ind_inv; [exact Hst|].
  exact starved_step.
Qed.

(** ** The end of playback *)

Lemma ends_app : forall tr1 tr2, ends (tr1 ++ tr2) = ends tr1 + ends tr2.
Proof.
  induction tr1 as [|[[|]|b] tr1 IH]; intros tr2; simpl; auto.
Qed.

(** What a step of the device does to the history and the events. *)
Lemma dev_step_history : forall w w',
  dev_step w = Some w' ->
  (dev w = Dev_active
   /\ ends (trace (obj w')) = ends (trace (obj w))
   /\ (exists tl, trace (obj w') = trace (obj w) ++ tl)
   /\ playbackFinishedEvent (ev w') = playbackFinishedEvent (ev w)
   /\ (dev w' = Dev_active \/ dev w' = Dev_stopping))
  \/ (dev w = Dev_stopping
      /\ trace (obj w') = trace (obj w)
      /\ playbackFinishedEvent (ev w') = true
      /\ dev w' = Dev_finished).
Proof.
  intros w w' Hs. unfold dev_step in Hs.
  destruct (dev w) eqn:Hdev; try discriminate.
  - left. split; [reflexivity|].
    match type of Hs with
    | context [_stream_playback_callback ?o ?n ?s] =>
        pose proof (callback_history o n s) as [_ Hh];
        pose proof (callback_frame o n s) as (_ & _ & _ & Hev);
        specialize (Hh eq_refl);
        destruct (_stream_playback_callback o n s) as [res s1]
    end.
    simpl in Hh, Hev.
    assert (Hw' : obj w' = s1 /\ (dev w' = Dev_active \/ dev w' = Dev_stopping)).
    { destruct res; break_step Hs; simpl; rewrite ?Hdev; auto. }
    destruct Hw' as [Hobj Hdev']. unfold ev. rewrite Hobj.
    assert (Hfin : playbackFinishedEvent (_events s1)
                   = playbackFinishedEvent (_events (obj w)))
      by (rewrite Hev; reflexivity).
    destruct (pop_block (downloadDoneEvent (_events (obj w))) (_q (obj w)))
      as [[b|] q'].
    + destruct Hh as (_ & Htr & _). rewrite Htr, ends_app.
      repeat split; auto.
      * destruct (playbackStartFired (_events (obj w))); simpl; lia.
      * eexists. reflexivity.
    + destruct Hh as (_ & Htr & _). rewrite Htr.
      repeat split; auto. exists []. now rewrite app_nil_r.
  - right. injection Hs as <-. world_simpl. auto.
Qed.

Ltac finish_or :=
  finish;
  repeat match goal with
         | H : _ \/ _ |- _ => destruct H
         end;
  try discriminate; try congruence; auto.

Lemma end_inv_step : forall w t w',
  end_inv w -> step t w = Some w' -> end_inv w'.
Proof.
  intros w t w' (H1 & H0 & H2 & H3 & H4 & H5 & H6) Hs.
  unfold end_inv.
  destruct t; simpl in Hs.
  - d_cases Hs; repeat split; intros; finish_or.
  - m_cases Hs; try rewrite Hmpc in *; simpl in *;
      try rewrite Hfev in *; try rewrite Hftr in *;
      repeat split; intros; finish_or;
      try (match goal with
           | Hnil : trace _ = [] |- _ => rewrite Hnil; reflexivity
           end).
    eexists. split; [reflexivity | assumption].
  - assert (Hsame : dl w' = dl w /\ mn w' = mn w).
    { destruct (dev_step_frame _ Hs) as (_ & Hd & Hm & _). auto. }
    destruct Hsame as [_ Hmn]. rewrite Hmn.
    destruct (dev_step_history _ Hs)
      as [(Hdev & Hends & (tl & Htl) & Hfin & Hdev')
         | (Hdev & Htr & Hfin & Hdev')].
    + assert (Hpc : m_before_stream (m_pc (mn w)) = false).
      { destruct (m_before_stream (m_pc (mn w))); [|reflexivity].
        rewrite H0 in Hdev by reflexivity. discriminate. }
      assert (Hnot : playbackFinishedEvent (ev w) = false).
      { destruct (playbackFinishedEvent (ev w)); [|reflexivity].
        destruct (H5 eq_refl) as [Hf | Hdone].
        - rewrite Hf in Hdev. discriminate.
        - rewrite (H6 Hdone) in Hdev. discriminate. }
      assert (Hwait : m_past_wait (m_pc (mn w)) = false).
      { destruct (m_past_wait (m_pc (mn w))); [|reflexivity].
        rewrite H4 in Hnot by reflexivity. discriminate. }
      assert (Hafter : m_after_end (m_pc (mn w)) = false).
      { destruct (m_pc (mn w)); try reflexivity; discriminate. }
      rewrite Hends, Hfin, Hnot, Hpc, Hwait, Hafter.
      repeat split; intros; try discriminate; auto.
      * destruct (m_pc (mn w)); discriminate.
      * destruct (m_pc (mn w)); discriminate.
    + rewrite Htr, Hfin, Hdev'.
      repeat split; auto.
      * intros Hpc. rewrite H0 in Hdev by exact Hpc. discriminate.
      * intros Hpc. rewrite (H6 Hpc) in Hdev. discriminate.
Qed.

Lemma end_inv_reachable : forall r w, reachable r w -> end_inv w.
Proof.
  intros r. apply reachable_ind_inv.
  - unfold end_inv, start; simpl.
    repeat split; intros; try discriminate; auto.
  - exact end_inv_step.
Qed.

(** X1. In every world a session can reach, [onPlaybackEnd] has been
    called at most once; it has been called exactly when
    [begin_streaming] is past line 520; when it has been called the
    device's finished callback had set [playbackFinishedEvent] before,
    and the call is the last thing the session was seen to do; and
    when [begin_streaming] has returned it has been called. *)
Theorem X1_playback_end_once : forall r w,
  reachable r w ->
  ends (trace (obj w)) <= 1
  /\ (ends (trace (obj w)) = 1 <-> m_after_end (m_pc (mn w)) = true)
  /\ (ends (trace (obj w)) = 1 ->
      playbackFinishedEvent (ev w) = true
      /\ exists pre,
           trace (obj w) = pre ++ [Fired OnPlaybackEnd] /\ ends pre = 0)
  /\ (m_pc (mn w) = M_done -> ends (trace (obj w)) = 1).
Proof.
  intros r w Hreach.
  destruct (end_inv_reachable Hreach) as (_ & _ & H2 & H3 & H4 & _ & _).
  assert (Hone : m_after_end (m_pc (mn w)) = true ->
                 ends (trace (obj w)) = 1).
  { intros Ha. destruct (H3 Ha) as (pre & -> & Hpre).
    rewrite ends_app, Hpre. reflexivity. }
  destruct (m_after_end (m_pc (mn w))) eqn:Ha.
  - rewrite (Hone eq_refl). repeat split; auto.
    apply H4. destruct (m_pc (mn w)); try discriminate; reflexivity.
  - rewrite (H2 eq_refl). repeat split; intros; try discriminate; try lia.
    rewrite H in Ha. discriminate.
Qed.

(** ** The lock *)

Lemma mutex_inv_step : forall w t w',
  mutex_inv w -> step t w = Some w' -> mutex_inv w'.
Proof.
  intros w t w' (H0 & H1 & H2 & H3 & H4 & H5) Hs.
  unfold mutex_inv.
  destruct t; simpl in Hs.
  - d_cases Hs; try rewrite Hdpc in *; simpl in *;
      repeat split; intros; finish_or.
  - m_cases Hs; try rewrite Hmpc in *; simpl in *;
      repeat split; intros; finish_or.
    rewrite H0 in H3. discriminate.
  - destruct (dev_step_frame _ Hs) as (Hl & Hd & Hm & _).
    rewrite Hl, Hd, Hm. repeat split; auto.
Qed.

Lemma mutex_inv_reachable : forall r w, reachable r w -> mutex_inv w.
Proof.
  intros r. apply reachable_ind_inv.
  - unfold mutex_inv, start; simpl.
    repeat split; intros; try discriminate; auto.
  - exact mutex_inv_step.
Qed.

(** X2. In every world a session can reach, [_bytesLock] is held by the
    download thread exactly while that thread is between lines 544 and
    559, it is held by the thread of [begin_streaming] whenever that
    thread is inside one of its [with self._bytesLock] regions or
    between [acquire] and [release] of the reader, and the two threads
    are never inside such regions at the same time. *)
Theorem X2_lock_excludes : forall r w,
  reachable r w ->
  (d_holds_lock (d_pc (dl w)) = true <-> lock w = Some TDownload)
  /\ (m_holds_lock (m_pc (mn w)) = true -> lock w = Some TMain)
  /\ ~ (d_holds_lock (d_pc (dl w)) = true
        /\ m_holds_lock (m_pc (mn w)) = true).
Proof.
  intros r w Hreach.
  destruct (mutex_inv_reachable Hreach) as (_ & H1 & H2 & H3 & _ & _).
  split; [split; auto|]. split; [exact H2|].
  intros [Hd Hm]. rewrite (H1 Hd) in H2. specialize (H2 Hm). discriminate.
Qed.

Lemma lock_leaked_step : forall e w t w',
  lock_leaked e w -> step t w = Some w' -> lock_leaked e w'.
Proof.
  intros e w t w' (Hpc & Hl & Hd) Hs. unfold lock_leaked.
  destruct t; simpl in Hs.
  - d_cases Hs; try discriminate Hd; try congruence;
      repeat split; auto; finish.
  - unfold m_step in Hs. rewrite Hpc in Hs. discriminate.
  - destruct (dev_step_frame _ Hs) as (Hl' & Hd' & Hm & _).
    rewrite Hl', Hm, Hd'. auto.
Qed.

(** X3. When [_soundFile_read_and_fix] raises anything but
    [AssertionError] (the parser could not be re-created), the
    exception leaves [_get_data_from_download_thread] between its
    [acquire] and its [release]: [begin_streaming] has raised with
    [_bytesLock] held, nothing releases it any more, and the download
    thread can never again pass the [with self._bytesLock] of line
    543. *)
Theorem X3_reader_exception_keeps_lock : forall w e,
  m_pc (mn w) = M640 ->
  lock w = Some TMain ->
  d_holds_lock (d_pc (dl w)) = false ->
  fst (_soundFile_read_and_fix _playbackBlockSize (obj w)) = Raise e ->
  e <> AssertionError ->
  exists w1,
    m_step w = Some w1
    /\ fst (_get_data_from_download_thread (obj w)) = Raise e
    /\ forall w',
         reachable_from w1 w' ->
         m_pc (mn w') = M_raised e
         /\ lock w' = Some TMain
         /\ (d_pc (dl w') = D543 -> d_step w' = None).
Proof.
  intros w e Hpc Hl Hd Hfix Hne.
  destruct (_soundFile_read_and_fix _playbackBlockSize (obj w))
    as [o s1] eqn:Hrf.
  simpl in Hfix. subst o.
  exists (m_at (M_raised e) (on_obj (fun _ => s1) w)).
  split; [|split].
  - unfold m_step. rewrite Hpc, Hrf.
    destruct e; try reflexivity. contradiction.
  - unfold _get_data_from_download_thread. rewrite Hrf.
    destruct e; try reflexivity. contradiction.
  - intros w' Hreach.
    assert (Hleak : lock_leaked e w').
    { revert w' Hreach. apply reachable_ind_inv.
      - repeat split; [exact Hl | exact Hd].
      - apply lock_leaked_step. }
    destruct Hleak as (Hpc' & Hl' & _). repeat split; auto.
    intros Hd'. unfold d_step. now rewrite Hd', Hl'.
Qed.

(** ** Sessions that never start playing *)



Section Unparsable.

Hypothesis never_opens : forall f, fst (sf_open C f) = None.

Lemma unparsable_inv_step : forall w t w',
  unparsable_inv w -> step t w = Some w' -> unparsable_inv w'.
Proof.
  intros w t w' (Hm & Htr & Hdev & Hq & Hsf & Hfin) Hs.
  unfold unparsable_inv.
  destruct t; simpl in Hs.
  - d_cases Hs; repeat split; auto.
  - unfold m_step in Hs.
    destruct (m_pc (mn w)) eqn:Hmpc; try discriminate Hm.
    + injection Hs as <-. world_simpl. repeat split; auto.
    + injection Hs as <-. world_simpl. repeat split; auto.
    + break_step Hs. world_simpl. repeat split; auto.
    + break_step Hs. world_simpl. repeat split; auto.
    + pose proof (never_opens (file w)) as Hno.
      destruct (sf_open C (file w)) as [[h|] f1]; [discriminate Hno|].
      injection Hs as <-. world_simpl. repeat split; auto.
    + injection Hs as <-. world_simpl. repeat split; auto.
    + injection Hs as <-. world_simpl. repeat split; auto.
    + injection Hs as <-. world_simpl. repeat split; auto.
    + injection Hs as <-. world_simpl. repeat split; auto.
    + injection Hs as <-. world_simpl. repeat split; auto.
  - unfold dev_step in Hs. rewrite Hdev in Hs. discriminate.
Qed.

(** X5. When no state of the buffer lets the codec construct a parser,
    [begin_streaming] never leaves its header loop: it opens no output
    stream, queues no block, calls no user callback, and neither
    returns nor raises, however much is downloaded. *)
Theorem X5_unparsable_never_plays : forall r w,
  reachable r w ->
  m_in_header_loop (m_pc (mn w)) = true
  /\ m_pc (mn w) <> M_done
  /\ (forall e, m_pc (mn w) <> M_raised e)
  /\ trace (obj w) = []
  /\ dev w = Dev_closed
  /\ _q (obj w) = [].
Proof.
  intros r w Hreach.
  assert (Hinv : unparsable_inv w).
  { revert w Hreach. apply reachable_ind_inv.
    - unfold unparsable_inv, start. simpl. repeat split; auto.
    - exact unparsable_inv_step. }
  destruct Hinv as (Hm & Htr & Hdev & Hq & _ & _).
  repeat split; auto; intros; intros Hpc; rewrite Hpc in Hm; discriminate.
Qed.

End Unparsable.

(** ** The queue and the callback, case by case *)

Lemma pop_block_some : forall done q b q',
  pop_block done q = (Some b, q') ->
  exists skipped,
    q = skipped ++ b :: q'
    /\ Forall (fun x => x = []) skipped
    /\ (done = true -> skipped = [])
    /\ (done = false -> b <> []).
Proof.
  intros done q. induction q as [|x q IH]; intros b q' Hpop; simpl in Hpop.
  - discriminate.
  - destruct ((length x =? 0) && negb done) eqn:Hskip.
    + apply andb_true_iff in Hskip. destruct Hskip as [Hx Hd].
      apply Nat.eqb_eq in Hx. apply length_zero_iff_nil in Hx.
      apply negb_true_iff in Hd. subst x done.
      destruct (IH _ _ Hpop) as (sk & Hq & Hall & _ & Hb).
      exists ([] :: sk). subst q. repeat split; auto.
      discriminate.
    + injection Hpop as <- <-. exists []. repeat split; auto.
      intros ->. simpl in Hskip. rewrite andb_true_r in Hskip.
      apply Nat.eqb_neq in Hskip. intros ->. now apply Hskip.
Qed.

Lemma pop_block_none : forall done q q',
  pop_block done q = (None, q') <->
  q' = [] /\ Forall (fun x => x = []) q /\ (done = true -> q = []).
Proof.
  intros done q. induction q as [|x q IH]; intros q'; simpl.
  - split.
    + intros Heq. injection Heq as <-. auto.
    + intros (-> & _). reflexivity.
  - destruct ((length x =? 0) && negb done) eqn:Hskip.
    + apply andb_true_iff in Hskip. destruct Hskip as [Hx Hd].
      apply Nat.eqb_eq in Hx. apply length_zero_iff_nil in Hx.
      apply negb_true_iff in Hd. subst x done.
      rewrite IH. split.
      * intros (-> & Hall & _). repeat split; auto. discriminate.
      * intros (-> & Hall & _). inversion Hall. repeat split; auto.
        discriminate.
    + split; [discriminate|].
      intros (_ & Hall & Hd). exfalso.
      inversion Hall as [|? ? Hx _]. subst x. simpl in Hskip.
      destruct done; [|discriminate]. now specialize (Hd eq_refl).
Qed.

(** X6. What the callback takes off the queue (lines 569-575) is the
    first item that is not empty, or simply the first item once the
    download is over: the items before it were all empty and are
    dropped, those after it stay in their order; an empty item is only
    ever handed on when [downloadDoneEvent] is set. *)
Theorem X6_queue_get_order : forall done q b q',
  pop_block done q = (Some b, q') ->
  exists skipped,
    q = skipped ++ b :: q'
    /\ Forall (fun x => x = []) skipped
    /\ (done = true -> skipped = [])
    /\ (b = [] -> done = true).
Proof.
  intros done q b q' Hpop.
  destruct (pop_block_some _ _ Hpop) as (sk & Hq & Hall & Hd & Hb).
  exists sk. repeat split; auto.
  intros ->. destruct done; [reflexivity|]. now elim (Hb eq_refl).
Qed.

(** X7. Called with [frames == _playbackBlockSize], the callback
    returns normally exactly when the queue yields a block no longer
    than the output buffer, an empty block counting only while the
    cursor of the shared file is not at its end; the buffer then holds
    the block followed by zeros up to its size. *)
Theorem X7_callback_output : forall outdata s out,
  fst (_stream_playback_callback outdata _playbackBlockSize s) = Ret out
  <->
  exists readData q',
    pop_block (downloadDoneEvent (_events s)) (_q s) = (Some readData, q')
    /\ length readData <= length outdata
    /\ (readData = [] ->
        BytesIO.cur (_bytesFile s) <> length (BytesIO.buf (_bytesFile s)))
    /\ out = readData ++ repeat x00 (length outdata - length readData).
Proof.
  intros outdata s out. unfold _stream_playback_callback.
  rewrite Nat.eqb_refl. simpl negb. cbv iota.
  destruct (pop_block (downloadDoneEvent (_events s)) (_q s))
    as [[readData|] q'] eqn:Hpop.
  2:{ simpl. split; [discriminate|].
      intros (b & q2 & Heq & _). discriminate. }
  assert (Hdone : readData = [] -> downloadDoneEvent (_events s) = true).
  { intros ->.
    destruct (pop_block_some _ _ Hpop) as (_ & _ & _ & _ & Hb).
    destruct (downloadDoneEvent (_events s)); [reflexivity|].
    now elim (Hb eq_refl). }
  cbv zeta.
  match goal with
  | |- context [if negb ?c then ?a else ?b] =>
      set (s2 := if negb c then a else b)
  end.
  assert (Hev : downloadDoneEvent (_events s2)
                = downloadDoneEvent (_events s))
    by (subst s2; destruct (negb _); reflexivity).
  assert (Hf : _bytesFile s2 = _bytesFile s)
    by (subst s2; destruct (negb _); reflexivity).
  clearbody s2.
  destruct ((0 <? length readData) && (length readData <? length outdata))
    eqn:Hshort.
  - apply andb_true_iff in Hshort. destruct Hshort as [H0 HB].
    apply Nat.ltb_lt in H0, HB.
    rewrite slice_assign_prefix by lia.
    assert (Hlen1 : length (readData ++ skipn (length readData) outdata)
                    = length outdata)
      by (rewrite length_app, length_skipn; lia).
    rewrite <- Hlen1 at 1.
    rewrite slice_assign_suffix
      by (rewrite ?repeat_length, Hlen1; lia).
    rewrite firstn_app, Nat.sub_diag, firstn_all. simpl.
    rewrite app_nil_r.
    split.
    + intros Heq. injection Heq as <-.
      exists readData, q'. repeat split; auto; [lia|].
      intros ->. simpl in H0. lia.
    + intros (b & q2 & Heq & _ & _ & ->). injection Heq as <- <-.
      reflexivity.
  - destruct (length readData =? 0) eqn:HL.
    + apply Nat.eqb_eq in HL. apply length_zero_iff_nil in HL. subst readData.
      specialize (Hdone eq_refl).
      change (downloadDoneEvent
                (_events (put_bytesFile (BytesIO.seek_end (_bytesFile s2)) s2)))
        with (downloadDoneEvent (_events s2)).
      rewrite Hev, Hdone, andb_true_r, Hf.
      unfold BytesIO.tell, BytesIO.seek_end. simpl BytesIO.cur.
      change (length (@nil byte)) with 0.
      destruct (BytesIO.cur (_bytesFile s)
                =? length (BytesIO.buf (_bytesFile s))) eqn:Hend.
      * apply Nat.eqb_eq in Hend. simpl. split; [discriminate|].
        intros (b & q2 & Heq & _ & Hne & _). injection Heq as <- <-.
        now elim (Hne eq_refl).
      * apply Nat.eqb_neq in Hend.
        rewrite slice_assign_suffix by (rewrite ?repeat_length; lia).
        simpl. rewrite Nat.sub_0_r. split.
        -- intros Heq. injection Heq as <-.
           exists [], q'. split; [reflexivity|]. split; [simpl; lia|].
           split; [intros _; exact Hend|].
           simpl. now rewrite ?Nat.sub_0_r.
        -- intros (b & q2 & Heq & _ & _ & ->). injection Heq as <- <-.
           simpl. now rewrite ?Nat.sub_0_r.
    + apply Nat.eqb_neq in HL.
      assert (HB : length outdata <= length readData).
      { apply andb_false_iff in Hshort. destruct Hshort as [H | H];
          apply Nat.ltb_ge in H; lia. }
      unfold slice_assign. rewrite Nat.min_id, Nat.sub_0_r.
      destruct (length readData =? length outdata) eqn:Heq.
      * apply Nat.eqb_eq in Heq. simpl.
        rewrite skipn_all, app_nil_r.
        assert (Hpad : readData
                       = readData
                         ++ repeat x00 (length outdata - length readData)).
        { rewrite Heq, Nat.sub_diag. simpl. now rewrite app_nil_r. }
        split.
        -- intros H. injection H as <-.
           exists readData, q'. repeat split; auto; [lia|].
           intros ->. now elim HL.
        -- intros (b & q2 & H & _ & _ & ->). injection H as <- <-.
           now rewrite <- Hpad.
      * apply Nat.eqb_neq in Heq. simpl. split; [discriminate|].
        intros (b & q2 & H & Hle & _). injection H as <- <-. lia.
Qed.

(** X8. The callback raises [CallbackAbort] exactly when the download
    is not over and the queue holds nothing but empty items, and
    [CallbackStop] exactly when the download is over and either the
    queue is empty or its first item is empty with the cursor of the
    shared file at its end.  Either way nothing is left on the queue
    but what followed the item taken. *)
Theorem X8_callback_stop_or_abort : forall outdata s,
  let r := _stream_playback_callback outdata _playbackBlockSize s in
  let done := downloadDoneEvent (_events s) in
  (fst r = Raise CallbackAbort <->
   done = false /\ Forall (fun b => b = []) (_q s))
  /\ (fst r = Raise CallbackStop <->
      done = true
      /\ (_q s = []
          \/ exists q', _q s = [] :: q'
               /\ BytesIO.cur (_bytesFile s)
                  = length (BytesIO.buf (_bytesFile s))))
  /\ (fst r = Raise CallbackAbort -> _q (snd r) = []).
Proof.
  intros outdata s. cbv zeta. unfold _stream_playback_callback.
  rewrite Nat.eqb_refl. simpl negb. cbv iota.
  destruct (pop_block (downloadDoneEvent (_events s)) (_q s))
    as [[readData|] q'] eqn:Hpop.
  2:{ apply pop_block_none in Hpop. destruct Hpop as (-> & Hall & Hq).
      simpl. destruct (downloadDoneEvent (_events s)).
      - split; [|split]; [split; [discriminate|intros [? _]; discriminate]
                         | | discriminate].
        split; auto.
      - split; [|split]; [split; auto | | reflexivity].
        split; [discriminate|intros [? _]; discriminate]. }
  destruct (pop_block_some _ _ Hpop) as (sk & Hq & Hall & Hsk & Hb).
  match goal with
  | |- context [if negb ?c then ?a else ?b] =>
      set (s2 := if negb c then a else b)
  end.
  assert (Hev : downloadDoneEvent (_events s2)
                = downloadDoneEvent (_events s))
    by (subst s2; destruct (negb _); reflexivity).
  assert (Hf : _bytesFile s2 = _bytesFile s)
    by (subst s2; destruct (negb _); reflexivity).
  clearbody s2.
  assert (Hno_abort :
            ~ (downloadDoneEvent (_events s) = false
               /\ Forall (fun b : bytes => b = []) (_q s))).
  { intros [Hd Hq0]. rewrite Hq in Hq0.
    apply Forall_app in Hq0. destruct Hq0 as [_ Hq0].
    inversion Hq0. now apply (Hb Hd). }
  destruct ((0 <? length readData) && (length readData <? length outdata))
    eqn:Hshort.
  - apply andb_true_iff in Hshort. destruct Hshort as [H0 HB].
    apply Nat.ltb_lt in H0.
    assert (Hne : readData <> []) by (intros ->; simpl in H0; lia).
    assert (Hres : forall e,
              e = CallbackAbort \/ e = CallbackStop ->
              fst (match slice_assign 0 (length readData) readData outdata
                   with
                   | Some o1 =>
                       match slice_assign (length readData) (length outdata)
                               (repeat x00 (length outdata - length readData))
                               o1 with
                       | Some o2 => (Ret o2, s2)
                       | None => (Raise ValueError, s2)
                       end
                   | None => (Raise ValueError, s2)
                   end) <> Raise e).
    { intros e He.
      destruct (slice_assign 0 _ _ _); [|destruct He; subst; discriminate].
      destruct (slice_assign _ _ _ _); destruct He; subst; discriminate. }
    split; [|split].
    + split; [intros H; now elim (Hres CallbackAbort (or_introl eq_refl))
             | intros H; now elim Hno_abort].
    + split; [intros H; now elim (Hres CallbackStop (or_intror eq_refl))|].
      intros (Hd & [Hnil | (q2 & Hq2 & _)]).
      * rewrite Hnil in Hq. destruct sk; discriminate.
      * rewrite (Hsk Hd) in Hq. rewrite Hq2 in Hq. simpl in Hq.
        injection Hq as <- _. now elim Hne.
    + intros H. now elim (Hres CallbackAbort (or_introl eq_refl)).
  - destruct (length readData =? 0) eqn:HL.
    + apply Nat.eqb_eq in HL. apply length_zero_iff_nil in HL. subst readData.
      assert (Hdone : downloadDoneEvent (_events s) = true).
      { destruct (downloadDoneEvent (_events s)); [reflexivity|].
        now elim (Hb eq_refl). }
      rewrite (Hsk Hdone) in Hq. simpl in Hq.
      change (downloadDoneEvent
                (_events (put_bytesFile (BytesIO.seek_end (_bytesFile s2)) s2)))
        with (downloadDoneEvent (_events s2)).
      rewrite Hev, Hdone, andb_true_r, Hf.
      unfold BytesIO.tell, BytesIO.seek_end. simpl BytesIO.cur.
      destruct (BytesIO.cur (_bytesFile s)
                =? length (BytesIO.buf (_bytesFile s))) eqn:Hend.
      * apply Nat.eqb_eq in Hend. simpl.
        split; [|split]; try discriminate.
        -- split; [discriminate | intros [? _]; discriminate].
        -- split; auto. intros _. split; [reflexivity|].
           right. exists q'. auto.
      * apply Nat.eqb_neq in Hend.
        destruct (slice_assign _ _ _ _); simpl;
          (split; [|split]; try discriminate;
           [split; [discriminate | intros [? _]; discriminate]|]);
          (split; [discriminate|]);
          intros (_ & [Hnil | (q2 & Hq2 & Hcur)]);
          try (rewrite Hnil in Hq; discriminate);
          now elim Hend.
    + apply Nat.eqb_neq in HL.
      assert (Hne : readData <> []) by (intros ->; now elim HL).
      destruct (slice_assign _ _ _ _); simpl;
        (split; [|split]; try discriminate;
         [split; [discriminate | intros H; now elim Hno_abort]|]);
        (split; [discriminate|]);
        intros (Hd & [Hnil | (q2 & Hq2 & _)]);
        try (rewrite Hnil in Hq; destruct sk; discriminate);
        rewrite (Hsk Hd) in Hq; rewrite Hq2 in Hq; simpl in Hq;
        injection Hq as <- _; now elim Hne.
Qed.

(** X9. A call of [_get_data_from_download_thread] that returns leaves
    the queue and the frame size alone, calls no user callback and
    changes no event but [blockDataAvailable]; it never sets it, and it
    clears it exactly when fewer than [_playbackBlockSize] bytes lie
    past the cursor after the read while [downloadDoneEvent] is not
    set. *)
Theorem X9_reader_back_pressure : forall s data,
  fst (_get_data_from_download_thread s) = Ret data ->
  let s' := snd (_get_data_from_download_thread s) in
  _q s' = _q s
  /\ _frameSize s' = _frameSize s
  /\ trace s' = trace s
  /\ _events s'
     = (if (BytesIO.remaining (_bytesFile s') <? Z.of_nat _playbackBlockSize)%Z
           && negb (downloadDoneEvent (_events s))
        then put_blockDataAvailable false (_events s)
        else _events s).
Proof.
  intros s data Hget. unfold _get_data_from_download_thread in *.
  pose proof (read_and_fix_frame _playbackBlockSize s) as Hfr.
  destruct (_soundFile_read_and_fix _playbackBlockSize s) as [o s1].
  simpl in Hfr. destruct Hfr as (Hev & Hq & Htr & Hfs).
  assert (Hs' : snd (match o with
                     | Ret readData => (Ret readData, mark_available s1)
                     | Raise AssertionError => (Ret [], mark_available s1)
                     | Raise e => (Raise e, s1)
                     end) = mark_available s1).
  { destruct o as [d|e]; [reflexivity|].
    destruct e; try discriminate; reflexivity. }
  cbv zeta. rewrite Hs'. clear Hget Hs'.
  rewrite mark_available_file.
  unfold mark_available. rewrite seek_back.
  unfold BytesIO.remaining, BytesIO.tell, BytesIO.seek_end.
  simpl BytesIO.cur.
  change (_events (put_bytesFile (_bytesFile s1) s1)) with (_events s1).
  rewrite Hev.
  destruct (_ && _); simpl; rewrite ?Hev; auto.
Qed.

(** ** The end of the download and the end of the feed loop *)

Lemma done_inv_step : forall w t w',
  done_inv w -> step t w = Some w' -> done_inv w'.
Proof.
  intros w t w' (H0 & H1 & H2 & H3) Hs.
  unfold done_inv.
  destruct t; simpl in Hs.
  - d_cases Hs; try rewrite Hdpc in *; simpl in *;
      repeat split; intros; finish_or.
  - m_cases Hs; try rewrite Hmpc in *; simpl in *;
      repeat split; intros; finish_or;
      rewrite H0 in *; simpl in *; congruence.
  - destruct (dev_step_frame _ Hs) as (_ & Hd & Hm & _ & _ & Hdone & _).
    unfold ev in *. rewrite Hd, Hm, Hdone. repeat split; auto.
Qed.

Lemma done_inv_reachable : forall r w, reachable r w -> done_inv w.
Proof.
  intros r. apply reachable_ind_inv.
  - unfold done_inv, start; simpl.
    repeat split; intros; try discriminate; auto.
  - exact done_inv_step.
Qed.

(** X10. In every world a session can reach, [downloadDoneEvent] is set
    exactly when the download thread has run line 562; the response
    then had a success status and every chunk of it has been taken;
    and from then on the event stays set. *)
Theorem X10_download_done_latch : forall r w,
  reachable r w ->
  downloadDoneEvent (ev w) = d_past_loop (d_pc (dl w))
  /\ (downloadDoneEvent (ev w) = true ->
      d_ok (dl w) = true
      /\ d_rest (dl w) = []
      /\ forall w', reachable_from w w' -> downloadDoneEvent (ev w') = true).
Proof.
  intros r w Hreach.
  destruct (done_inv_reachable Hreach) as (H0 & H1 & H2 & H3).
  split; [exact H1|].
  intros Hdone. rewrite H1 in Hdone.
  split; [|split].
  - apply H3. destruct (d_pc (dl w)); try discriminate; reflexivity.
  - apply H2. destruct (d_pc (dl w)); try discriminate; reflexivity.
  - intros w' Hreach'.
    assert (Hinv : done_inv w' /\ d_past_loop (d_pc (dl w')) = true).
    { revert w' Hreach'. apply reachable_ind_inv.
      - split; [repeat split; auto | exact Hdone].
      - intros w1 t w2 [Hinv Hpast] Hs.
        split; [exact (done_inv_step _ Hinv Hs)|].
        destruct Hinv as (Hb & _).
        destruct t; simpl in Hs.
        + d_cases Hs; try discriminate Hpast; try congruence;
            try rewrite Hdpc in *; simpl in *; auto.
        + m_cases Hs; auto.
          * rewrite (Hb eq_refl) in Hpast. discriminate.
          * destruct (m_data (mn w1)); exact Hpast.
        + destruct (dev_step_frame _ Hs) as (_ & Hd & _). now rewrite Hd. }
    destruct Hinv as [(_ & Hev & _) Hpast]. now rewrite Hev.
Qed.

Lemma callback_file : forall outdata frames s,
  let s' := snd (_stream_playback_callback outdata frames s) in
  _bytesFile s' = _bytesFile s
  \/ (fst (pop_block (downloadDoneEvent (_events s)) (_q s)) = Some []
      /\ _bytesFile s' = BytesIO.seek_end (_bytesFile s)).
Proof.
  intros outdata frames s. unfold _stream_playback_callback.
  destruct (negb (frames =? _playbackBlockSize)); [left; reflexivity|].
  destruct (pop_block (downloadDoneEvent (_events s)) (_q s))
    as [[readData|] q']; [|left; reflexivity].
  cbv zeta.
  match goal with
  | |- context [if negb ?c then ?a else ?b] =>
      set (s2 := if negb c then a else b)
  end.
  assert (Hf : _bytesFile s2 = _bytesFile s)
    by (subst s2; destruct (negb _); reflexivity).
  clearbody s2.
  destruct ((0 <? length readData) && (length readData <? length outdata)).
  - left.
    destruct (slice_assign 0 _ _ _); [|exact Hf].
    destruct (slice_assign _ _ _ _); exact Hf.
  - destruct (length readData =? 0) eqn:HL.
    + right. apply Nat.eqb_eq in HL. apply length_zero_iff_nil in HL.
      subst readData. split; [reflexivity|].
      destruct (_ && _); [simpl; now rewrite Hf|].
      destruct (slice_assign _ _ _ _); simpl; now rewrite Hf.
    + left. destruct (slice_assign _ _ _ _); exact Hf.
Qed.

Lemma dev_step_file : forall w w',
  dev_step w = Some w' ->
  file w' = file w
  \/ (lock w = None /\ file w' = BytesIO.seek_end (file w)).
Proof.
  intros w w' Hs. unfold dev_step in Hs.
  destruct (dev w); try discriminate.
  - pose proof (callback_file
                  (repeat x00 (_playbackBlockSize * _frameSize (obj w)))
                  _playbackBlockSize (obj w)) as Hf.
    cbv zeta in Hf, Hs.
    destruct (_stream_playback_callback _ _ (obj w)) as [o s1].
    simpl in Hf.
    assert (Hfile : forall w1, Some w1 = Some w' -> obj w1 = s1 ->
                    match fst (pop_block (downloadDoneEvent (_events (obj w)))
                                 (_q (obj w))) with
                    | Some [] => lock w = None
                    | _ => True
                    end ->
                    file w' = file w
                    \/ lock w = None /\ file w' = BytesIO.seek_end (file w)).
    { intros w1 Heq Hobj Hl. injection Heq as <-. unfold file.
      rewrite Hobj. destruct Hf as [Hf | [Hpop Hf]]; [now left|].
      right. rewrite Hpop in Hl. auto. }
    destruct (fst (pop_block _ _)) as [[|x b]|] eqn:Hpop;
      try destruct (lock w) eqn:Hl; try discriminate;
      destruct o; eapply Hfile; try exact Hs; auto.
  - injection Hs as <-. left. reflexivity.
Qed.

Lemma fed_inv_step : forall w t w',
  mutex_inv w -> done_inv w ->
  fed_inv w -> step t w = Some w' -> fed_inv w'.
Proof.
  intros w t w' (_ & M1 & M2 & _) (_ & D1 & _) (H1 & H2) Hs.
  unfold fed_inv, at_end in *.
  destruct t; simpl in Hs.
  - d_cases Hs; try rewrite Hdpc in *; simpl in *;
      repeat split; intros; finish_or;
      match goal with
      | Hpc : m_pc (mn _) = _ |- _ =>
          rewrite Hpc in M2; simpl in M2; specialize (M2 eq_refl);
          congruence
      end.
  - m_cases Hs; try rewrite Hmpc in *; simpl in *;
      repeat split; intros; finish_or;
      try (apply andb_true_iff in Heqb; destruct Heqb as [He Hd];
           apply Nat.eqb_eq in He; congruence);
      try (destruct H2 as [Hx Hy];
           [first [left; reflexivity | right; reflexivity]|];
           destruct (m_data (mn w)); simpl; congruence).
  - destruct (dev_step_frame _ Hs) as (Hl & _ & Hm & _ & _ & Hdone & _).
    unfold ev in *. rewrite Hm, Hdone.
    destruct (dev_step_file _ Hs) as [Hf | [Hn Hf]];
      unfold file in *; rewrite Hf; [split; assumption|].
    split.
    + intros Hpc. rewrite Hpc in M2. specialize (M2 eq_refl). congruence.
    + intros Hpc. split; [now apply H2 | reflexivity].
Qed.

Lemma fed_inv_reachable : forall r w, reachable r w -> fed_inv w.
Proof.
  intros r w Hreach.
  assert (H : mutex_inv w /\ done_inv w /\ fed_inv w);
    [|now destruct H as (_ & _ & H)].
  revert w Hreach. apply reachable_ind_inv.
  - split; [|split].
    + apply (mutex_inv_reachable (r := r)). apply reach_here.
    + apply (done_inv_reachable (r := r)). apply reach_here.
    + unfold fed_inv, start; simpl.
      split; [discriminate | intros [H | H]; discriminate].
  - intros w t w' (Hm & Hd & Hf) Hs. split; [|split].
    + exact (mutex_inv_step _ Hm Hs).
    + exact (done_inv_step _ Hd Hs).
    + exact (fed_inv_step _ Hm Hd Hf Hs).
Qed.

Lemma download_thread_facts : forall r w,
  reachable r w ->
  d_ok (dl w) = status_ok r
  /\ downloadDoneEvent (ev w) = d_past_loop (d_pc (dl w))
  /\ (d_loop_left (d_pc (dl w)) = true -> d_rest (dl w) = [])
  /\ (d_status_checked (d_pc (dl w)) = true -> d_ok (dl w) = true).
Proof.
  intros r w Hreach.
  destruct (done_inv_reachable Hreach) as (_ & H1 & H2 & H3).
  repeat split; auto.
  clear H1 H2 H3. revert w Hreach. apply reachable_ind_inv; [reflexivity|].
  intros w t w' IH Hs. destruct t; simpl in Hs.
  - d_cases Hs; exact IH.
  - m_cases Hs; try exact IH. destruct (m_data (mn w)); exact IH.
  - destruct (dev_step_frame _ Hs) as (_ & Hd & _). now rewrite Hd.
Qed.

(** X11. [begin_streaming] returns only when the download is over and
    the cursor of the shared buffer is at its end: at the return the
    response had a success status, every chunk of it has been taken,
    [downloadDoneEvent] is set, nobody holds [_bytesLock] and the
    stream is closed. *)
Theorem X11_return_after_download : forall r w,
  reachable r w ->
  m_pc (mn w) = M_done ->
  status_ok r = true
  /\ d_rest (dl w) = []
  /\ downloadDoneEvent (ev w) = true
  /\ BytesIO.cur (file w) = length (BytesIO.buf (file w))
  /\ lock w = None
  /\ dev w = Dev_closed.
Proof.
  intros r w Hreach Hpc.
  destruct (mutex_inv_reachable Hreach) as (_ & _ & _ & M3 & M4 & M5).
  destruct (download_thread_facts Hreach) as (Hok & Hev & Hrest & Hchk).
  destruct (fed_inv_reachable Hreach) as (_ & Hfed).
  destruct (end_inv_reachable Hreach) as (_ & _ & _ & _ & _ & _ & Hclosed).
  destruct Hfed as [Hdone Hend]; [right; now rewrite Hpc|].
  assert (Hpast : d_past_loop (d_pc (dl w)) = true) by congruence.
  split; [|split; [|split; [|split; [|split]]]]; auto.
  - rewrite <- Hok. apply Hchk.
    destruct (d_pc (dl w)); try discriminate; reflexivity.
  - apply Hrest. destruct (d_pc (dl w)); try discriminate; reflexivity.
  - destruct (lock w) as [[ | | ]|] eqn:Hl; auto.
    + specialize (M3 eq_refl).
      destruct (d_pc (dl w)); discriminate.
    + destruct (M4 eq_refl) as [H | H]; rewrite Hpc in H; discriminate.
    + now elim M5.
Qed.

(** ** The blocks on the queue *)

Lemma dev_step_enqueued : forall w w',
  (forall b, In b (_q (obj w)) -> b <> []) ->
  dev_step w = Some w' ->
  enqueued w' = enqueued w
  /\ _frameSize (obj w') = _frameSize (obj w)
  /\ mn w' = mn w.
Proof.
  intros w w' Hne Hs.
  destruct (dev_step_frame _ Hs) as (_ & _ & Hm & _ & _ & _ & _ & Hfs).
  split; [|split; assumption].
  unfold dev_step in Hs. unfold enqueued.
  destruct (dev w); try discriminate.
  - pose proof (callback_history
                  (repeat x00 (_playbackBlockSize * _frameSize (obj w)))
                  _playbackBlockSize (obj w)) as [_ Hh].
    specialize (Hh eq_refl). cbv zeta in Hs.
    rewrite (pop_block_nonempty _ _ Hne) in Hh, Hs.
    destruct (_stream_playback_callback _ _ (obj w)) as [o s1].
    simpl in Hh.
    assert (Hobj : obj w' = s1).
    { destruct (_q (obj w)) as [|[|x b] q']; simpl in Hs;
        try (destruct (lock w); try discriminate);
        destruct o; injection Hs as <-; reflexivity. }
    rewrite Hobj.
    destruct (_q (obj w)) as [|b q'].
    + destruct Hh as (-> & -> & _). reflexivity.
    + destruct Hh as (-> & -> & _). rewrite pops_app. simpl.
      destruct (playbackStartFired (_events (obj w))); simpl;
        now rewrite <- app_assoc.
  - injection Hs as <-. reflexivity.
Qed.

Section FullBlocks.

Hypothesis block_size_pos : 0 < _playbackBlockSize.
Hypothesis channels_pos :
  forall f h f', sf_open C f = (Some h, f') -> 0 < channels C h.

Lemma shape_inv_step : forall w t w',
  playback_inv w -> shape_inv w -> step t w = Some w' -> shape_inv w'.
Proof.
  intros w t w' (_ & Hne & _) (H1 & H2 & H3 & H4 & H5) Hs.
  unfold shape_inv.
  destruct t; simpl in Hs.
  - unfold enqueued, full_block in *.
    d_cases Hs; repeat split; auto.
  - unfold enqueued, full_block in *.
    m_cases Hs; try rewrite Hmpc in *; simpl in *;
      repeat split; intros; finish_or.
    all: try solve [match goal with
                    | H : _ ++ _ = [] |- _ =>
                        apply app_eq_nil in H;
                        let Hp := fresh "Hp" in
                        let Hq := fresh "Hq" in
                        destruct H as [Hp Hq];
                        rewrite ?Hp, ?Hq; simpl; auto
                    end].
    all: try solve [rewrite H1; constructor].
    all: try solve [rewrite Hfq, Hftr, Hffs; assumption].
    all: try solve [now apply Nat.eqb_eq].
    all: try solve [now apply Nat.eqb_neq].
    all: try solve [rewrite app_assoc; apply Forall_app; split;
                    [assumption | constructor; [assumption | constructor]]].
    all: try solve [exists (pops (trace (obj w)) ++ _q (obj w)), [];
                    rewrite app_nil_r; auto].
    all: try solve [eexists (pops (trace (obj w)) ++ _q (obj w)), [_];
                    rewrite app_assoc; split; [reflexivity|];
                    split; [assumption|];
                    right; eexists; split; [reflexivity|];
                    split; [discriminate | assumption]].
    all: try solve [rewrite pops_app; simpl; rewrite app_nil_r; assumption].
  - destruct (dev_step_enqueued _ Hne Hs) as (He & Hfs & Hm).
    unfold full_block. rewrite He, Hfs, Hm.
    repeat split; auto.
Qed.

Lemma shape_inv_reachable : forall r w, reachable r w -> shape_inv w.
Proof.
  intros r w Hreach.
  assert (H : playback_inv w /\ shape_inv w); [|now destruct H].
  revert w Hreach. apply reachable_ind_inv.
  - split.
    + apply (playback_inv_reachable block_size_pos channels_pos (r := r)).
      apply reach_here.
    + unfold shape_inv, start, enqueued; simpl.
      repeat split; intros; try discriminate; auto.
  - intros w t w' (Hp & Hsh) Hs. split.
    + exact (playback_inv_step block_size_pos channels_pos _ Hp Hs).
    + exact (shape_inv_step _ Hp Hsh Hs).
Qed.

(** X12. In every world a session can reach, provided a playback block
    has at least one frame and the codec reports at least one channel:
    the blocks put on the queue so far, taken by the callback or still
    waiting, all have [_playbackBlockSize * _frameSize] bytes, except
    that once the feed loop has ended by its [break] the last of them
    may be a shorter or longer, non-empty one. *)
Theorem X12_queue_shape : forall r w,
  reachable r w ->
  exists full last,
    enqueued w = full ++ last
    /\ Forall (full_block (obj w)) full
    /\ (last = []
        \/ exists b,
             last = [b] /\ b <> [] /\ ~ full_block (obj w) b
             /\ m_after_feed (m_pc (mn w)) = true).
Proof.
  intros r w Hreach.
  destruct (shape_inv_reachable Hreach) as (_ & _ & _ & H4 & H5).
  destruct (m_after_feed (m_pc (mn w))) eqn:Hpc.
  - destruct (H5 eq_refl) as (full & last & He & Hfull & Hlast).
    exists full, last. repeat split; auto.
    destruct Hlast as [-> | (b & -> & Hb & Hnf)]; [now left|].
    right. exists b. auto.
  - exists (enqueued w), []. rewrite app_nil_r. auto.
Qed.

End FullBlocks.

(** ** A callback that finds the queue empty *)

Lemma stopped_step : forall w t w' ps st,
  dev w <> Dev_active
  /\ m_before_stream (m_pc (mn w)) = false
  /\ pops (trace (obj w)) = ps
  /\ starts (trace (obj w)) = st ->
  step t w = Some w' ->
  dev w' <> Dev_active
  /\ m_before_stream (m_pc (mn w')) = false
  /\ pops (trace (obj w')) = ps
  /\ starts (trace (obj w')) = st.
Proof.
  intros w t w' ps st (Hdev & Hm & Hps & Hst) Hs.
  destruct t; simpl in Hs.
  - d_cases Hs; repeat split; auto.
  - m_cases Hs; try rewrite Hmpc in *; simpl in *; try discriminate;
      repeat split; auto; try congruence;
      try (destruct (m_data (mn w)); simpl; assumption);
      try (rewrite ?pops_app, ?starts_app; simpl;
           rewrite ?app_nil_r, ?Nat.add_0_r; assumption);
      match goal with
      | |- context [if ?c then _ else _] => destruct c; reflexivity
      end.
  - unfold dev_step in Hs. destruct (dev w); try discriminate.
    + now elim Hdev.
    + injection Hs as <-. simpl. repeat split; auto. discriminate.
Qed.

(** X13. When the device calls the callback while the queue is empty
    and the download is not over, the callback raises [CallbackAbort]
    and the stream stops; nothing starts it again, so whatever
    [begin_streaming] puts on the queue afterwards is never taken and
    [onPlaybackStart] is not called any more. *)
Theorem X13_underrun_stops_playback : forall r w,
  reachable r w ->
  dev w = Dev_active ->
  _q (obj w) = [] ->
  downloadDoneEvent (ev w) = false ->
  exists w1,
    dev_step w = Some w1
    /\ dev w1 = Dev_stopping
    /\ forall w',
         reachable_from w1 w' ->
         dev w' <> Dev_active
         /\ pops (trace (obj w')) = pops (trace (obj w))
         /\ starts (trace (obj w')) = starts (trace (obj w)).
Proof.
  intros r w Hreach Hdev Hq Hdone.
  destruct (end_inv_reachable Hreach) as (_ & Hbefore & _).
  assert (Hm : m_before_stream (m_pc (mn w)) = false).
  { destruct (m_before_stream (m_pc (mn w))); [|reflexivity].
    rewrite (Hbefore eq_refl) in Hdev. discriminate. }
  exists (put_dev Dev_stopping (on_obj (fun _ => put_q [] (obj w)) w)).
  split; [|split; [reflexivity|]].
  - unfold dev_step. rewrite Hdev. cbv zeta.
    unfold _stream_playback_callback. rewrite Nat.eqb_refl.
    unfold ev in Hdone. rewrite Hq, Hdone. reflexivity.
  - intros w' Hreach'.
    assert (H : dev w' <> Dev_active
                /\ m_before_stream (m_pc (mn w')) = false
                /\ pops (trace (obj w')) = pops (trace (obj w))
                /\ starts (trace (obj w')) = starts (trace (obj w))).
    { revert w' Hreach'. apply reachable_ind_inv.
      - simpl. repeat split; auto. discriminate.
      - intros w2 t w3. apply stopped_step. }
    destruct H as (H1 & _ & H2 & H3). auto.
Qed.

End Pipeline.

(** * The model at work *)

Lemma Raw_channels_pos : forall f h f',
  sf_open Raw.codec f = (Some h, f') -> 0 < channels Raw.codec h.
Proof.
  intros f h f'. simpl. unfold Raw.open.
  destruct (BytesIO.read Raw.header_len f) as [hd f1].
  destruct hd as [|c [|c1 [|c2 [|c3 [|c4 hd]]]]]; try discriminate.
  destruct (Raw.nat_of_byte c =? 0) eqn:Hc; [discriminate|].
  intros Heq. injection Heq as <- _. simpl.
  apply Nat.eqb_neq in Hc. lia.
Qed.

(** C1 (what the code does). The [except] branch of the header loop
    moves the cursor of the shared file without holding [_bytesLock].
    On the response [Demo.slow_header] the download thread has run
    [seek(0, os.SEEK_END)] of line 552 for the third chunk, the cursor
    being at the end of the two bytes written so far, when
    [begin_streaming] runs [seek(0)] of line 483; the [write] of line
    553 then lands at offset 0.  When the download thread leaves its
    critical section every chunk has been appended, and the file holds
    the third chunk alone, not the concatenation of the three. *)
Theorem C1_append_race :
  exists w1 w2,
    run Demo.block_size Demo.up_to_552 (start Raw.codec Demo.slow_header)
    = Some w1
    /\ d_pc (dl w1) = D553
    /\ m_pc (mn w1) = M483
    /\ lock w1 = Some TDownload
    /\ file w1 = BytesIO.mk [x01; x00] 2
    /\ run Demo.block_size Demo.seek_then_write w1 = Some w2
    /\ d_pc (dl w2) = D530
    /\ d_rest (dl w2) = []
    /\ BytesIO.buf (file w2) = [x00; x00; x05; x06; x07; x08]
    /\ BytesIO.buf (file w2) <> concat (content Demo.slow_header).
Proof.
  destruct (@run_observe Raw.codec Demo.block_size _
              (fun w => (d_pc (dl w), m_pc (mn w), lock w, file w))
              Demo.up_to_552 (start Raw.codec Demo.slow_header)
              (D553, M483, Some TDownload, BytesIO.mk [x01; x00] 2))
    as (w1 & Hrun1 & Hobs1); [vm_compute; reflexivity|].
  destruct (@run_observe Raw.codec Demo.block_size _
              (fun w => (d_pc (dl w), d_rest (dl w), BytesIO.buf (file w)))
              (Demo.up_to_552 ++ Demo.seek_then_write)
              (start Raw.codec Demo.slow_header)
              (D530, [], [x00; x00; x05; x06; x07; x08]))
    as (w2 & Hrun2 & Hobs2); [vm_compute; reflexivity|].
  rewrite run_app, Hrun1 in Hrun2.
  injection Hobs1 as Hd1 Hm1 Hl1 Hf1.
  injection Hobs2 as Hd2 Hrest2 Hbuf2.
  exists w1, w2. repeat split; auto.
  rewrite Hbuf2. simpl. discriminate.
Qed.

(** The demo chunks, with reads and probes in between. *)
Example buffer_delivery_demo :
  snd (run_ops Demo.block_size
         [Append Demo.chunk1; Read 4; Probe; Append Demo.chunk2;
          Read 5000; Append Demo.chunk3; Read 5000]
         (reset (init Raw.codec)))
  = Demo.chunk1 ++ Demo.chunk2 ++ Demo.chunk3.
Proof. vm_compute. reflexivity. Qed.

(** A last, short block at the end of a finished download. *)
Lemma C2_witness :
  let s := mkStreamer Raw.codec [] (BytesIO.mk Demo.chunk3 4) None 4
                      (mkEvents false true true true true false) [] in
  loop_goes_on (fst (feed_iteration Demo.block_size [x01; x02] s)) = false
  /\ _q (snd (feed_iteration Demo.block_size [x01; x02] s)) = [[x01; x02]].
Proof.
  intros s.
  pose proof (C2_feed_loop_stops_iff Demo.block_size [x01; x02] s)
    as (Hiff & Hq & _).
  assert (Hstop : loop_goes_on
                    (fst (feed_iteration Demo.block_size [x01; x02] s))
                  = false).
  { apply Hiff. repeat split; simpl; lia. }
  split; [exact Hstop | exact (Hq Hstop)].
Defined.

(** A block of four bytes where 8192 were expected, the cursor at the
    end of the data, the download not over: the loop goes on. *)
Lemma C3_counterexample :
  let s := mkStreamer Raw.codec [] (BytesIO.mk Demo.chunk1 4096) None 4
                      Demo.parsed [] in
  let data := [x00; x00; x00; x00] in
  (length data =? Demo.block_size * _frameSize s) = false
  /\ downloadDoneEvent (_events s) = false
  /\ fst (feed_iteration Demo.block_size data s) = LoggedCritical
  /\ loop_goes_on (fst (feed_iteration Demo.block_size data s)) = true.
Proof. cbv zeta. repeat split; vm_compute; reflexivity. Qed.

Lemma C3_witness :
  let s := mkStreamer Raw.codec [] (BytesIO.mk Demo.chunk1 4096) None 4
                      Demo.parsed [] in
  let r := feed_iteration Demo.block_size [x00; x00; x00; x00] s in
  fst r = LoggedCritical
  /\ loop_goes_on (fst r) = true
  /\ _q (snd r) = _q s
  /\ _bytesFile (snd r) = _bytesFile s
  /\ _events (snd r) = _events s.
Proof.
  intros s.
  apply (@C3_pacing_violation_logged Raw.codec Demo.block_size
           [x00; x00; x00; x00] s).
  - apply Nat.eqb_neq. vm_compute. reflexivity.
  - right. reflexivity.
Defined.

(** The same inside a session: the reader takes what two chunks
    brought, the block is one frame short, [logging.critical] is called
    once, the block is not put on the queue and [begin_streaming] is
    back at the wait of line 637. *)
Example pacing_violation_in_session :
  exists w,
    run Demo.block_size Demo.pacing (start Raw.codec Demo.response) = Some w
    /\ m_pc (mn w) = M637
    /\ m_criticals (mn w) = 1
    /\ length (m_data (mn w)) + 4 = Demo.block_size * _frameSize (obj w)
    /\ _q (obj w) = [].
Proof.
  destruct (@run_observe Raw.codec Demo.block_size _
              (fun w => (m_pc (mn w), m_criticals (mn w),
                         length (m_data (mn w)) + 4
                         =? Demo.block_size * _frameSize (obj w),
                         _q (obj w)))
              Demo.pacing (start Raw.codec Demo.response)
              (M637, 1, true, []))
    as (w & Hrun & Hobs); [vm_compute; reflexivity|].
  exists w. injection Hobs as Hpc Hcrit Hlen Hq.
  apply Nat.eqb_eq in Hlen. auto.
Qed.

(** After a first chunk of 4096 bytes with its header read, a second
    chunk of 4096 bytes leaves 8188 bytes past the cursor: more than
    2048, less than the 8192 bytes of a playback block, and the flag is
    set. *)
Lemma C5_counterexample :
  let s := mkStreamer Raw.codec [] (BytesIO.mk Demo.chunk1 4) None 4
                      Demo.parsed [] in
  let s' := downloader_write Demo.block_size Demo.chunk2 s in
  headerReadyEvent (_events s) = true
  /\ blockDataAvailable (_events s) = false
  /\ blockDataAvailable (_events s') = true
  /\ (BytesIO.remaining (_bytesFile s')
      <? Z.of_nat (Demo.block_size * _frameSize s'))%Z = true.
Proof. cbv zeta. repeat split; vm_compute; reflexivity. Qed.

Lemma C5_witness :
  let s := mkStreamer Raw.codec [] (BytesIO.mk Demo.chunk1 4) None 4
                      Demo.parsed [] in
  let s' := downloader_write Demo.block_size Demo.chunk2 s in
  blockDataAvailable (_events s')
  = blockDataAvailable (_events s)
    || (Z.of_nat Demo.block_size <? BytesIO.remaining (_bytesFile s'))%Z.
Proof.
  intros s.
  apply (@C5_block_available_threshold Raw.codec Demo.block_size Demo.chunk2 s).
  reflexivity.
Defined.

(** Two bytes for a buffer of eight. *)
Lemma C9_witness :
  let s := mkStreamer Raw.codec [[x01; x02]] BytesIO.empty None 4
                      Demo.parsed [] in
  exists out,
    fst (_stream_playback_callback 2 (repeat x00 8) 2 s) = Ret out
    /\ length out = 8
    /\ firstn 2 out = [x01; x02]
    /\ skipn 2 out = repeat x00 6.
Proof.
  intros s.
  apply (@C9_short_block_padding Raw.codec 2 (repeat x00 8) s [x01; x02] []).
  - reflexivity.
  - simpl. lia.
Defined.

(** A handle opened when two frames had arrived, on a file that now
    holds eight: the first read gives two frames, the new parser sees
    eight, replaces the old one, and the second read gives all eight. *)
Lemma C8_witness :
  let s := mkStreamer Raw.codec []
                      (BytesIO.mk (x01 :: repeat x00 35) 4)
                      (Some (Raw.mkHandle 1 2 0)) 4 Demo.parsed [] in
  let r := _get_data_from_download_thread 8 s in
  _bytesSoundFile (snd r) = Some (Raw.mkHandle 1 8 8)
  /\ fst r = Ret (repeat x00 32).
Proof.
  intros s.
  pose proof (proj1 (C8_stale_parser_recovery Raw.codec 8) s
                (Raw.mkHandle 1 2 0) (repeat x00 8) (Raw.mkHandle 1 2 2)
                (BytesIO.mk (x01 :: repeat x00 35) 12)
                (Raw.mkHandle 1 8 0) (BytesIO.mk (x01 :: repeat x00 35) 4)
                (Raw.mkHandle 1 8 0) (BytesIO.mk (x01 :: repeat x00 35) 4)
                eq_refl eq_refl) as H.
  assert (Hshort : length (repeat x00 8) < 8 * _frameSize s)
    by (simpl; lia).
  assert (Hpos : BytesIO.cur (BytesIO.mk (x01 :: repeat x00 35) 12)
                 <> length (BytesIO.buf
                              (BytesIO.mk (x01 :: repeat x00 35) 12)))
    by (simpl; lia).
  specialize (H Hshort Hpos eq_refl eq_refl).
  destruct H as [Hmore _].
  assert (Hlt : frames Raw.codec (Raw.mkHandle 1 2 2)
                < frames Raw.codec (Raw.mkHandle 1 8 0))
    by (simpl; lia).
  exact (Hmore Hlt).
Defined.

(** The parser is about to be constructed on the first chunk. *)
Lemma C7_witness :
  exists w,
    run Demo.block_size Demo.to_477 (start Raw.codec Demo.response) = Some w
    /\ m_pc (mn w) = M477
    /\ headerReadyEvent (ev w) = true.
Proof.
  destruct (@run_observe Raw.codec Demo.block_size _ (fun w => m_pc (mn w))
              Demo.to_477 (start Raw.codec Demo.response) M477)
    as (w & Hrun & Hpc); [vm_compute; reflexivity|].
  exists w. split; [exact Hrun|]. split; [exact Hpc|].
  apply (proj1 (@C7_header_handshake Raw.codec Demo.block_size Demo.response w
                  (run_reachable _ _ _ Hrun))).
  rewrite Hpc. reflexivity.
Defined.

(** A whole session: one block is played, [begin_streaming] returns. *)
Lemma C4_witness :
  exists w,
    run Demo.block_size Demo.calm (start Raw.codec Demo.response) = Some w
    /\ m_pc (mn w) = M_done
    /\ starts (trace (obj w)) = 1.
Proof.
  destruct (@run_observe Raw.codec Demo.block_size _
              (fun w => (m_pc (mn w), length (pops (trace (obj w)))))
              Demo.calm (start Raw.codec Demo.response) (M_done, 1))
    as (w & Hrun & Hobs); [vm_compute; reflexivity|].
  injection Hobs as Hpc Hpops.
  exists w. split; [exact Hrun|]. split; [exact Hpc|].
  assert (H0 : 0 < Demo.block_size)
    by (unfold Demo.block_size, default_playbackBlockSize; lia).
  destruct (@C4_playback_start_once Raw.codec Demo.block_size H0
              Raw_channels_pos
              Demo.response w (run_reachable _ _ _ Hrun))
    as (_ & Hsome & _).
  apply Hsome. intros Hnil. rewrite Hnil in Hpops. discriminate.
Defined.

(** A response with a failure status and no content. *)
Lemma C6_witness :
  exists w,
    run Demo.block_size [TMain; TMain; TDownload]
        (start Raw.codec Demo.failing_response) = Some w
    /\ d_pc (dl w) = D_raised HTTPError
    /\ m_pc (mn w) = M473
    /\ forall t, step Demo.block_size t w = None.
Proof.
  exact (proj2 (@C6_failed_status_hangs Raw.codec Demo.block_size
                  Demo.failing_response eq_refl)).
Defined.

(** C10 (what the code does). In the demo session the reader has
    evaluated the condition of line 654 with [downloadDoneEvent] clear
    when the download thread runs lines 562-563; the reader then
    clears [blockDataAvailable] at line 656 although
    [downloadDoneEvent] is set.  Back at line 637 [begin_streaming]
    waits for a flag that no thread will set again: whatever the other
    threads do, it stays there and never returns. *)
Theorem C10_clear_after_done :
  exists w1 w2,
    run Demo.block_size Demo.race (start Raw.codec Demo.response) = Some w1
    /\ m_pc (mn w1) = M656
    /\ downloadDoneEvent (ev w1) = true
    /\ blockDataAvailable (ev w1) = true
    /\ run Demo.block_size Demo.clear_and_loop w1 = Some w2
    /\ downloadDoneEvent (ev w2) = true
    /\ blockDataAvailable (ev w2) = false
    /\ d_pc (dl w2) = D_done
    /\ (forall w', reachable_from Demo.block_size w2 w' -> m_pc (mn w') = M637).
Proof.
  destruct (@run_observe Raw.codec Demo.block_size _
              (fun w => (m_pc (mn w), downloadDoneEvent (ev w),
                         blockDataAvailable (ev w)))
              Demo.race (start Raw.codec Demo.response) (M656, true, true))
    as (w1 & Hrun1 & Hobs1); [vm_compute; reflexivity|].
  destruct (@run_observe Raw.codec Demo.block_size _
              (fun w => (m_pc (mn w), downloadDoneEvent (ev w),
                         blockDataAvailable (ev w), d_pc (dl w)))
              (Demo.race ++ Demo.clear_and_loop)
              (start Raw.codec Demo.response) (M637, true, false, D_done))
    as (w2 & Hrun2 & Hobs2); [vm_compute; reflexivity|].
  rewrite run_app, Hrun1 in Hrun2.
  injection Hobs1 as Hpc1 Hdone1 Hblk1.
  injection Hobs2 as Hpc2 Hdone2 Hblk2 Hd2.
  exists w1, w2. repeat split; auto.
  intros w' Hreach.
  assert (Hst : starved w2) by (unfold starved; auto).
  exact (proj1 (starved_forever Hst Hreach)).
Qed.

(** * More of the model at work *)

(** The whole demo session: [_onPlaybackEnd] has been called once when
    [begin_streaming] returns. *)
Lemma X1_witness :
  exists w,
    run Demo.block_size Demo.calm (start Raw.codec Demo.response) = Some w
    /\ m_pc (mn w) = M_done
    /\ ends (trace (obj w)) = 1.
Proof.
  destruct (@run_observe Raw.codec Demo.block_size _
              (fun w => m_pc (mn w))
              Demo.calm (start Raw.codec Demo.response) M_done)
    as (w & Hrun & Hpc); [vm_compute; reflexivity|].
  exists w. split; [exact Hrun|]. split; [exact Hpc|].
  destruct (@X1_playback_end_once Raw.codec Demo.block_size
              Demo.response w (run_reachable _ _ _ Hrun))
    as (_ & _ & _ & Hdone).
  exact (Hdone Hpc).
Defined.

(** The reader of the demo's second chunk, in the middle of a session. *)
Lemma X2_witness :
  exists w,
    run Demo.block_size (Demo.header_phase ++ repeat TDownload 6)
        (start Raw.codec Demo.response) = Some w
    /\ d_pc (dl w) = D551
    /\ lock w = Some TDownload
    /\ m_holds_lock (m_pc (mn w)) = false.
Proof.
  destruct (@run_observe Raw.codec Demo.block_size _
              (fun w => (d_pc (dl w), m_holds_lock (m_pc (mn w))))
              (Demo.header_phase ++ repeat TDownload 6)
              (start Raw.codec Demo.response) (D551, false))
    as (w & Hrun & Hobs); [vm_compute; reflexivity|].
  injection Hobs as Hd Hm.
  exists w. split; [exact Hrun|]. split; [exact Hd|].
  destruct (@X2_lock_excludes Raw.codec Demo.block_size
              Demo.response w (run_reachable _ _ _ Hrun))
    as (Hiff & _ & _).
  split; [|exact Hm].
  apply Hiff. rewrite Hd. reflexivity.
Defined.

(** A parser opened on a one-channel header, two frames read short of
    eight, and a header that no longer parses: the reader raises
    [LibsndfileError] with the lock held while the download thread
    stands before line 543. *)
Lemma X3_witness :
  let w := mkWorld
             (mkStreamer Raw.codec [] (BytesIO.mk (repeat x00 36) 4)
                         (Some (Raw.mkHandle 1 2 0)) 4 Demo.parsed [])
             (Some TMain)
             (mkD D543 true [] [x00] 0 0)
             (mkM M640 [] 0%Z 0 0 0)
             Dev_active in
  exists w1,
    m_step 8 w = Some w1
    /\ fst (_get_data_from_download_thread 8 (obj w)) = Raise LibsndfileError
    /\ forall w',
         reachable_from 8 w1 w' ->
         m_pc (mn w') = M_raised LibsndfileError
         /\ lock w' = Some TMain
         /\ (d_pc (dl w') = D543 -> d_step 8 w' = None).
Proof.
  intros w.
  apply (@X3_reader_exception_keeps_lock Raw.codec 8 w LibsndfileError).
  - reflexivity.
  - reflexivity.
  - reflexivity.
  - vm_compute. reflexivity.
  - discriminate.
Defined.


(** Three chunks and two failed attempts on a codec that knows no
    format. *)
Lemma X5_witness :
  exists w,
    run Demo.block_size Demo.up_to_552
        (start Unsupported.codec Demo.slow_header) = Some w
    /\ m_in_header_loop (m_pc (mn w)) = true
    /\ dev w = Dev_closed.
Proof.
  destruct (@run_observe Unsupported.codec Demo.block_size _
              (fun w => d_pc (dl w))
              Demo.up_to_552
              (start Unsupported.codec Demo.slow_header) D553)
    as (w & Hrun & _); [vm_compute; reflexivity|].
  exists w. split; [exact Hrun|].
  destruct (@X5_unparsable_never_plays Unsupported.codec Demo.block_size
              (fun f => eq_refl) Demo.slow_header w)
    as (Hm & _ & _ & _ & Hdev & _).
  - exact (run_reachable _ _ _ Hrun).
  - split; assumption.
Defined.

(** Two empty items before the first block, the download not over. *)
Lemma X6_witness :
  exists skipped,
    [[]; []; [x01]; [x02]] = skipped ++ [x01] :: [[x02]]
    /\ Forall (fun x : bytes => x = []) skipped
    /\ (false = true -> skipped = [])
    /\ ([x01] = [] -> false = true).
Proof.
  exact (@X6_queue_get_order false [[]; []; [x01]; [x02]] [x01] [[x02]]
           eq_refl).
Defined.

(** A read of eight frames that leaves nothing past the cursor while
    the download goes on: the flag is cleared. *)
Lemma X9_witness :
  let s := mkStreamer Raw.codec []
                      (BytesIO.mk (x01 :: repeat x00 35) 4)
                      (Some (Raw.mkHandle 1 8 0)) 4
                      (mkEvents false true true false true false) [] in
  let s' := snd (_get_data_from_download_thread 8 s) in
  _q s' = _q s
  /\ _frameSize s' = _frameSize s
  /\ trace s' = trace s
  /\ _events s'
     = (if (BytesIO.remaining (_bytesFile s') <? Z.of_nat 8)%Z
           && negb (downloadDoneEvent (_events s))
        then put_blockDataAvailable false (_events s)
        else _events s).
Proof.
  intros s.
  apply (@X9_reader_back_pressure Raw.codec 8 s (repeat x00 32)).
  vm_compute. reflexivity.
Defined.

(** The whole demo session. *)
Lemma X10_witness :
  exists w,
    run Demo.block_size Demo.calm (start Raw.codec Demo.response) = Some w
    /\ downloadDoneEvent (ev w) = true
    /\ d_rest (dl w) = [].
Proof.
  destruct (@run_observe Raw.codec Demo.block_size _
              (fun w => downloadDoneEvent (ev w))
              Demo.calm (start Raw.codec Demo.response) true)
    as (w & Hrun & Hdone); [vm_compute; reflexivity|].
  exists w. split; [exact Hrun|]. split; [exact Hdone|].
  destruct (@X10_download_done_latch Raw.codec Demo.block_size
              Demo.response w (run_reachable _ _ _ Hrun))
    as (_ & Hlatch).
  exact (proj1 (proj2 (Hlatch Hdone))).
Defined.

Lemma X11_witness :
  exists w,
    run Demo.block_size Demo.calm (start Raw.codec Demo.response) = Some w
    /\ m_pc (mn w) = M_done
    /\ BytesIO.cur (file w) = length (BytesIO.buf (file w))
    /\ lock w = None.
Proof.
  destruct (@run_observe Raw.codec Demo.block_size _
              (fun w => m_pc (mn w))
              Demo.calm (start Raw.codec Demo.response) M_done)
    as (w & Hrun & Hpc); [vm_compute; reflexivity|].
  exists w. split; [exact Hrun|]. split; [exact Hpc|].
  destruct (@X11_return_after_download Raw.codec Demo.block_size
              Demo.response w (run_reachable _ _ _ Hrun) Hpc)
    as (_ & _ & _ & Hend & Hl & _).
  split; assumption.
Defined.

(** The demo session when its one block is on the queue. *)
Lemma X12_witness :
  exists w,
    run Demo.block_size
        (Demo.header_phase ++ Demo.download_rest ++ Demo.finish_download
         ++ repeat TMain 9)
        (start Raw.codec Demo.response) = Some w
    /\ exists full last,
         enqueued w = full ++ last
         /\ Forall (full_block Demo.block_size (obj w)) full
         /\ (last = []
             \/ exists b,
                  last = [b] /\ b <> []
                  /\ ~ full_block Demo.block_size (obj w) b
                  /\ m_after_feed (m_pc (mn w)) = true).
Proof.
  destruct (@run_observe Raw.codec Demo.block_size _
              (fun w => m_pc (mn w))
              (Demo.header_phase ++ Demo.download_rest
               ++ Demo.finish_download ++ repeat TMain 9)
              (start Raw.codec Demo.response) M637)
    as (w & Hrun & _); [vm_compute; reflexivity|].
  exists w. split; [exact Hrun|].
  assert (H0 : 0 < Demo.block_size)
    by (unfold Demo.block_size, default_playbackBlockSize; lia).
  exact (@X12_queue_shape Raw.codec Demo.block_size H0 Raw_channels_pos
           Demo.response w (run_reachable _ _ _ Hrun)).
Defined.

(** The stream of the demo session has just been opened: the queue is
    empty and two chunks are still to come. *)
Lemma X13_witness :
  exists w,
    run Demo.block_size (Demo.header_phase ++ [TMain])
        (start Raw.codec Demo.response) = Some w
    /\ exists w1,
         dev_step Demo.block_size w = Some w1
         /\ dev w1 = Dev_stopping
         /\ forall w',
              reachable_from Demo.block_size w1 w' ->
              dev w' <> Dev_active
              /\ pops (trace (obj w')) = pops (trace (obj w))
              /\ starts (trace (obj w')) = starts (trace (obj w)).
Proof.
  destruct (@run_observe Raw.codec Demo.block_size _
              (fun w => (dev w, _q (obj w), downloadDoneEvent (ev w)))
              (Demo.header_phase ++ [TMain])
              (start Raw.codec Demo.response) (Dev_active, [], false))
    as (w & Hrun & Hobs); [vm_compute; reflexivity|].
  injection Hobs as Hdev Hq Hdone.
  exists w. split; [exact Hrun|].
  exact (@X13_underrun_stops_playback Raw.codec Demo.block_size
           Demo.response w (run_reachable _ _ _ Hrun) Hdev Hq Hdone).
Defined.

(** The same session carried to its end: the stream is aborted before
    the first block is on the queue, the feed loop enqueues the block
    all the same, and [begin_streaming] returns with the block never
    taken and [onPlaybackStart] never called. *)
Example underrun_in_session :
  exists w,
    run Demo.block_size
        (Demo.header_phase ++ [TMain; TDevice; TDevice]
         ++ Demo.download_rest ++ Demo.finish_download
         ++ repeat TMain 8 ++ repeat TMain 12 ++ repeat TMain 3)
        (start Raw.codec Demo.response) = Some w
    /\ m_pc (mn w) = M_done
    /\ length (_q (obj w)) = 1
    /\ pops (trace (obj w)) = []
    /\ starts (trace (obj w)) = 0
    /\ ends (trace (obj w)) = 1.
Proof.
  destruct (@run_observe Raw.codec Demo.block_size _
              (fun w => (m_pc (mn w), length (_q (obj w)),
                         pops (trace (obj w)), starts (trace (obj w)),
                         ends (trace (obj w))))
              (Demo.header_phase ++ [TMain; TDevice; TDevice]
               ++ Demo.download_rest ++ Demo.finish_download
               ++ repeat TMain 8 ++ repeat TMain 12 ++ repeat TMain 3)
              (start Raw.codec Demo.response) (M_done, 1, [], 0, 1))
    as (w & Hrun & Hobs); [vm_compute; reflexivity|].
  injection Hobs as Hpc Hq Hpops Hst Hends.
  exists w. auto 10.
Qed.

(** * The tunables and a running session *)

(** X14. [edit_stream_settings] replaces the block size for every
    streamer at once (line 48).  When it changes the block size, a
    stream that was opened with the former one keeps calling the
    callback with the former number of frames: the callback then
    fails the assertion of line 567 and leaves the streamer as it
    was, taking nothing off the queue. *)
Theorem X14_block_size_changed_in_session :
  forall (C : Codec) (t : Voice.Tunables) playbackBlockSize downloadChunkSize
         outdata (s : Streamer C),
    let t' := Voice.edit_stream_settings playbackBlockSize downloadChunkSize t
    in
    Voice._playbackBlockSize t' <> Voice._playbackBlockSize t ->
    playbackBlockSize = Some (Voice._playbackBlockSize t')
    /\ _stream_playback_callback (Voice._playbackBlockSize t') outdata
                                 (Voice._playbackBlockSize t) s
       = (Raise AssertionError, s).
Proof.
  intros C t pb dc outdata s t' Hne. split.
  - subst t'. unfold Voice.edit_stream_settings in *.
    destruct pb as [b|], dc as [c|]; simpl in *;
      try reflexivity; now elim Hne.
  - unfold _stream_playback_callback.
    replace (Voice._playbackBlockSize t =? Voice._playbackBlockSize t')
      with false; [reflexivity|].
    symmetry. apply Nat.eqb_neq. auto.
Qed.

(** The default block size is halved while a session is on. *)
Lemma X14_witness :
  _stream_playback_callback 1024 (repeat x00 8) 2048
    (mkStreamer Raw.codec [[x01; x02]] BytesIO.empty None 4 Demo.parsed [])
  = (Raise AssertionError,
     mkStreamer Raw.codec [[x01; x02]] BytesIO.empty None 4 Demo.parsed []).
Proof.
  refine (proj2 (@X14_block_size_changed_in_session Raw.codec
                   (Voice.mkTunables 2048 4096) (Some 1024) None
                   (repeat x00 8)
                   (mkStreamer Raw.codec [[x01; x02]] BytesIO.empty None 4
                               Demo.parsed []) _)).
  simpl. lia.
Defined.

(** * Properties of the REST layer *)

Section VoiceProperties.

Import Ascii String Voice.
Local Open Scope string_scope.

Variable num : Type.
Variables zero one : num.
Variable leb : num -> num -> bool.

Ltac run_m :=
  unfold Voice.bind, Voice.ret, Voice.raise, Voice.lift, Voice.call,
         Voice.json_of; simpl.

Lemma bind_run : forall (A B : Type) (m : M num A) (k : A -> M num B) srv log,
  bind m k srv log
  = match m srv log with
    | (Ok a, log') => k a srv log'
    | (Err e, log') => (Err e, log')
    end.
Proof. reflexivity. Qed.

(** What [get_settings] returns and what it asks the server. *)
Lemma get_settings_cases : forall (v : voice num) srv log,
  (_voiceID v = PStr (match _voiceID v with PStr id => id | _ => EmptyString end)
   \/ get_settings v srv log = (Err TypeError, log))
  /\ forall id,
       _voiceID v = PStr id ->
       let rq := api_get ("/voices/" ++ id ++ "/settings")
                         (headers (_linkedUser v)) in
       get_settings v srv log
       = (match srv log rq with
          | Some r =>
              match json r with
              | Some j => Ok j
              | None => Err Raised
              end
          | None => Err Raised
          end, (log ++ [rq])%list).
Proof.
  intros v srv log. unfold get_settings, voice_path. run_m. split.
  - destruct (_voiceID v); auto.
  - intros id ->. simpl.
    destruct (srv log _) as [[[j|] c]|]; reflexivity.
Qed.

(** X15. Called without [similarity_boost], [edit_settings] never edits
    anything: line 140 assigns the current similarity boost to
    [stability] and leaves [similarity_boost] at [None], so the range
    check raises, and the method ends in an exception after at most
    the one request of [get_settings]; no request is made through
    [_api_json]. *)
Theorem X15_edit_settings_needs_similarity_boost :
  forall (v : voice num) stability srv log,
    let r := edit_settings zero one leb v stability None srv log in
    is_Err (fst r) = true
    /\ (snd r = log
        \/ exists path,
             snd r = (log ++ [api_get path (headers (_linkedUser v))])%list).
Proof.
  intros v stability srv log. cbv zeta.
  destruct (get_settings_cases v srv log) as [Hid Hget].
  unfold edit_settings. simpl of_arg. simpl is_None.
  rewrite orb_true_r.
  rewrite !bind_run.
  destruct Hid as [Hid | Hfail].
  2:{ rewrite Hfail. simpl. auto. }
  rewrite (Hget _ Hid). cbv zeta.
  set (rq := api_get _ _).
  assert (Hlog : true = true
            /\ ((log ++ [rq])%list = log
                \/ exists path,
                     (log ++ [rq])%list
                     = (log ++ [api_get path (headers (_linkedUser v))])%list)).
  { split; [reflexivity|]. right. eexists. reflexivity. }
  destruct (srv log rq) as [[[j|] c]|]; simpl; try exact Hlog.
  run_m.
  destruct (is_None (of_arg stability)).
  - destruct (subscript j "stability") as [s0|e]; simpl; try exact Hlog.
    destruct (subscript j "similarity_boost") as [s1|e]; simpl;
      try exact Hlog.
    unfold out_of_range. run_m.
    destruct (in_unit zero one leb s1) as [[|]|e]; simpl; exact Hlog.
  - destruct (subscript j "similarity_boost") as [s1|e]; simpl;
      try exact Hlog.
    unfold out_of_range. run_m.
    destruct (in_unit zero one leb s1) as [[|]|e]; simpl; exact Hlog.
Qed.

(** X16. With [similarity_boost] omitted and a server that answers
    [get_settings] with a dict holding a number for
    ["similarity_boost"] (and ["stability"], when that is omitted
    too), [edit_settings] raises [TypeError] when that number is
    between 0 and 1, from the comparison of [None] with 0, and
    [ValueError] otherwise. *)
Theorem X16_edit_settings_type_error :
  forall (v : voice num) stability srv log id d c x,
    _voiceID v = PStr id ->
    srv log (api_get ("/voices/" ++ id ++ "/settings")
                     (headers (_linkedUser v)))
    = Some (mkReply (Some (PDict d)) c) ->
    (stability = None -> lookup "stability" d <> None) ->
    lookup "similarity_boost" d = Some (PNum x) ->
    fst (edit_settings zero one leb v stability None srv log)
    = Err (if in_range zero one leb x then TypeError else ValueError).
Proof.
  intros v stability srv log id d c x Hid Hsrv Hst Hsb.
  destruct (get_settings_cases v srv log) as [_ Hget].
  unfold edit_settings. simpl of_arg. simpl is_None.
  rewrite orb_true_r.
  rewrite !bind_run.
  rewrite (Hget _ Hid). cbv zeta. rewrite Hsrv. simpl.
  run_m. rewrite Hsb.
  destruct stability as [s|]; simpl.
  - unfold out_of_range. run_m.
    destruct (in_range zero one leb x); reflexivity.
  - destruct (lookup "stability" d) as [s0|]; [|now elim Hst].
    simpl. unfold out_of_range. run_m.
    destruct (in_range zero one leb x); reflexivity.
Qed.

(** X17. With both values given, [edit_settings] asks the server
    nothing before it has checked them: out of range, it raises
    [ValueError] and makes no request; in range, its one request is
    the [_api_json] call with exactly the two values, and the current
    settings are never fetched. *)
Theorem X17_edit_settings_validates_first :
  forall (v : voice num) s b srv log,
    let r := edit_settings zero one leb v (Some s) (Some b) srv log in
    (in_range zero one leb s && in_range zero one leb b = false ->
     r = (Err ValueError, log))
    /\ (in_range zero one leb s && in_range zero one leb b = true ->
        forall id,
          _voiceID v = PStr id ->
          let rq := api_json ("/voices/" ++ id ++ "/settings/edit")
                             (headers (_linkedUser v))
                             (PDict [("stability", PNum s);
                                     ("similarity_boost", PNum b)]) in
          r = (match srv log rq with
               | Some _ => Ok tt
               | None => Err Raised
               end, (log ++ [rq])%list)).
Proof.
  intros v s b srv log. cbv zeta.
  unfold edit_settings, out_of_range, voice_path. run_m.
  destruct (in_range zero one leb s); simpl.
  - destruct (in_range zero one leb b); simpl.
    + split; [discriminate|]. intros _ id ->. simpl.
      destruct (srv log _); reflexivity.
    + split; [reflexivity | discriminate].
  - split; [reflexivity | discriminate].
Qed.

Lemma generate_payload_cases :
  forall (v : voice num) prompt stability similarity_boost model_id srv log,
    let r := _generate_payload zero one leb v prompt stability
                               similarity_boost model_id srv log in
    (forall p, fst r = Ok p ->
               payload_ok zero one leb prompt model_id stability similarity_boost p)
    /\ (snd r = log
        \/ exists path,
             snd r = (log ++ [api_get path (headers (_linkedUser v))])%list)
    /\ (stability = None -> similarity_boost = None -> snd r = log).
Proof.
  intros v prompt stability similarity_boost model_id srv log. cbv zeta.
  unfold _generate_payload.
  destruct stability as [s|], similarity_boost as [b|];
    cbn [of_arg is_None negb orb].
  4:{ unfold ret. simpl. repeat split; auto.
      intros p Hp. injection Hp as <-. left. auto. }
  all: rewrite !bind_run;
    destruct (get_settings_cases v srv log) as [[Hid | Hfail] Hget];
    [rewrite (Hget _ Hid); cbv zeta
    |rewrite Hfail; simpl; repeat split; auto; discriminate].
  all: match goal with
       | |- context [api_get ?p ?h] => set (rq := api_get p h)
       end.
  all: assert (Hlog : (log ++ [rq])%list = log
                      \/ exists path,
                           (log ++ [rq])%list
                           = (log ++ [api_get path (headers (_linkedUser v))])%list)
         by (right; eexists; reflexivity).
  all: destruct (srv log rq) as [[[j|] c]|]; simpl;
    try solve [repeat split;
               solve [exact Hlog | intros; discriminate]].
  all: run_m; unfold out_of_range; run_m.
  all: repeat match goal with
         | |- context [subscript ?j ?k] =>
             destruct (subscript j k) as [[ |?x| | | | ]|?e]; simpl
         end;
       try solve [repeat split;
                  solve [exact Hlog | intros; discriminate]].
  all: repeat match goal with
         | |- context [in_range zero one leb ?x] =>
             let H := fresh "Hr" in
             destruct (in_range zero one leb x) eqn:H; simpl
         end;
       try solve [repeat split;
                  solve [exact Hlog | intros; discriminate]].
  all: repeat split; try solve [exact Hlog | intros; discriminate].
  all: intros p Hp; injection Hp as <-; right.
  - exists s, b. repeat split; auto; try (left; discriminate); congruence.
  - exists s, x. repeat split; auto; try (left; discriminate);
      intros; congruence.
  - exists x, b. repeat split; auto; try (right; discriminate);
      intros; congruence.
Qed.

(** X18. A payload returned by [_generate_payload] holds
    ["voice_settings"] exactly when one of the two values was given;
    both values in it are then numbers between 0 and 1, a value given
    by the caller being passed on as it is and a value taken from the
    server having gone through the same check; with neither value
    given no request is made. *)
Theorem X18_generate_payload_validated :
  forall (v : voice num) prompt stability similarity_boost model_id srv log p,
    fst (_generate_payload zero one leb v prompt stability similarity_boost
                           model_id srv log) = Ok p ->
    payload_ok zero one leb prompt model_id stability similarity_boost p
    /\ (stability = None -> similarity_boost = None ->
        snd (_generate_payload zero one leb v prompt stability
                               similarity_boost model_id srv log) = log).
Proof.
  intros v prompt stability similarity_boost model_id srv log p Hp.
  destruct (generate_payload_cases v prompt stability similarity_boost
              model_id srv log) as (H1 & _ & H3).
  split; [exact (H1 p Hp) | exact H3].
Qed.

(** X19. [generate_audio_bytes] sends its text-to-speech request only
    with a payload that passed the check of [_generate_payload]: the
    requests of a call are at most the one of [get_settings] followed
    by at most one through [_api_json], to
    ["/text-to-speech/" + voiceID + "/stream"], whose payload is as
    above; when the call returns, that request was made and the bytes
    returned are the content of its response. *)
Theorem X19_tts_request_is_validated :
  forall (v : voice num) prompt stability similarity_boost model_id srv log,
    let r := generate_audio_bytes zero one leb v prompt stability
                                  similarity_boost model_id srv log in
    exists gets posts,
      snd r = (log ++ gets ++ posts)%list
      /\ (gets = [] \/ exists path,
                         gets = [api_get path (headers (_linkedUser v))])
      /\ (posts = []
          \/ exists id p,
               _voiceID v = PStr id
               /\ posts = [api_json ("/text-to-speech/" ++ id ++ "/stream")
                                    (headers (_linkedUser v)) p]
               /\ payload_ok zero one leb prompt model_id stability
                             similarity_boost p)
      /\ (forall b, fst r = Ok b ->
                    exists rq reply,
                      posts = [rq]
                      /\ srv (log ++ gets)%list rq = Some reply
                      /\ b = content reply).
Proof.
  intros v prompt stability similarity_boost model_id srv log. cbv zeta.
  destruct (generate_payload_cases v prompt stability similarity_boost
              model_id srv log) as (H1 & H2 & _).
  unfold generate_audio_bytes. rewrite bind_run.
  destruct (_generate_payload zero one leb v prompt stability
              similarity_boost model_id srv log) as [[p|e] log1].
  2:{ simpl in *. destruct H2 as [-> | [path ->]].
      - exists [], []. rewrite app_nil_r. repeat split; auto. discriminate.
      - exists [api_get path (headers (_linkedUser v))], [].
        rewrite app_nil_r. repeat split; auto.
        + right. eexists. reflexivity.
        + discriminate. }
  simpl in H1, H2. specialize (H1 p eq_refl).
  assert (Hgets : exists gets,
             log1 = (log ++ gets)%list
             /\ (gets = [] \/ exists path,
                    gets = [api_get path (headers (_linkedUser v))])).
  { destruct H2 as [-> | [path ->]].
    - exists []. rewrite app_nil_r. auto.
    - eexists. split; [reflexivity|]. right. eexists. reflexivity. }
  destruct Hgets as (gets & -> & Hgets).
  unfold voice_path. run_m.
  destruct (_voiceID v) as [ |x|id|bb|l|d] eqn:Hid; simpl;
    try (exists gets, []; rewrite app_nil_r; repeat split; auto;
         discriminate).
  exists gets,
    [api_json ("/text-to-speech/" ++ id ++ "/stream")
              (headers (_linkedUser v)) p].
  destruct (srv (log ++ gets)%list _) as [reply|] eqn:Hsrv; simpl;
    rewrite <- app_assoc; repeat split; auto;
    try (right; exists id, p; auto); try discriminate.
  intros b Hb. injection Hb as <-. eauto.
Qed.

(** ** Editing and deleting a voice *)

Lemma get_info_cases : forall (v : voice num) srv log,
  (_voiceID v = PStr (match _voiceID v with PStr id => id | _ => EmptyString end)
   \/ get_info v srv log = (Err TypeError, log))
  /\ forall id,
       _voiceID v = PStr id ->
       let rq := api_get ("/voices/" ++ id) (headers (_linkedUser v)) in
       get_info v srv log
       = (match srv log rq with
          | Some r =>
              match json r with
              | Some j => Ok j
              | None => Err Raised
              end
          | None => Err Raised
          end, (log ++ [rq])%list).
Proof.
  intros v srv log. unfold get_info. run_m. split.
  - destruct (_voiceID v); auto.
  - intros id ->. simpl.
    destruct (srv log _) as [[[j|] c]|]; reflexivity.
Qed.

(** X20. [edit_voice] with more than five labels edits nothing: it
    ends in an exception, and the only request it can have made is
    the one of [get_info]; with a server that answers [get_info] with
    a name, labels and a description, the exception is the
    [ValueError] of line 358. *)
Theorem X20_edit_voice_label_limit :
  forall (v : voice num) newName l description srv log,
    5 < List.length l ->
    let r := edit_voice v newName (Some l) description srv log in
    is_Err (fst r) = true
    /\ (snd r = log
        \/ exists path,
             snd r = (log ++ [api_get path (headers (_linkedUser v))])%list)
    /\ (forall id reply info n lb d,
          _voiceID v = PStr id ->
          srv log (api_get ("/voices/" ++ id) (headers (_linkedUser v)))
          = Some reply ->
          json reply = Some info ->
          subscript info "name" = Ok n ->
          subscript info "labels" = Ok lb ->
          subscript info "description" = Ok d ->
          fst r = Err ValueError).
Proof.
  intros v newName l description srv log Hlen. cbv zeta.
  apply Nat.ltb_lt in Hlen.
  unfold edit_voice. rewrite !bind_run.
  destruct (get_info_cases v srv log) as [[Hid | Hfail] Hget].
  2:{ rewrite Hfail. simpl. repeat split; auto.
      intros id reply info n lb d Hid'.
      rewrite (Hget _ Hid') in Hfail. cbv zeta in Hfail.
      injection Hfail as _ Hl.
      apply (f_equal (@List.length _)) in Hl.
      rewrite length_app in Hl. simpl in Hl. lia. }
  rewrite (Hget _ Hid). cbv zeta.
  match goal with
  | |- context [api_get ?p ?h] => set (rq := api_get p h)
  end.
  assert (Hlog : (log ++ [rq])%list = log
                 \/ exists path,
                      (log ++ [rq])%list
                      = (log ++ [api_get path (headers (_linkedUser v))])%list)
    by (right; eexists; reflexivity).
  assert (Hrq : forall id, _voiceID v = PStr id ->
                           api_get ("/voices/" ++ id)
                                   (headers (_linkedUser v)) = rq).
  { intros id Hid'. subst rq. now rewrite Hid'. }
  destruct (srv log rq) as [[[j|] c]|] eqn:Hsrv; simpl.
  - run_m.
    destruct (subscript j "name") as [n|e] eqn:Hn; simpl.
    + destruct (subscript j "labels") as [lb|e] eqn:Hlb; simpl.
      * destruct (subscript j "description") as [d|e] eqn:Hd; simpl.
        -- rewrite Hlen. simpl. repeat split; auto.
        -- repeat split; auto.
           intros id reply info n' lb' d' Hid' Hs Hj Hn' Hlb' Hd'.
           pose proof (Hrq _ Hid') as Hq; simpl in Hq; rewrite Hq, Hsrv in Hs.
           injection Hs as <-.
           simpl in Hj. injection Hj as <-. congruence.
      * repeat split; auto.
        intros id reply info n' lb' d' Hid' Hs Hj Hn' Hlb' Hd'.
        pose proof (Hrq _ Hid') as Hq; simpl in Hq; rewrite Hq, Hsrv in Hs.
           injection Hs as <-.
        simpl in Hj. injection Hj as <-. congruence.
    + repeat split; auto.
      intros id reply info n' lb' d' Hid' Hs Hj Hn' Hlb' Hd'.
      pose proof (Hrq _ Hid') as Hq; simpl in Hq; rewrite Hq, Hsrv in Hs.
           injection Hs as <-.
      simpl in Hj. injection Hj as <-. congruence.
  - repeat split; auto.
    intros id reply info n' lb' d' Hid' Hs Hj.
    pose proof (Hrq _ Hid') as Hq; simpl in Hq; rewrite Hq, Hsrv in Hs.
           injection Hs as <-. discriminate.
  - repeat split; auto.
    intros id reply info n' lb' d' Hid' Hs.
    pose proof (Hrq _ Hid') as Hq; simpl in Hq; rewrite Hq, Hsrv in Hs.
    discriminate.
Qed.

(** X21. When [edit_voice] returns it has made two requests: the one
    of [get_info] and one through [_api_multipart] to
    ["/voices/" + voiceID + "/edit"], without files, whose data are a
    name, labels and a description; each is the value given by the
    caller, or, when that is omitted, the value the server has just
    reported; labels given by the caller are at most five. *)
Theorem X21_edit_voice_payload :
  forall (v : voice num) newName newLabels description srv log,
    let r := edit_voice v newName newLabels description srv log in
    fst r = Ok tt ->
    exists id reply info n lb d,
      _voiceID v = PStr id
      /\ srv log (api_get ("/voices/" ++ id) (headers (_linkedUser v)))
         = Some reply
      /\ json reply = Some info
      /\ subscript info "name" = Ok n
      /\ subscript info "labels" = Ok lb
      /\ subscript info "description" = Ok d
      /\ (forall l, newLabels = Some l -> List.length l <= 5)
      /\ snd r
         = (log ++
            [api_get ("/voices/" ++ id) (headers (_linkedUser v));
             api_multipart
               ("/voices/" ++ id ++ "/edit") (headers (_linkedUser v))
               (PDict
                  [("name",
                    match newName with Some x => PStr x | None => n end);
                   ("labels",
                    match newLabels with
                    | Some l =>
                        PDict (map (fun kv => (fst kv, PStr (snd kv))) l)
                    | None => lb
                    end);
                   ("description",
                    match description with
                    | Some x => PStr x
                    | None => d
                    end)])
               None])%list.
Proof.
  intros v newName newLabels description srv log. cbv zeta.
  unfold edit_voice. rewrite !bind_run.
  destruct (get_info_cases v srv log) as [[Hid | Hfail] Hget].
  2:{ rewrite Hfail. simpl. discriminate. }
  rewrite (Hget _ Hid). cbv zeta.
  set (id := match _voiceID v with PStr id => id | _ => EmptyString end) in *.
  destruct (srv log _) as [[[j|] c]|] eqn:Hsrv; simpl; try discriminate.
  run_m.
  destruct (subscript j "name") as [n|e] eqn:Hn; simpl; try discriminate.
  destruct (subscript j "labels") as [lb|e] eqn:Hlb; simpl; try discriminate.
  destruct (subscript j "description") as [d|e] eqn:Hd; simpl;
    try discriminate.
  destruct newLabels as [l|]; simpl.
  - destruct (5 <? List.length l)%nat eqn:Hlen; simpl; try discriminate.
    apply Nat.ltb_ge in Hlen.
    unfold voice_path. run_m. rewrite Hid. simpl.
    destruct (srv (log ++ _)%list _) as [r2|]; simpl; try discriminate.
    intros _. exists id, (mkReply (Some j) c), j, n, lb, d.
    rewrite <- app_assoc. simpl.
    repeat split; auto. intros l' Hl'. injection Hl' as <-. exact Hlen.
  - unfold voice_path. run_m. rewrite Hid. simpl.
    destruct (srv (log ++ _)%list _) as [r2|]; simpl; try discriminate.
    intros _. exists id, (mkReply (Some j) c), j, n, lb, d.
    rewrite <- app_assoc. simpl.
    repeat split; auto. discriminate.
Qed.

(** X22. A voice object made by [voiceFactory] has the class of its
    category: [ElevenLabsVoice] for ["premade"],
    [ElevenLabsClonedVoice] for ["cloned"], [ElevenLabsDesignedVoice]
    for ["generated"], and no object is made for any other category.
    So [delete_voice], a method of the two subclasses, never raises
    its [RuntimeError] on such an object; when it returns, its one
    request was the [_api_del] call to ["/voices/" + voiceID] and
    the object's [voiceID] is the empty string. *)
Theorem X22_factory_voice_delete :
  forall (voiceData : pyval num) linkedUser v srv log,
    voiceFactory voiceData linkedUser = Ok v ->
    (class_of v = ElevenLabsVoice /\ _category v = PStr "premade"
     \/ class_of v = ElevenLabsClonedVoice /\ _category v = PStr "cloned"
     \/ class_of v = ElevenLabsDesignedVoice
        /\ _category v = PStr "generated")
    /\ subscript voiceData "category" = Ok (_category v)
    /\ subscript voiceData "voice_id" = Ok (_voiceID v)
    /\ _linkedUser v = linkedUser
    /\ (is_designed (class_of v) = true ->
        let r := delete_voice v srv log in
        fst r <> Err RuntimeError
        /\ forall v',
             fst r = Ok v' ->
             _voiceID v' = PStr EmptyString
             /\ class_of v' = class_of v
             /\ exists id,
                  _voiceID v = PStr id
                  /\ snd r = (log ++ [api_del ("/voices/" ++ id)
                                              (headers linkedUser)])%list).
Proof.
  intros voiceData linkedUser v srv log Hf.
  unfold voiceFactory in Hf.
  destruct (subscript voiceData "category") as [cat|e] eqn:Hcat;
    [|discriminate].
  assert (Hinit : forall c, init c voiceData linkedUser = Ok v ->
            class_of v = c /\ _category v = cat
            /\ subscript voiceData "voice_id" = Ok (_voiceID v)
            /\ _linkedUser v = linkedUser).
  { intros c. unfold init. rewrite Hcat.
    destruct (subscript voiceData "name"); [|discriminate].
    destruct (subscript voiceData "voice_id"); [|discriminate].
    intros Hv. injection Hv as <-. auto. }
  assert (Hstr : forall s, eq_str cat s = true -> cat = PStr s).
  { intros s. destruct cat; simpl; try discriminate.
    intros H. apply String.eqb_eq in H. now subst. }
  assert (Hcls : (class_of v = ElevenLabsVoice /\ _category v = PStr "premade"
     \/ class_of v = ElevenLabsClonedVoice /\ _category v = PStr "cloned"
     \/ class_of v = ElevenLabsDesignedVoice
        /\ _category v = PStr "generated")
     /\ _category v = cat
     /\ subscript voiceData "voice_id" = Ok (_voiceID v)
     /\ _linkedUser v = linkedUser).
  { destruct (eq_str cat "premade") eqn:H1.
    { destruct (Hinit _ Hf) as (Hc & Hk & Hrest).
      split; [|auto]. left. rewrite Hc, Hk. auto. }
    destruct (eq_str cat "cloned") eqn:H2.
    { destruct (Hinit _ Hf) as (Hc & Hk & Hrest).
      split; [|auto]. right. left. rewrite Hc, Hk. auto. }
    destruct (eq_str cat "generated") eqn:H3.
    { destruct (Hinit _ Hf) as (Hc & Hk & Hrest).
      split; [|auto]. right. right. rewrite Hc, Hk. auto. }
    destruct cat; discriminate. }
  destruct Hcls as (Hcls & Hk & Hid & Hu).
  split; [exact Hcls|]. split; [now rewrite Hk|].
  split; [exact Hid|]. split; [exact Hu|].
  intros Hdes. cbv zeta.
  assert (Hnot : eq_str (_category v) "premade" = false).
  { destruct Hcls as [[Hc _] | [[_ Hc] | [_ Hc]]].
    - rewrite Hc in Hdes. discriminate.
    - rewrite Hc. reflexivity.
    - rewrite Hc. reflexivity. }
  unfold delete_voice. rewrite Hnot. run_m. rewrite Hu.
  destruct (_voiceID v) as [ |x|id|bb|l|d]; simpl;
    try (split; [discriminate | intros; discriminate]).
  destruct (srv log _); simpl.
  - split; [discriminate|]. intros v' Hv'. injection Hv' as <-. simpl.
    repeat split. exists id. auto.
  - split; [discriminate | intros; discriminate].
Qed.

(** ** Samples *)

Lemma rindex_none : forall c s, rindex c s = None -> contains c s = false.
Proof.
  intros c s. induction s as [|a s IH]; simpl; [reflexivity|].
  destruct (rindex c s) as [i|]; [discriminate|].
  destruct (Ascii.eqb a c); [discriminate|].
  intros _. now apply IH.
Qed.

Lemma rindex_some : forall c s i,
  rindex c s = Some i ->
  contains c (drop (i + 1) s) = false
  /\ exists pre, s = pre ++ String c (drop (i + 1) s).
Proof.
  intros c s. induction s as [|a s IH]; intros i; simpl; [discriminate|].
  destruct (rindex c s) as [j|] eqn:Hr.
  - intros Hi. injection Hi as <-. simpl.
    destruct (IH j eq_refl) as (Hc & pre & Hs). split; [exact Hc|].
    exists (String a pre). simpl. now rewrite <- Hs.
  - destruct (Ascii.eqb a c) eqn:Ha; [|discriminate].
    intros Hi. injection Hi as <-. simpl.
    apply Ascii.eqb_eq in Ha. subst a.
    split; [now apply rindex_none|].
    exists EmptyString. reflexivity.
Qed.

Lemma fileName_of_total : forall samplePath,
  exists fileName,
    fileName_of samplePath = Ok fileName
    /\ contains backslash fileName = false
    /\ (contains backslash samplePath = false /\ fileName = samplePath
        \/ exists dir,
             samplePath = dir ++ String backslash fileName).
Proof.
  intros p. unfold fileName_of.
  destruct (contains backslash p) eqn:Hc.
  - destruct (rindex backslash p) as [i|] eqn:Hr.
    + destruct (rindex_some _ _ Hr) as (Hno & pre & Hp).
      exists (drop (i + 1) p). repeat split; auto.
      right. exists pre. exact Hp.
    + apply rindex_none in Hr. congruence.
  - exists p. auto.
Qed.

(** X23. The file name [add_samples_by_path] derives from a path
    (lines 401-404) is what follows the last backslash of the path,
    the path itself when it has none; it never holds a backslash, and
    the derivation never raises. *)
Theorem X23_file_name_of_path : forall samplePath,
  exists fileName,
    fileName_of samplePath = Ok fileName
    /\ contains backslash fileName = false
    /\ (contains backslash samplePath = false /\ fileName = samplePath
        \/ exists dir,
             samplePath = dir ++ String backslash fileName).
Proof. exact fileName_of_total. Qed.

Lemma setitem_keys : forall (A : Type) key (x : A) d,
  map fst (setitem key x d)
  = if existsb (fun k => String.eqb k key) (map fst d)
    then map fst d
    else (map fst d ++ [key])%list.
Proof.
  intros A key x d. induction d as [|[k y] d IH]; simpl; [reflexivity|].
  destruct (String.eqb k key) eqn:Hk; simpl; [reflexivity|].
  rewrite IH. now destruct (existsb _ _).
Qed.

Lemma setitem_NoDup : forall (A : Type) key (x : A) d,
  NoDup (map fst d) -> NoDup (map fst (setitem key x d)).
Proof.
  intros A key x d Hd. rewrite setitem_keys.
  destruct (existsb _ _) eqn:He; [exact Hd|].
  apply NoDup_app; [exact Hd | repeat constructor; auto |].
  intros k Hin [Hk | []]. subst k.
  assert (Ht : existsb (fun k => String.eqb k key) (map fst d) = true).
  { apply existsb_exists. exists key. split; [exact Hin|].
    apply String.eqb_refl. }
  congruence.
Qed.

Lemma setitem_In : forall (A : Type) key (x : A) d k,
  In k (map fst (setitem key x d)) -> k = key \/ In k (map fst d).
Proof.
  intros A key x d k. rewrite setitem_keys.
  destruct (existsb _ _); [auto|].
  rewrite in_app_iff. simpl. intuition.
Qed.

Lemma read_samples_cons : forall p rest acc (srv : Server num) log,
  read_samples (p :: rest) acc srv log
  = match fileName_of p with
    | Err e => (Err e, log)
    | Ok f =>
        match srv log (open_rb p) with
        | Some file =>
            read_samples rest (setitem f (content file) acc) srv
                         (log ++ [open_rb p])%list
        | None => (Err Raised, (log ++ [open_rb p])%list)
        end
    end.
Proof.
  intros p rest acc srv log. simpl. unfold bind, lift, call.
  destruct (fileName_of p); [|reflexivity].
  destruct (srv log (open_rb p)); reflexivity.
Qed.

Lemma read_samples_cases : forall samples paths acc srv log,
  names_ok paths acc ->
  (forall p, In p samples -> In p paths) ->
  let r := read_samples samples acc srv log in
  exists k,
    snd r = (log ++ map (@open_rb num) (firstn k samples))%list
    /\ forall d, fst r = Ok d -> k = List.length samples /\ names_ok paths d.
Proof.
  intros samples. induction samples as [|p rest IH];
    intros paths acc srv log Hacc Hsub; cbv zeta.
  - exists 0. simpl. rewrite app_nil_r. split; [reflexivity|].
    intros d Hd. unfold ret in Hd. simpl in Hd. injection Hd as <-.
    split; [reflexivity | exact Hacc].
  - rewrite read_samples_cons.
    destruct (fileName_of_total p) as (f & Hf & Hno & _).
    rewrite Hf.
    destruct (srv log (open_rb p)) as [file|].
    + assert (Hacc' : names_ok paths (setitem f (content file) acc)).
      { destruct Hacc as [Hnd Hk]. split; [now apply setitem_NoDup|].
        intros k Hin. apply setitem_In in Hin.
        destruct Hin as [-> | Hin]; [|now apply Hk].
        split; [exact Hno|]. exists p. split; [|exact Hf].
        apply Hsub. now left. }
      destruct (@IH paths (setitem f (content file) acc) srv
                  (log ++ [open_rb p])%list Hacc')
        as (k & Hlog & Hok).
      { intros q Hq. apply Hsub. now right. }
      exists (S k). simpl. rewrite Hlog, <- app_assoc. split; [reflexivity|].
      intros d Hd. destruct (Hok d Hd) as (-> & Hn).
      split; [reflexivity | exact Hn].
    + exists 1. simpl. split; [reflexivity | discriminate].
Qed.

Lemma add_samples_bytes_cases : forall (v : voice num) samples srv log,
  let r := add_samples_bytes v samples srv log in
  (samples = [] -> r = (Err ValueError, log))
  /\ exists api,
       snd r = (log ++ api)%list
       /\ Forall (fun rq => is_open rq = false) api
       /\ (forall path h data files,
             In (api_multipart path h data files) api ->
             files = Some (map (fun kv => ("files", (fst kv, snd kv))) samples)
             /\ exists id name,
                  _voiceID v = PStr id
                  /\ path = "/voices/" ++ id ++ "/edit"
                  /\ data = PDict [("name", name)])
       /\ (fst r = Ok tt ->
           exists rq1 rq2, api = [rq1; rq2]
                           /\ is_api_get rq1 = true
                           /\ is_api_multipart rq2 = true).
Proof.
  intros v samples srv log. cbv zeta.
  split; [now intros ->|].
  destruct (add_samples_bytes v samples srv log) as [res log'] eqn:Hr.
  cbn [fst snd]. unfold add_samples_bytes in Hr.
  destruct samples as [|s0 samples]; cbn [List.length Nat.eqb] in Hr.
  { injection Hr as <- <-. exists []. rewrite app_nil_r.
    split; [reflexivity|]. split; [constructor|].
    split; [intros ? ? ? ? [] | discriminate]. }
  set (files := map (fun kv : string * bytes => ("files", (fst kv, snd kv)))
                    (s0 :: samples)) in *.
  unfold get_name in Hr. rewrite !bind_run in Hr.
  destruct (get_info_cases v srv log) as [[Hid | Hfail] Hget].
  2:{ rewrite Hfail in Hr. injection Hr as <- <-.
      exists []. rewrite app_nil_r.
      split; [reflexivity|]. split; [constructor|].
      split; [intros ? ? ? ? [] | discriminate]. }
  rewrite (Hget _ Hid) in Hr. cbv zeta in Hr.
  set (id := match _voiceID v with PStr id => id | _ => EmptyString end) in *.
  set (rq1 := api_get _ _) in *.
  assert (H1 : forall e : error,
             (Err e, (log ++ [rq1])%list) = (res, log') ->
             exists api,
               log' = (log ++ api)%list
               /\ Forall (fun rq => is_open rq = false) api
               /\ (forall path h data fs,
                     In (api_multipart path h data fs) api ->
                     fs = Some files
                     /\ exists id name,
                          _voiceID v = PStr id
                          /\ path = "/voices/" ++ id ++ "/edit"
                          /\ data = PDict [("name", name)])
               /\ (res = Ok tt ->
                   exists rq1 rq2, api = [rq1; rq2]
                                   /\ is_api_get rq1 = true
                                   /\ is_api_multipart rq2 = true)).
  { intros e He. injection He as <- <-. exists [rq1].
    split; [reflexivity|]. split; [repeat constructor|].
    split; [|discriminate].
    intros ? ? ? ? [H | []]. discriminate. }
  destruct (srv log rq1) as [[[j|] c]|]; cbn [json] in Hr;
    try (eapply H1; exact Hr).
  unfold lift at 1 in Hr.
  destruct (subscript j "name") as [name|e]; try (eapply H1; exact Hr).
  unfold voice_path in Hr. rewrite !bind_run in Hr.
  unfold lift at 1 in Hr. rewrite Hid in Hr. cbn [str_add] in Hr.
  unfold ret at 1 in Hr. unfold call in Hr.
  set (rq2 := api_multipart _ _ _ _) in *.
  assert (Hfin : ((log ++ [rq1]) ++ [rq2])%list = (log ++ [rq1; rq2])%list)
    by now rewrite <- app_assoc.
  assert (Hm : forall path h data fs,
             In (api_multipart path h data fs) [rq1; rq2] ->
             fs = Some files
             /\ exists id name,
                  _voiceID v = PStr id
                  /\ path = "/voices/" ++ id ++ "/edit"
                  /\ data = PDict [("name", name)]).
  { intros path h data fs [H | [H | []]]; [discriminate|].
    injection H as <- <- <- <-. split; [reflexivity|].
    exists id, name. split; [exact Hid|]. split; reflexivity. }
  exists [rq1; rq2].
  rewrite bind_run in Hr. cbv beta in Hr.
  destruct (srv (log ++ [rq1])%list rq2); unfold ret in Hr;
    injection Hr as <- <-; rewrite Hfin;
    (split; [reflexivity|]); (split; [repeat constructor|]);
    (split; [exact Hm|]).
  - intros _. exists rq1, rq2. auto.
  - discriminate.
Qed.

Lemma samples_by_path_cases :
  forall (v : voice num) (l : list string) srv log,
    let r := add_samples_by_path v (inl l) srv log in
    (l = [] -> r = (Err ValueError, log))
    /\ exists k api,
         snd r = (log ++ map (@open_rb num) (firstn k l) ++ api)%list
         /\ Forall (fun rq => is_open rq = false) api
         /\ (api <> [] -> k = List.length l)
         /\ forall path h data files,
              In (api_multipart path h data (Some files)) api ->
              NoDup (map (fun f => fst (snd f)) files)
              /\ forall f, In f files ->
                           fst f = "files"
                           /\ contains backslash (fst (snd f)) = false
                           /\ exists p, In p l
                                        /\ fileName_of p = Ok (fst (snd f)).
Proof.
  intros v l srv log. cbv zeta. unfold add_samples_by_path.
  split; [intros ->; reflexivity|].
  rewrite bind_run.
  assert (H0 : names_ok l []).
  { split; [constructor | intros k []]. }
  destruct (@read_samples_cases l l [] srv log H0 (fun p Hp => Hp))
    as (k & Hlog & Hok).
  destruct (read_samples l [] srv log) as [[d|e] log1]; simpl in Hlog, Hok.
  2:{ exists k, []. subst log1. rewrite app_nil_r.
      split; [reflexivity|]. split; [constructor|].
      split; [intros Hx; now elim Hx | intros ? ? ? ? []]. }
  destruct (Hok d eq_refl) as (-> & [Hnd Hnames]).
  destruct (add_samples_bytes_cases v d srv log1)
    as (_ & api & Hlog2 & Hopen & Hmulti & _).
  exists (List.length l), api. rewrite Hlog2, Hlog, <- app_assoc.
  split; [reflexivity|]. split; [exact Hopen|]. split; [reflexivity|].
  intros path h data files Hin.
  destruct (Hmulti _ _ _ _ Hin) as (Hfiles & _).
  injection Hfiles as ->. split.
  - rewrite map_map. simpl. exact Hnd.
  - intros f Hf. apply in_map_iff in Hf.
    destruct Hf as (kv & <- & Hkv). simpl.
    split; [reflexivity|].
    apply (Hnames (fst kv)). apply in_map. exact Hkv.
Qed.

(** X24. [add_samples_by_path] on a list of paths opens the files in
    the order of the list and makes its first request to the API only
    after the last of them has been read; an empty list makes it raise
    [ValueError] without any request.  The files it uploads carry
    pairwise distinct names, none of which holds a backslash, each
    derived from one of the paths. *)
Theorem X24_samples_read_before_upload :
  forall (v : voice num) (l : list string) srv log,
    let r := add_samples_by_path v (inl l) srv log in
    (l = [] -> r = (Err ValueError, log))
    /\ exists k api,
         snd r = (log ++ map (@open_rb num) (firstn k l) ++ api)%list
         /\ Forall (fun rq => is_open rq = false) api
         /\ (api <> [] -> k = List.length l)
         /\ forall path h data files,
              In (api_multipart path h data (Some files)) api ->
              NoDup (map (fun f => fst (snd f)) files)
              /\ forall f, In f files ->
                           fst f = "files"
                           /\ contains backslash (fst (snd f)) = false
                           /\ exists p, In p l
                                        /\ fileName_of p = Ok (fst (snd f)).
Proof. exact samples_by_path_cases. Qed.

Lemma chars_length : forall s,
  Forall (fun p => String.length p = 1) (chars s).
Proof.
  induction s as [|c s IH]; simpl; constructor; auto.
Qed.

(** X25. Given one path as a [str], [add_samples_by_path] turns it into
    the list of its characters (line 397): every file it opens is
    named by a single character of the argument, one after the other
    from the first on, so the path itself is opened only when it is
    one character long; the empty string makes it raise [ValueError]
    without any request. *)
Theorem X25_samples_str_is_split :
  forall (v : voice num) (s : string) srv log,
    let r := add_samples_by_path v (inr s) srv log in
    (s = EmptyString -> r = (Err ValueError, log))
    /\ exists k api,
         snd r = (log ++ map (@open_rb num) (firstn k (chars s)) ++ api)%list
         /\ Forall (fun p => String.length p = 1) (firstn k (chars s))
         /\ Forall (fun rq => is_open rq = false) api.
Proof.
  intros v s srv log. cbv zeta.
  destruct (samples_by_path_cases v (chars s) srv log)
    as (Hnil & k & api & Hlog & Hopen & _).
  split.
  - intros ->. apply Hnil. reflexivity.
  - exists k, api. split; [exact Hlog|]. split; [|exact Hopen].
    apply Forall_forall. intros p Hp.
    pose proof (chars_length s) as Hall.
    rewrite Forall_forall in Hall. apply Hall.
    rewrite <- (firstn_skipn k (chars s)). apply in_or_app. now left.
Qed.

End VoiceProperties.

(** ** The REST layer at work

    Numbers are the rationals. *)

Section VoiceExamples.

Import Ascii String Voice VoiceDemo QArith_base.
Local Open Scope string_scope.

(** The server's similarity boost is fine, and the call ends in a
    [TypeError]. *)
Lemma X16_witness :
  fst (edit_settings (0 # 1) (1 # 1) Qle_bool rachel (Some (1 # 2)) None
                     server [])
  = Err TypeError.
Proof.
  apply (@X16_edit_settings_type_error Q (0 # 1) (1 # 1) Qle_bool rachel
           (Some (1 # 2)) server [] "v1"
           [("stability", PNum (1 # 4));
            ("similarity_boost", PNum (3 # 4))] [] (3 # 4)).
  - reflexivity.
  - reflexivity.
  - discriminate.
  - reflexivity.
Defined.

(** Only the stability is given; the similarity boost comes from the
    server. *)
Lemma X18_witness :
  payload_ok (0 # 1) (1 # 1) Qle_bool "Hello" "eleven_monolingual_v1"
             (Some (1 # 2)) None
             (PDict [("text", PStr "Hello");
                     ("model_id", PStr "eleven_monolingual_v1");
                     ("voice_settings",
                      PDict [("stability", PNum (1 # 2));
                             ("similarity_boost", PNum (3 # 4))])]).
Proof.
  apply (@X18_generate_payload_validated Q (0 # 1) (1 # 1) Qle_bool rachel
           "Hello" (Some (1 # 2)) None "eleven_monolingual_v1" server []).
  vm_compute. reflexivity.
Defined.

(** Six labels. *)
Lemma X20_witness :
  fst (edit_voice rachel None
         (Some [("a", "1"); ("b", "2"); ("c", "3");
                ("d", "4"); ("e", "5"); ("f", "6")])
         None server [])
  = Err ValueError.
Proof.
  refine (proj2 (proj2
            (@X20_edit_voice_label_limit Q rachel None
               [("a", "1"); ("b", "2"); ("c", "3");
                ("d", "4"); ("e", "5"); ("f", "6")]
               None server [] _))
            "v1" _ _ (PStr "Rachel") (PDict []) PNone
            eq_refl eq_refl eq_refl eq_refl eq_refl eq_refl).
  simpl. lia.
Defined.

(** A new name, and the labels and the description as they are. *)
Lemma X21_witness :
  exists id reply info n lb d,
    _voiceID rachel = PStr id
    /\ server [] (api_get ("/voices/" ++ id) (headers (_linkedUser rachel)))
       = Some reply
    /\ json reply = Some info
    /\ subscript info "name" = Ok n
    /\ subscript info "labels" = Ok lb
    /\ subscript info "description" = Ok d
    /\ (forall l, @None (list (string * string)) = Some l ->
                  (List.length l <= 5)%nat)
    /\ snd (edit_voice rachel (Some "Bella") None None server [])
       = ([] ++
          [api_get ("/voices/" ++ id) (headers (_linkedUser rachel));
           api_multipart
             ("/voices/" ++ id ++ "/edit") (headers (_linkedUser rachel))
             (PDict [("name", PStr "Bella"); ("labels", lb);
                     ("description", d)])
             None])%list.
Proof.
  apply (@X21_edit_voice_payload Q rachel (Some "Bella") None None
           server []).
  vm_compute. reflexivity.
Defined.

(** A cloned voice as the API lists it. *)
Lemma X22_witness :
  exists v,
    voiceFactory (PDict [("voice_id", PStr "v2"); ("name", PStr "Mine");
                         ("category", PStr "cloned")])
                 (mkUser (@PNone Q))
    = Ok v
    /\ class_of v = ElevenLabsClonedVoice
    /\ fst (delete_voice v server []) <> Err RuntimeError.
Proof.
  eexists. split; [vm_compute; reflexivity|].
  split; [reflexivity|].
  refine (proj1 (proj2 (proj2 (proj2 (proj2
            (@X22_factory_voice_delete Q
               (PDict [("voice_id", PStr "v2"); ("name", PStr "Mine");
                       ("category", PStr "cloned")])
               (mkUser PNone) _ server [] eq_refl)))) eq_refl)).
Defined.

(** A path given as one [str]: the files opened are ["a"], ["."],
    ["m"], ... *)
Example samples_str_demo :
  snd (add_samples_by_path rachel (inr "a.mp3") server [])
  = [open_rb "a"; open_rb "."; open_rb "m"; open_rb "p"; open_rb "3";
     api_get "/voices/v1" (headers (_linkedUser rachel));
     api_multipart "/voices/v1/edit" (headers (_linkedUser rachel))
       (PDict [("name", PStr "Rachel")])
       (Some [("files", ("a", [x01; x02])); ("files", (".", [x01; x02]));
              ("files", ("m", [x01; x02])); ("files", ("p", [x01; x02]));
              ("files", ("3", [x01; x02]))])].
Proof. vm_compute. reflexivity. Qed.

End VoiceExamples.
